(** * countertrade-bot: the order-mirroring engine of [countertrade.ts]

    A shallow embedding of the event classifier ([respondToOrder]), of the
    quantity sizing and order derivation done inside [placeCounterOrder], of
    the serialisation helper [getDecimalPlaces], and of the control flow
    around them (balance and instrument look-ups, submission, the websocket
    [update] handler).

    Numbers.  The program computes on JavaScript numbers.  They are
    modelled by [number]: the three special values [NaN], [Infinity] and
    [NegInfinity] together with the finite values, which are held as
    rationals.  Division by zero, [Infinity * 0], comparisons with [NaN]
    and the [Math] functions follow ECMAScript.  The product and the
    quotient come in two versions.  [JS.mul] and [JS.div] are exact; they
    carry the statements that do not depend on rounding: the control flow,
    the clamps, the infinities and [NaN], and the concrete inputs used with
    them are chosen so that the binary64 computation gives the same values.
    [Binary64.mul] and [Binary64.div] round the exact result to the nearest
    binary64 number, with overflow and gradual underflow, as the program
    does; [Binary64.sizeCounterOrder] is the sizing on them, and what is
    said of the multiples of the step and of the notional is said there.
    The sign of zero is not modelled (the zero of the model is [+0]), and
    [Math.floor(Math.log10(x))] is the exact one.

    The repository also holds an earlier variant of the program with the
    same classifier and order derivation, where the quantity is ten times
    the original one; the development follows [countertrade.ts]. *)

From Stdlib Require Import ZArith QArith Qround Qabs Qpower Lia Lqa.
From Stdlib Require Import List String Ascii Bool.
Import ListNotations.

Open Scope Q_scope.

(** ** JavaScript numbers *)

Module JS.

Inductive number : Type :=
| NaN
| Infinity
| NegInfinity
| Finite (q : Q).

(** Sign of a number: [Lt] negative, [Eq] zero, [Gt] positive; [NaN] has none. *)
Definition sign (a : number) : option comparison :=
  match a with
  | NaN => None
  | Infinity => Some Gt
  | NegInfinity => Some Lt
  | Finite q => Some (q ?= 0)
  end.

Definition sign_mul (s t : comparison) : comparison :=
  match s, t with
  | Eq, _ | _, Eq => Eq
  | Lt, Lt | Gt, Gt => Gt
  | _, _ => Lt
  end.

(** The infinity of a given sign; the "zero" sign stands for an undefined
    form ([0/0], [Infinity * 0]) and gives [NaN]. *)
Definition infinity_of (s : comparison) : number :=
  match s with
  | Gt => Infinity
  | Lt => NegInfinity
  | Eq => NaN
  end.

(** [a * b] *)
Definition mul (a b : number) : number :=
  match a, b with
  | Finite x, Finite y => Finite (Qred (x * y))
  | _, _ =>
      match sign a, sign b with
      | Some s, Some t => infinity_of (sign_mul s t)
      | _, _ => NaN
      end
  end.

(** [a / b]: no exception on a zero divisor; [x / 0] is an infinity of the
    sign of [x], and [0 / 0] is [NaN]. *)
Definition div (a b : number) : number :=
  match a, b with
  | NaN, _ | _, NaN => NaN
  | Finite x, Finite y =>
      if Qeq_bool y 0 then infinity_of (x ?= 0) else Finite (Qred (x / y))
  | Finite _, _ => Finite 0
  | _, Finite y => infinity_of (sign_mul (match a with Infinity => Gt | _ => Lt end)
                                         (if Qeq_bool y 0 then Gt else (y ?= 0)))
  | _, _ => NaN
  end.

(** [- a] *)
Definition neg (a : number) : number :=
  match a with
  | NaN => NaN
  | Infinity => NegInfinity
  | NegInfinity => Infinity
  | Finite q => Finite (Qred (- q))
  end.

(** [a < b]: false as soon as an operand is [NaN]. *)
Definition lt (a b : number) : bool :=
  match a, b with
  | NaN, _ | _, NaN => false
  | Finite x, Finite y => match x ?= y with Lt => true | _ => false end
  | NegInfinity, NegInfinity => false
  | NegInfinity, _ => true
  | _, Infinity => match a with Infinity => false | _ => true end
  | _, _ => false
  end.

(** [a <= b] *)
Definition le (a b : number) : bool :=
  match a, b with
  | NaN, _ | _, NaN => false
  | Finite x, Finite y => match x ?= y with Gt => false | _ => true end
  | NegInfinity, _ => true
  | _, Infinity => true
  | _, _ => false
  end.

Definition isNaN (a : number) : bool :=
  match a with NaN => true | _ => false end.

Definition isFinite (a : number) : bool :=
  match a with Finite _ => true | _ => false end.

Module Math.

(** [Math.max(a, b)]: [NaN] if either argument is. *)
Definition max (a b : number) : number :=
  match a, b with
  | NaN, _ | _, NaN => NaN
  | _, _ => if lt a b then b else a
  end.

(** [Math.min(a, b)] *)
Definition min (a b : number) : number :=
  match a, b with
  | NaN, _ | _, NaN => NaN
  | _, _ => if lt b a then b else a
  end.

(** [Math.round(a)]: the nearest integer, a tie going up. *)
Definition round (a : number) : number :=
  match a with
  | Finite q => Finite (inject_Z (Qfloor (q + (1 # 2))))
  | _ => a
  end.

(** [Math.ceil(a)] *)
Definition ceil (a : number) : number :=
  match a with
  | Finite q => Finite (inject_Z (Qceiling q))
  | _ => a
  end.

(** [Math.floor(a)] *)
Definition floor (a : number) : number :=
  match a with
  | Finite q => Finite (inject_Z (Qfloor q))
  | _ => a
  end.

End Math.

End JS.

Import JS.

(** ** Quantity sizing (the body of [placeCounterOrder], lines 255-317) *)

(** The five numbers read from [symbolInfo.lotSizeFilter] (lines 282-286). *)
Record LotSize : Type := {
  maxQty : number;
  minQty : number;
  step : number;
  maxMarketQty : number;
  minNotional : number
}.

(** Every constant the sizing code binds, in source order. *)
Record Sizing : Type := {
  marginPercentage : number;
  counterTradeValue : number;
  initialCounterQty : number;
  steppedCounterQty : number;
  boundedCounterQty : number;
  marketAdjustedCounterQty : number;
  notionalValue : number;
  minNotionalAdjustedCounterQty : number;
  finalCounterQty : number
}.

(** [tradeValue] is [parseFloat(orderData.cumExecValue)], [tradingEquity] and
    [counterEquity] the [equity] of the two balances, [price] is
    [+orderData.price] and [orderType] is [orderData.orderType]. *)
Definition sizeCounterOrder
    (tradeValue tradingEquity counterEquity price : number)
    (orderType : string) (l : LotSize) : Sizing :=
  let marginPercentage := div tradeValue tradingEquity in
  let counterTradeValue := mul counterEquity marginPercentage in
  let initialCounterQty := div counterTradeValue price in
  let steppedCounterQty :=
    mul (Math.round (div initialCounterQty (step l))) (step l) in
  let boundedCounterQty :=
    Math.max (minQty l) (Math.min (maxQty l) steppedCounterQty) in
  let marketAdjustedCounterQty :=
    if String.eqb orderType "Market"
    then Math.min boundedCounterQty (maxMarketQty l)
    else boundedCounterQty in
  let notionalValue := mul marketAdjustedCounterQty price in
  let minNotionalAdjustedCounterQty :=
    if lt notionalValue (minNotional l)
    then mul (Math.ceil (div (div (minNotional l) price) (step l))) (step l)
    else marketAdjustedCounterQty in
  let finalCounterQty :=
    Math.max (minQty l) (Math.min (maxQty l) minNotionalAdjustedCounterQty) in
  {| marginPercentage := marginPercentage;
     counterTradeValue := counterTradeValue;
     initialCounterQty := initialCounterQty;
     steppedCounterQty := steppedCounterQty;
     boundedCounterQty := boundedCounterQty;
     marketAdjustedCounterQty := marketAdjustedCounterQty;
     notionalValue := notionalValue;
     minNotionalAdjustedCounterQty := minNotionalAdjustedCounterQty;
     finalCounterQty := finalCounterQty |}.

(** ** Reading and printing numbers *)

Definition nl : string := String (ascii_of_nat 10) EmptyString.

Definition is_digit (c : ascii) : bool :=
  (48 <=? nat_of_ascii c)%nat && (nat_of_ascii c <=? 57)%nat.

Definition digit_value (c : ascii) : Z := Z.of_nat (nat_of_ascii c - 48).

(** White space of the ASCII range: space, tab, LF, VT, FF, CR. *)
Definition is_white (c : ascii) : bool :=
  (nat_of_ascii c =? 32)%nat
  || ((9 <=? nat_of_ascii c)%nat && (nat_of_ascii c <=? 13)%nat).

Fixpoint trim_start (s : string) : string :=
  match s with
  | String c r => if is_white c then trim_start r else s
  | EmptyString => s
  end.

Definition string_rev (s : string) : string :=
  string_of_list_ascii (List.rev (list_ascii_of_string s)).

Definition trim (s : string) : string :=
  string_rev (trim_start (string_rev (trim_start s))).

(** Reads a run of decimal digits: the value accumulated on [acc], how many
    digits were read, and what follows them. *)
Fixpoint scan_digits (s : string) (acc : Z) (n : nat) : Z * nat * string :=
  match s with
  | String c r =>
      if is_digit c then scan_digits r (10 * acc + digit_value c) (S n)
      else (acc, n, s)
  | EmptyString => (acc, n, s)
  end.

(** An exponent part [e], [e+] or [e-] followed by at least one digit; when
    there is none, nothing is consumed. *)
Definition scan_exponent (s : string) : Z * string :=
  match s with
  | String c r =>
      if Ascii.eqb c "e" || Ascii.eqb c "E" then
        let '(sg, r1) :=
          match r with
          | String "-" t => ((-1)%Z, t)
          | String "+" t => (1%Z, t)
          | _ => (1%Z, r)
          end in
        let '(e, n, r2) := scan_digits r1 0 0 in
        if (n =? 0)%nat then (0%Z, s) else ((sg * e)%Z, r2)
      else (0%Z, s)
  | EmptyString => (0%Z, s)
  end.

(** [m * 10^e] as a reduced fraction. *)
Definition scale (m e : Z) : Q :=
  if (0 <=? e)%Z then inject_Z (m * 10 ^ e)
  else Qred (m # Z.to_pos (10 ^ (- e))).

(** The first [n] characters of [s], and what follows them. *)
Fixpoint take (n : nat) (s : string) : string :=
  match n, s with
  | S n', String c r => String c (take n' r)
  | _, _ => EmptyString
  end.

Fixpoint skip (n : nat) (s : string) : string :=
  match n, s with
  | S n', String _ r => skip n' r
  | _, _ => s
  end.

(** The longest prefix of [s] that is a decimal literal ([StrDecimalLiteral]
    of ECMAScript: an optional sign, then [Infinity] or digits with an
    optional fraction and exponent), and the rest of [s]. *)
Definition scan_decimal (s : string) : option (number * string) :=
  let '(negative, s1) :=
    match s with
    | String "-" r => (true, r)
    | String "+" r => (false, r)
    | _ => (false, s)
    end in
  if String.prefix "Infinity" s1
  then Some (if negative then NegInfinity else Infinity, skip 8 s1)
  else
    let '(ip, ni, s2) := scan_digits s1 0 0 in
    let '(m, nf, s3) :=
      match s2 with
      | String "." r => scan_digits r ip 0
      | _ => (ip, 0%nat, s2)
      end in
    if (ni + nf =? 0)%nat then None
    else
      let '(e, s4) := scan_exponent s3 in
      Some (Finite (scale (if negative then - m else m) (e - Z.of_nat nf)), s4).

(** [Number(s)] and the unary [+s] on a string: the whole string, white space
    trimmed, must be a decimal literal; the empty string is 0.  Hexadecimal,
    octal and binary literals are not covered (they read as [NaN] here). *)
Definition ToNumber (s : string) : number :=
  match trim s with
  | EmptyString => Finite 0
  | t =>
      match scan_decimal t with
      | Some (v, EmptyString) => v
      | _ => NaN
      end
  end.

(** [Number.parseFloat(s)]: the longest decimal prefix, [NaN] if there is none. *)
Definition parseFloat (s : string) : number :=
  match scan_decimal (trim_start s) with
  | Some (v, _) => v
  | None => NaN
  end.

Definition digit_char (d : Z) : ascii := ascii_of_nat (48 + Z.to_nat d).

Fixpoint decimal_digits (fuel : nat) (n : Z) (acc : string) : string :=
  match fuel with
  | O => acc
  | S fuel' =>
      let acc' := String (digit_char (n mod 10)) acc in
      if (n <? 10)%Z then acc' else decimal_digits fuel' (n / 10) acc'
  end.

(** The decimal digits of a natural number, ["0"] for zero. *)
Definition decimal (n : Z) : string :=
  decimal_digits (S (Z.to_nat (Z.log2 n))) n EmptyString.

Fixpoint zeros (n : nat) : string :=
  match n with
  | O => EmptyString
  | S n' => String "0" (zeros n')
  end.

(** Step 11 of [Number.prototype.toFixed]: the digits [m] of [n], padded on
    the left with zeros to [f + 1] characters, with a point before the last
    [f] of them. *)
Definition point (m : string) (f : nat) : string :=
  match f with
  | O => m
  | _ =>
      let m' := (zeros (S f - String.length m) ++ m)%string in
      let k := String.length m' in
      (take (k - f) m' ++ "." ++ skip (k - f) m')%string
  end.

(** The completion of a call that may throw or leave the process. *)
Inductive exn : Type :=
| RangeError
| TypeError
| Error (message : string).

Inductive completion (A : Type) : Type :=
| Normal (a : A)
| Throw (e : exn)
| Exit (code : Z).

Arguments Normal {A} a.
Arguments Throw {A} e.
Arguments Exit {A} code.

(** [ToIntegerOrInfinity]: [NaN] is 0, a finite number is truncated. *)
Definition ToIntegerOrInfinity (a : number) : number :=
  match a with
  | NaN => Finite 0
  | Finite q => Finite (inject_Z (Z.quot (Qnum q) (Zpos (Qden q))))
  | _ => a
  end.

Section Serialisation.

(** The exponent notation in which [Number::toString] prints a finite number
    of magnitude at least 10^21 (["1e+21"] for 10^21).  It depends on the
    shortest binary64 digits of the number and is kept as a parameter. *)
Variable exponential : Q -> string.

(** [x.toFixed(fractionDigits)] *)
Definition toFixed (x fractionDigits : number) : completion string :=
  match ToIntegerOrInfinity fractionDigits with
  | Finite fq =>
      let f := Qnum fq in
      if (f <? 0)%Z || (100 <? f)%Z then Throw RangeError
      else
        match x with
        | NaN => Normal "NaN"%string
        | Infinity => Normal "Infinity"%string
        | NegInfinity => Normal "-Infinity"%string
        | Finite q =>
            let s := match q ?= 0 with Lt => "-"%string | _ => EmptyString end in
            let a := Qabs q in
            if Qle_bool (10 ^ 21) a then Normal (s ++ exponential a)%string
            else
              let n := Qfloor (a * inject_Z (10 ^ f) + (1 # 2)) in
              Normal (s ++ point (decimal n) (Z.to_nat f))%string
        end
  | _ => Throw RangeError
  end.

End Serialisation.

Fixpoint log10_up (fuel : nat) (a b k : Z) : Z :=
  match fuel with
  | O => k
  | S fuel' =>
      if (b * 10 <=? a)%Z then log10_up fuel' a (b * 10)%Z (k + 1)%Z else k
  end.

Fixpoint log10_down (fuel : nat) (a b k : Z) : Z :=
  match fuel with
  | O => k
  | S fuel' =>
      if (b <=? a * 10)%Z then (k + 1)%Z
      else log10_down fuel' (a * 10)%Z b (k + 1)%Z
  end.

(** The integer [d] with [10^d <= q < 10^(d+1)], for [q > 0]: the floor of
    the decimal logarithm. *)
Definition floor_log10 (q : Q) : Z :=
  let a := Qnum q in
  let b := Zpos (Qden q) in
  if (b <=? a)%Z then log10_up (S (Z.to_nat (Z.log2 a))) a b 0
  else (- log10_down (S (Z.to_nat (Z.log2 b))) a b 0)%Z.

(** [Math.floor(Math.log10(a))].  The logarithm itself is not rational, so
    the composition is modelled as one function: [log10] is [NaN] on a
    negative number, [-Infinity] at 0 and [Infinity] at [Infinity]. *)
Definition floor_of_log10 (a : number) : number :=
  match a with
  | NaN | NegInfinity => NaN
  | Infinity => Infinity
  | Finite q =>
      match q ?= 0 with
      | Lt => NaN
      | Eq => NegInfinity
      | Gt => Finite (inject_Z (floor_log10 q))
      end
  end.

(** [getDecimalPlaces] (lines 461-463) *)
Definition getDecimalPlaces (step : number) : number :=
  neg (floor_of_log10 step).

(** ** Exchange data *)

(** [WSAccountOrderV5], the fields the program reads. *)
Module Order.
Record t : Type := {
  orderId : string;
  orderLinkId : string;
  symbol : string;
  side : string;
  orderType : string;
  orderStatus : string;
  createType : string;
  qty : string;
  price : string;
  cumExecValue : string;
  takeProfit : string;
  stopLoss : string;
  timeInForce : string;
  positionIdx : Z
}.
End Order.

(** [OrderParamsV5], the fields the program writes; [price] is [None] for
    [undefined]. *)
Module Params.
Record t : Type := {
  category : string;
  symbol : string;
  side : string;
  orderType : string;
  qty : string;
  price : option string;
  takeProfit : string;
  stopLoss : string;
  positionIdx : Z;
  timeInForce : string;
  reduceOnly : bool;
  closeOnTrigger : bool;
  tpslMode : string;
  orderLinkId : string
}.
End Params.

(** ** Event classifier (lines 223-236) *)

Definition OrderStatusToRespondTo : list string :=
  ["New"; "Filled"; "PartiallyFilled"; "Created"]%string.

(** [Array.prototype.includes] on strings *)
Definition includes (l : list string) (s : string) : bool :=
  existsb (String.eqb s) l.

Definition respondToOrder (orderData : Order.t) : bool :=
  includes OrderStatusToRespondTo (Order.orderStatus orderData)
  && String.eqb (Order.createType orderData) "CreateByUser"
  && negb (String.prefix "counter_" (Order.orderLinkId orderData)).

(** ** Order transformer (lines 335-359) *)

Definition counterSide (side : string) : string :=
  if String.eqb side "Buy" then "Sell"%string else "Buy"%string.

Definition counterOrder (orderData : Order.t) (counterQtyString : string)
  : Params.t :=
  let counterTakeProfit := Order.stopLoss orderData in
  let counterStopLoss := Order.takeProfit orderData in
  {| Params.category := "linear";
     Params.symbol := Order.symbol orderData;
     Params.side := counterSide (Order.side orderData);
     Params.orderType := Order.orderType orderData;
     Params.qty := counterQtyString;
     Params.price :=
       if String.eqb (Order.orderType orderData) "Limit"
       then Some (Order.price orderData) else None;
     Params.takeProfit := counterTakeProfit;
     Params.stopLoss := counterStopLoss;
     Params.positionIdx := Order.positionIdx orderData;
     Params.timeInForce := Order.timeInForce orderData;
     Params.reduceOnly := false;
     Params.closeOnTrigger := false;
     Params.tpslMode := "Partial";
     Params.orderLinkId := ("counter_" ++ Order.orderId orderData)%string |}.

(** ** Effects

    A run of the program is recorded as the list of the effects it performs
    (log lines, requests to the exchange, Telegram messages) and how it
    completes.  Log lines keep the message; the objects logged after it are
    left out. *)

Inductive level : Type := error | warn | info.

Inductive client : Type := tradingRestClient | counterRestClient.

(** The object of [getBalanceOfCoin]'s result. *)
Record Balance : Type := {
  walletBalance : number;
  availableToWithdraw : number;
  equity : number
}.

Inductive effect : Type :=
| Log (lvl : level) (message : string)
| ConsoleLog (label : string) (balance : option Balance)
| SendMessage (text : string)
| GetWalletBalance (c : client) (coin : string)
| GetInstrumentsInfo (symbol : string)
| SubmitOrder (order : Params.t).

Definition M (A : Type) : Type := (list effect * completion A)%type.

Definition ret {A : Type} (a : A) : M A := ([], Normal a).

Definition bind {A B : Type} (m : M A) (k : A -> M B) : M B :=
  match m with
  | (t, Normal a) => let (t', r) := k a in (t ++ t', r)
  | (t, Throw e) => (t, Throw e)
  | (t, Exit c) => (t, Exit c)
  end.

Definition throw {A : Type} (e : exn) : M A := ([], Throw e).

(** [process.exit(code)] *)
Definition exit {A : Type} (code : Z) : M A := ([], Exit code).

(** [try { m } catch (e) { h e }] *)
Definition try_catch {A : Type} (m : M A) (h : exn -> M A) : M A :=
  match m with
  | (t, Throw e) => let (t', r) := h e in (t ++ t', r)
  | _ => m
  end.

Definition emit (e : effect) : M unit := ([e], Normal tt).

Definition log (lvl : level) (message : string) : M unit :=
  emit (Log lvl message).

Definition lift {A : Type} (c : completion A) : M A := ([], c).

Declare Scope js_scope.
Delimit Scope js_scope with js.
Notation "x <- m ;; k" := (bind m (fun x => k))
  (at level 61, m at next level, right associativity) : js_scope.
Notation "m ;; k" := (bind m (fun _ => k))
  (at level 61, right associativity) : js_scope.
Open Scope js_scope.

(** What an awaited call to a collaborator does: the promise resolves with a
    value or rejects with an exception. *)
Inductive outcome (A : Type) : Type :=
| Resolved (a : A)
| Rejected (e : exn).

Arguments Resolved {A} a.
Arguments Rejected {A} e.

(** [await] of a request: the request is recorded, a rejection is thrown. *)
Definition await {A : Type} (request : effect) (o : outcome A) : M A :=
  (request :: nil, match o with Resolved a => Normal a | Rejected e => Throw e end).

(** ** Responses of the exchange *)

Record CoinBalance : Type := {
  coin : string;
  coin_walletBalance : string;
  coin_availableToWithdraw : string;
  coin_equity : string
}.

Record WalletBalance : Type := { coins : list CoinBalance }.

Record WalletBalanceResponse : Type := {
  wallet_retCode : Z;
  wallet_list : list WalletBalance
}.

Module LotSizeFilter.
Record t : Type := {
  maxOrderQty : string;
  minOrderQty : string;
  qtyStep : string;
  maxMktOrderQty : string;
  minNotionalValue : string
}.
End LotSizeFilter.

Record InstrumentInfo : Type := { lotSizeFilter : LotSizeFilter.t }.

Record InstrumentsInfoResponse : Type := {
  instruments_retCode : Z;
  instruments_list : list InstrumentInfo
}.

Record SubmitResponse : Type := {
  retCode : Z;
  retMsg : string
}.

(** The collaborators: the two REST clients, the Telegram bot, and whether
    a bot token is configured. *)
Record World : Type := {
  TELEGRAM_ENABLED : bool;
  sendMessage : string -> outcome unit;
  getWalletBalance : client -> string -> outcome WalletBalanceResponse;
  getInstrumentsInfo : string -> outcome InstrumentsInfoResponse;
  submitOrder : Params.t -> outcome SubmitResponse
}.

Definition ASSUMING_COIN : string := "USDT".

Definition Z_to_string (z : Z) : string :=
  if (z <? 0)%Z then ("-" ++ decimal (- z))%string else decimal z.

(** [s || d] on strings: the empty string is falsy. *)
Definition or_else (s d : string) : string :=
  match s with EmptyString => d | _ => s end.

(** The Telegram text of the [update] handler (lines 177-184). *)
Definition originalOrderMessage (orderData : Order.t) : string :=
  (nl ++ "      Original Order:" ++ nl
   ++ "      " ++ Order.side orderData ++ " " ++ Order.symbol orderData ++ nl
   ++ "      Size: " ++ Order.qty orderData ++ nl
   ++ "      Entry: " ++ or_else (Order.price orderData) "Market" ++ nl
   ++ "      TP: " ++ or_else (Order.takeProfit orderData) "None" ++ nl
   ++ "      SL: " ++ or_else (Order.stopLoss orderData) "None" ++ nl
   ++ "      ")%string.

(** The Telegram text of [placeCounterOrder] (lines 362-368). *)
Definition counterOrderMessage (counterOrder : Params.t) : string :=
  (nl ++ Params.side counterOrder ++ " " ++ Params.symbol counterOrder ++ nl
   ++ "Size: " ++ Params.qty counterOrder ++ nl
   ++ "Entry: "
   ++ or_else (match Params.price counterOrder with Some p => p | None => EmptyString end)
              "Market" ++ nl
   ++ "TP: " ++ or_else (Params.takeProfit counterOrder) "None" ++ nl
   ++ "SL: " ++ or_else (Params.stopLoss counterOrder) "None" ++ nl)%string.

(** ** Mirror orchestration *)

Section Orchestration.

Variable exponential : Q -> string.
Variable w : World.

(** [sendTelegramMessage] (lines 395-403) *)
Definition sendTelegramMessage (message : string) : M unit :=
  if TELEGRAM_ENABLED w then
    try_catch
      (await (SendMessage message) (sendMessage w message))
      (fun _ => log error "Error sending Telegram message:")
  else ret tt.

(** [getBalanceOfCoin] (lines 405-442); [None] is [null]. *)
Definition getBalanceOfCoin (c : client) (coin_ account : string)
  : M (option Balance) :=
  try_catch
    (response <- await (GetWalletBalance c coin_) (getWalletBalance w c coin_) ;;
     if (wallet_retCode response =? 0)%Z then
       match wallet_list response with
       | [] => throw TypeError
       | balance :: _ =>
           match find (fun balanceCoin => String.eqb (coin balanceCoin) coin_)
                      (coins balance) with
           | Some foundCoin =>
               ret (Some {| walletBalance := ToNumber (coin_walletBalance foundCoin);
                            availableToWithdraw :=
                              ToNumber (coin_availableToWithdraw foundCoin);
                            equity := ToNumber (coin_equity foundCoin) |})
           | None =>
               log error ("Could not find " ++ coin_ ++ " in " ++ account
                          ++ " account balance") ;;
               ret None
           end
       end
     else
       log error ("Response code " ++ Z_to_string (wallet_retCode response)
                  ++ " when fetching " ++ account ++ " account balance") ;;
       ret None)
    (fun _ =>
       log error ("Exception when fetching " ++ account ++ " account balance:") ;;
       ret None).

(** [getSymbolInfo] (lines 444-459): the first instrument when the result
    code is 0 and the list is not empty; any failure is logged and thrown
    again. *)
Definition getSymbolInfo (symbol : string) : M InstrumentInfo :=
  try_catch
    (response <- await (GetInstrumentsInfo symbol) (getInstrumentsInfo w symbol) ;;
     match instruments_list response with
     | first :: _ =>
         if (instruments_retCode response =? 0)%Z then ret first
         else throw (Error ("Failed to get symbol info for " ++ symbol))
     | [] => throw (Error ("Failed to get symbol info for " ++ symbol))
     end)
    (fun e =>
       log error ("Error fetching symbol info for " ++ symbol ++ ":") ;;
       throw e).

(** The numbers of lines 282-286. *)
Definition lotSizeOf (f : LotSizeFilter.t) : LotSize :=
  {| maxQty := ToNumber (LotSizeFilter.maxOrderQty f);
     minQty := ToNumber (LotSizeFilter.minOrderQty f);
     step := ToNumber (LotSizeFilter.qtyStep f);
     maxMarketQty := ToNumber (LotSizeFilter.maxMktOrderQty f);
     minNotional := ToNumber (LotSizeFilter.minNotionalValue f) |}.

(** The sizing of lines 255-317 on the data of a run. *)
Definition sizingOf (orderData : Order.t)
    (tradingAccountBalance countertradeAccountBalance : Balance)
    (symbolInfo : InstrumentInfo) : Sizing :=
  sizeCounterOrder
    (parseFloat (Order.cumExecValue orderData))
    (equity tradingAccountBalance)
    (equity countertradeAccountBalance)
    (ToNumber (Order.price orderData))
    (Order.orderType orderData)
    (lotSizeOf (lotSizeFilter symbolInfo)).

(** Line 319 *)
Definition counterQtyString (finalCounterQty step : number) : completion string :=
  toFixed exponential finalCounterQty (getDecimalPlaces step).

(** Lines 361-392: the submission and the reading of its result code. *)
Definition submitCounterOrder (counterOrder : Params.t) : M unit :=
  log info "Placing counter order:" ;;
  sendTelegramMessage (counterOrderMessage counterOrder) ;;
  try_catch
    (response <- await (SubmitOrder counterOrder) (submitOrder w counterOrder) ;;
     if (retCode response =? 110007)%Z then
       log warn "Insufficent balance in countertrade account for order"
     else
       log info "Countertrade result code" ;;
       log info "Countertrade result message" ;;
       log info "Counter order placed:" ;;
       sendTelegramMessage
         ("Order placed: " ++ Params.symbol counterOrder ++ " "
          ++ Params.side counterOrder))
    (fun _ =>
       log error "Error placing counter order:" ;;
       sendTelegramMessage
         ("Error placing order: " ++ Params.symbol counterOrder ++ " "
          ++ Params.side counterOrder)).

(** [placeCounterOrder] (lines 238-393) *)
Definition placeCounterOrder (orderData : Order.t) : M unit :=
  tradingAccountBalance <- getBalanceOfCoin tradingRestClient ASSUMING_COIN "trading" ;;
  match tradingAccountBalance with
  | None => log error "Error fetching trading account balance"
  | Some tradingAccountBalance =>
      countertradeAccountBalance <-
        getBalanceOfCoin counterRestClient ASSUMING_COIN "counter" ;;
      match countertradeAccountBalance with
      | None => log error "Error fetching counter-trading account balance"
      | Some countertradeAccountBalance =>
          symbolInfo <- getSymbolInfo (Order.symbol orderData) ;;
          let sizing :=
            sizingOf orderData tradingAccountBalance countertradeAccountBalance
                     symbolInfo in
          counterQtyString <-
            lift (counterQtyString (finalCounterQty sizing)
                    (step (lotSizeOf (lotSizeFilter symbolInfo)))) ;;
          submitCounterOrder (counterOrder orderData counterQtyString)
      end
  end.

(** The handler of the websocket [update] event (lines 173-190), on the
    orders of one message. *)
Fixpoint onUpdate (data : list Order.t) : M unit :=
  match data with
  | [] => ret tt
  | orderData :: rest =>
      (if respondToOrder orderData then
         log info "New original order detected:" ;;
         sendTelegramMessage (originalOrderMessage orderData) ;;
         placeCounterOrder orderData
       else ret tt) ;;
      onUpdate rest
  end.

(** [checkFetchBalances] (lines 152-168), called at line 150. *)
Definition checkFetchBalances : M unit :=
  tradingBalance <- getBalanceOfCoin tradingRestClient ASSUMING_COIN "trading" ;;
  emit (ConsoleLog "tradingBalance" tradingBalance) ;;
  counterTradingBalance <- getBalanceOfCoin counterRestClient ASSUMING_COIN "counter" ;;
  emit (ConsoleLog "counterTradingBalance" counterTradingBalance) ;;
  exit 0.

End Orchestration.

(** ** Vocabulary of the statements *)

(** A lot-size filter given by five finite values. *)
Definition lotSize (maxq minq stp maxmkt minnot : Q) : LotSize :=
  {| maxQty := Finite maxq; minQty := Finite minq; step := Finite stp;
     maxMarketQty := Finite maxmkt; minNotional := Finite minnot |}.

(** [q] is an integer multiple of [s]. *)
Definition multiple_of (q s : Q) : Prop := exists k : Z, q == inject_Z k * s.



(** A stand-in for the exponent notation in the concrete runs of this file,
    none of which prints a quantity of magnitude 10^21 or more. *)
Definition exponential_unmodelled (q : Q) : string := "1e+21".

(** ** Sample data *)

(** A wallet response holding one USDT balance. *)
Definition wallet_of (equity_ : string) : outcome WalletBalanceResponse :=
  Resolved {| wallet_retCode := 0;
              wallet_list :=
                [ {| coins := [ {| coin := "USDT";
                                   coin_walletBalance := equity_;
                                   coin_availableToWithdraw := equity_;
                                   coin_equity := equity_ |} ] |} ] |}.

(** The constraints of scenario 1, with a market cap of 50. *)
Definition sample_filter : LotSizeFilter.t :=
  {| LotSizeFilter.maxOrderQty := "100";
     LotSizeFilter.minOrderQty := "0.1";
     LotSizeFilter.qtyStep := "0.1";
     LotSizeFilter.maxMktOrderQty := "50";
     LotSizeFilter.minNotionalValue := "5" |}.

(** A world without Telegram in which both balances are served, only
    BTCUSDT is a known symbol, with the constraints [filter], and every
    submission has the outcome [submission]. *)
Definition sample_world (filter : LotSizeFilter.t)
    (tradingEquity counterEquity : string)
    (submission : outcome SubmitResponse) : World :=
  {| TELEGRAM_ENABLED := false;
     sendMessage := fun _ => Resolved tt;
     getWalletBalance := fun c _ =>
       match c with
       | tradingRestClient => wallet_of tradingEquity
       | counterRestClient => wallet_of counterEquity
       end;
     getInstrumentsInfo := fun symbol =>
       if String.eqb symbol "BTCUSDT"
       then Resolved {| instruments_retCode := 0;
                        instruments_list := [ {| lotSizeFilter := filter |} ] |}
       else Rejected (Error "Request failed");
     submitOrder := fun _ => submission |}.

(** A filled Limit Buy of the user at price 100. *)
Definition sample_order (orderId symbol cumExecValue : string) : Order.t :=
  {| Order.orderId := orderId;
     Order.orderLinkId := "";
     Order.symbol := symbol;
     Order.side := "Buy";
     Order.orderType := "Limit";
     Order.orderStatus := "Filled";
     Order.createType := "CreateByUser";
     Order.qty := "5";
     Order.price := "100";
     Order.cumExecValue := cumExecValue;
     Order.takeProfit := "120";
     Order.stopLoss := "90";
     Order.timeInForce := "GTC";
     Order.positionIdx := 0 |}.

(** The exchange accepts the order. *)
Definition accepted : outcome SubmitResponse := Resolved {| retCode := 0; retMsg := "OK" |}.


(** The balance read from a wallet whose three amounts are [q]. *)
Definition balance_of (q : Q) : Balance :=
  {| walletBalance := Finite q; availableToWithdraw := Finite q;
     equity := Finite q |}.

(** What [submitCounterOrder] does before it calls the exchange. *)
Definition placing (w : World) (counterOrder : Params.t) : list effect :=
  Log info "Placing counter order:"
  :: fst (sendTelegramMessage w (counterOrderMessage counterOrder)).

(** ** Start-up configuration (lines 17-107) *)

(** [process.env]: [None] is [undefined]. *)
Definition Env : Type := string -> option string.

(** Truthiness of an environment value: [undefined] and the empty string are
    falsy. *)
Definition truthy (v : option string) : bool :=
  match v with
  | Some (String _ _) => true
  | _ => false
  end.

(** Line 44; [mainnet] is [values.mainnet], [None] when the flag is absent. *)
Definition USE_TESTNET (mainnet : option bool) : bool :=
  match mainnet with
  | None => true
  | Some b => negb b
  end.

Definition USE_BYBIT_GLOBAL : bool := true.

(** Lines 49-51 and 56-59: the REST endpoint. *)
Definition BASE_URL (mainnet : option bool) : string :=
  let BASE_URL :=
    if USE_TESTNET mainnet then "https://api-testnet.bybit.com"%string
    else "https://api.bybit.com"%string in
  if USE_BYBIT_GLOBAL then
    if USE_TESTNET mainnet then "https://api-testnet.bybitglobal.com"%string
    else "https://api.bybitglobal.com"%string
  else BASE_URL.

(** Lines 53-55 and 61-63: the websocket endpoint. *)
Definition WS_URL (mainnet : option bool) : string :=
  let WS_URL :=
    if USE_TESTNET mainnet then "wss://stream-testnet.bybit.com/v5/private"%string
    else "wss://stream.bybit.com/v5/private"%string in
  if USE_BYBIT_GLOBAL then
    if USE_TESTNET mainnet
    then "wss://stream-testnet.bybitglobal.com/v5/private"%string
    else "wss://stream.bybitglobal.com/v5/private"%string
  else WS_URL.

(** One of the four checks of lines 74-92. *)
Definition requireVariable (env : Env) (name : string) : M unit :=
  if truthy (env name) then ret tt
  else log error (name ++ " is not set") ;; exit 1.

(** Lines 74-107: the credentials, then the Telegram settings.
    [TELEGRAM_CHANNEL_ID] is [process.env.TELEGRAM_CHANNEL_ID], or the empty string when that is falsy. *)
Definition checkConfiguration (env : Env) : M unit :=
  requireVariable env "TRADING_SUBACCOUNT_API_KEY" ;;
  requireVariable env "TRADING_SUBACCOUNT_API_SECRET" ;;
  requireVariable env "COUNTERTRADING_SUBACCOUNT_API_KEY" ;;
  requireVariable env "COUNTERTRADING_SUBACCOUNT_API_SECRET" ;;
  let TELEGRAM_ENABLED := truthy (env "TELEGRAM_BOT_TOKEN"%string) in
  let TELEGRAM_CHANNEL_ID :=
    match env "TELEGRAM_CHANNEL_ID"%string with
    | Some (String c r) => String c r
    | _ => EmptyString
    end in
  if TELEGRAM_ENABLED then
    match TELEGRAM_CHANNEL_ID with
    | EmptyString =>
        log error "TELEGRAM_CHANNEL_ID is not set but bot is enabled, quitting" ;;
        exit 1
    | _ =>
        log info ("Telegram bot enabled, channel ID: " ++ TELEGRAM_CHANNEL_ID)
    end
  else log error "TELEGRAM_BOT_TOKEN is not set, bot will not run".

(** ** More vocabulary *)

(** The orders submitted in a run, in order. *)
Definition submissions (t : list effect) : list Params.t :=
  flat_map (fun e => match e with SubmitOrder order => [order] | _ => [] end) t.

(** The requests made to the exchange in a run, in order. *)
Definition requests (t : list effect) : list effect :=
  filter (fun e =>
            match e with
            | GetWalletBalance _ _ | GetInstrumentsInfo _ | SubmitOrder _ => true
            | _ => false
            end) t.





(** ** Binary64 arithmetic *)

(** The sizing of lines 255-317 with the product and the quotient as
    parameters: [sizeCounterOrder] is this function at the exact [mul] and
    [div], and [Binary64.sizeCounterOrder] below is this function at the
    operations of the program, which round every result to binary64. *)
Definition sizeCounterOrderWith
    (mul div : number -> number -> number)
    (tradeValue tradingEquity counterEquity price : number)
    (orderType : string) (l : LotSize) : Sizing :=
  let marginPercentage := div tradeValue tradingEquity in
  let counterTradeValue := mul counterEquity marginPercentage in
  let initialCounterQty := div counterTradeValue price in
  let steppedCounterQty :=
    mul (Math.round (div initialCounterQty (step l))) (step l) in
  let boundedCounterQty :=
    Math.max (minQty l) (Math.min (maxQty l) steppedCounterQty) in
  let marketAdjustedCounterQty :=
    if String.eqb orderType "Market"
    then Math.min boundedCounterQty (maxMarketQty l)
    else boundedCounterQty in
  let notionalValue := mul marketAdjustedCounterQty price in
  let minNotionalAdjustedCounterQty :=
    if lt notionalValue (minNotional l)
    then mul (Math.ceil (div (div (minNotional l) price) (step l))) (step l)
    else marketAdjustedCounterQty in
  let finalCounterQty :=
    Math.max (minQty l) (Math.min (maxQty l) minNotionalAdjustedCounterQty) in
  {| marginPercentage := marginPercentage;
     counterTradeValue := counterTradeValue;
     initialCounterQty := initialCounterQty;
     steppedCounterQty := steppedCounterQty;
     boundedCounterQty := boundedCounterQty;
     marketAdjustedCounterQty := marketAdjustedCounterQty;
     notionalValue := notionalValue;
     minNotionalAdjustedCounterQty := minNotionalAdjustedCounterQty;
     finalCounterQty := finalCounterQty |}.

Module Binary64.

(** [floor (log2 q)] for a positive [q]. *)
Definition ilog2 (q : Q) : Z :=
  let k := (Z.log2 (Qnum q) - Z.log2 (Zpos (Qden q)))%Z in
  if Qle_bool (2 ^ k) q then k else (k - 1)%Z.

(** The integer nearest to [x], a tie going to the even one. *)
Definition nearest_even (x : Q) : Z :=
  let f := Qfloor x in
  match Qcompare (x - inject_Z f) (1 # 2) with
  | Lt => f
  | Gt => (f + 1)%Z
  | Eq => if Z.even f then f else (f + 1)%Z
  end.

(** The exponent of the last place of the binary64 numbers next to [q]:
    53 significant bits, and [2^-1074] in the subnormal range. *)
Definition ulp_exponent (q : Q) : Z := Z.max (ilog2 (Qabs q) - 52) (-1074).

(** Rounding of the exact result [q] to the nearest binary64 number, a tie
    going to the even significand; a result of magnitude [2^1024] or more
    overflows to an infinity.  The sign of a zero is not represented. *)
Definition round (q : Q) : number :=
  if Qeq_bool q 0 then Finite 0
  else
    let e := ulp_exponent q in
    let r := inject_Z (nearest_even (q / 2 ^ e)) * 2 ^ e in
    if Qle_bool (2 ^ 1024) (Qabs r) then infinity_of (q ?= 0)
    else Finite (Qred r).

(** The unit roundoff: half the distance between 1 and the next number. *)
Definition epsilon : Q := 2 ^ (-53).

(** Rounding of a number; the special values are kept. *)
Definition rounded (a : number) : number :=
  match a with
  | Finite q => round q
  | _ => a
  end.

(** [a * b] as the program computes it. *)
Definition mul (a b : number) : number := rounded (JS.mul a b).

(** [a / b] as the program computes it. *)
Definition div (a b : number) : number := rounded (JS.div a b).

(** [Number(s)] and [+s]: the binary64 number nearest to the literal. *)
Definition ToNumber (s : string) : number := rounded (ToNumber s).

(** [Number.parseFloat(s)] *)
Definition parseFloat (s : string) : number := rounded (parseFloat s).

(** Lines 255-317 on binary64. *)
Definition sizeCounterOrder := sizeCounterOrderWith mul div.

(** Lines 282-286. *)
Definition lotSizeOf (f : LotSizeFilter.t) : LotSize :=
  {| maxQty := ToNumber (LotSizeFilter.maxOrderQty f);
     minQty := ToNumber (LotSizeFilter.minOrderQty f);
     step := ToNumber (LotSizeFilter.qtyStep f);
     maxMarketQty := ToNumber (LotSizeFilter.maxMktOrderQty f);
     minNotional := ToNumber (LotSizeFilter.minNotionalValue f) |}.

End Binary64.

(** A positive value of ordinary magnitude, between [2^-255] and [2^255]
    (about [1.7e-77] and [5.8e76]): a product or quotient of a few such
    values neither overflows nor falls into the subnormal range. *)
Definition moderate (x : Q) : Prop := 2 ^ (-255) <= x /\ x <= 2 ^ 255.

(** The binary64 numbers nearest to 0.1, to 0.000001 and to 0.00000011. *)
Definition tenth : Q := 3602879701896397 # 36028797018963968.
Definition millionth : Q := 4722366482869645 # 4722366482869645213696.
Definition price_11e_8 : Q := 519460313115661 # 4722366482869645213696.

(** * Properties *)

(** Scenario 1 of the specification: equities 10000 and 1000, notional 500,
    price 100, step 0.1, bounds 0.1 and 100. *)
Example sizing_scenario_1 :
  finalCounterQty
    (sizeCounterOrder (Finite 500) (Finite 10000) (Finite 1000) (Finite 100)
       "Limit" (lotSize 100 (1 # 10) (1 # 10) 100 5))
  = Finite (1 # 2).
Proof. reflexivity. Qed.

(** ** Arithmetic of finite numbers *)

Lemma lt_Finite (x y : Q) : lt (Finite x) (Finite y) = true <-> x < y.
Proof.
  simpl. destruct (Qcompare_spec x y) as [H|H|H]; split; intro K;
    first [reflexivity | discriminate | lra].
Qed.

Lemma lt_Finite_false (x y : Q) : lt (Finite x) (Finite y) = false <-> y <= x.
Proof.
  simpl. destruct (Qcompare_spec x y) as [H|H|H]; split; intro K;
    first [reflexivity | discriminate | lra].
Qed.

Lemma min_Finite (x y : Q) :
  (Math.min (Finite x) (Finite y) = Finite y /\ y < x)
  \/ (Math.min (Finite x) (Finite y) = Finite x /\ x <= y).
Proof.
  unfold Math.min. destruct (lt (Finite y) (Finite x)) eqn:E.
  - left. split; [reflexivity | now apply lt_Finite].
  - right. split; [reflexivity | now apply lt_Finite_false].
Qed.

Lemma max_Finite (x y : Q) :
  (Math.max (Finite x) (Finite y) = Finite y /\ x < y)
  \/ (Math.max (Finite x) (Finite y) = Finite x /\ y <= x).
Proof.
  unfold Math.max. destruct (lt (Finite x) (Finite y)) eqn:E.
  - left. split; [reflexivity | now apply lt_Finite].
  - right. split; [reflexivity | now apply lt_Finite_false].
Qed.

Lemma div_Finite (x y : Q) :
  ~ y == 0 -> div (Finite x) (Finite y) = Finite (Qred (x / y)).
Proof.
  intro H. unfold div. destruct (Qeq_bool y 0) eqn:E; [|reflexivity].
  apply Qeq_bool_eq in E. contradiction.
Qed.

Lemma mul_Finite (x y : Q) : mul (Finite x) (Finite y) = Finite (Qred (x * y)).
Proof. reflexivity. Qed.

Lemma clamp_spec (mi ma x : Q) :
  mi <= ma ->
  exists b,
    Math.max (Finite mi) (Math.min (Finite ma) (Finite x)) = Finite b
    /\ mi <= b <= ma
    /\ (b == x \/ (b == mi /\ x <= mi) \/ (b == ma /\ ma <= x)).
Proof.
  intro H.
  destruct (min_Finite ma x) as [[-> Hx]|[-> Hx]].
  - destruct (max_Finite mi x) as [[-> Hy]|[-> Hy]].
    + exists x. split; [reflexivity|]. split; [lra|]. left. reflexivity.
    + exists mi. split; [reflexivity|]. split; [lra|]. right; left. lra.
  - destruct (max_Finite mi ma) as [[-> Hy]|[-> Hy]].
    + exists ma. split; [reflexivity|]. split; [lra|]. right; right. lra.
    + exists mi. split; [reflexivity|]. split; [lra|]. right; right. lra.
Qed.

Lemma market_cap_spec (orderType : string) (b mk : Q) :
  exists m,
    (if String.eqb orderType "Market"
     then Math.min (Finite b) (Finite mk) else Finite b) = Finite m
    /\ (m == b \/ (m == mk /\ mk <= b /\ orderType = "Market"%string)).
Proof.
  destruct (String.eqb_spec orderType "Market") as [E|E].
  - destruct (min_Finite b mk) as [[-> Hx]|[-> Hx]].
    + exists mk. split; [reflexivity|]. right.
      split; [reflexivity|]. split; [lra | exact E].
    + exists b. split; [reflexivity|]. left. reflexivity.
  - exists b. split; [reflexivity|]. left. reflexivity.
Qed.

Ltac qcompare :=
  repeat match goal with
         | H : context [?u ?= ?v] |- _ => destruct (Qcompare_spec u v)
         | |- context [?u ?= ?v] => destruct (Qcompare_spec u v)
         end.

Lemma capped_clamp (a b c x : number) :
  le a c = true -> le c b = true ->
  lt c (Math.max a (Math.min b (Math.min x c))) = false
  /\ (isNaN (Math.max a (Math.min b (Math.min x c))) = false ->
      le (Math.max a (Math.min b (Math.min x c))) c = true).
Proof.
  destruct a as [| | |a], b as [| | |b], c as [| | |c], x as [| | |x];
    unfold Math.max, Math.min, lt, le, isNaN; intros H1 H2;
    try discriminate; qcompare;
    solve [ split; [reflexivity | intros _; reflexivity]
          | split; [reflexivity | intro; discriminate]
          | discriminate
          | exfalso; lra ].
Qed.

(** ** The quantity sizer *)

(** C10.  The market-order cap is applied before the minimum-notional repair
    only.  For a Market order under the constraints invariant, when the repair
    does not fire the final quantity never exceeds [maxMktOrderQty] (and is at
    most [maxMktOrderQty] whenever it is a number); but there is a Market
    order for which the repair fires and the final quantity, clamped only
    into [minOrderQty, maxOrderQty], exceeds [maxMktOrderQty]. *)
Theorem market_cap_applied_before_repair :
  (forall (tradeValue tradingEquity counterEquity price : number) (l : LotSize),
      lt (Finite 0) (minQty l) = true ->
      le (minQty l) (maxMarketQty l) = true ->
      le (maxMarketQty l) (maxQty l) = true ->
      lt (Finite 0) (step l) = true ->
      lt (notionalValue
            (sizeCounterOrder tradeValue tradingEquity counterEquity price
               "Market" l))
         (minNotional l) = false ->
      lt (maxMarketQty l)
         (finalCounterQty
            (sizeCounterOrder tradeValue tradingEquity counterEquity price
               "Market" l)) = false
      /\ (isNaN (finalCounterQty
                   (sizeCounterOrder tradeValue tradingEquity counterEquity price
                      "Market" l)) = false ->
          le (finalCounterQty
                (sizeCounterOrder tradeValue tradingEquity counterEquity price
                   "Market" l))
             (maxMarketQty l) = true))
  /\ (exists (tradeValue tradingEquity counterEquity price : Q)
             (maxq minq stp maxmkt minnot : Q),
         0 < minq /\ minq <= maxmkt /\ maxmkt <= maxq /\ 0 < stp
         /\ 0 < tradingEquity /\ 0 < counterEquity /\ 0 < price
         /\ lt (notionalValue
                  (sizeCounterOrder (Finite tradeValue) (Finite tradingEquity)
                     (Finite counterEquity) (Finite price) "Market"
                     (lotSize maxq minq stp maxmkt minnot)))
               (Finite minnot) = true
         /\ lt (Finite maxmkt)
               (finalCounterQty
                  (sizeCounterOrder (Finite tradeValue) (Finite tradingEquity)
                     (Finite counterEquity) (Finite price) "Market"
                     (lotSize maxq minq stp maxmkt minnot))) = true).
Proof.
  split.
  - intros tradeValue tradingEquity counterEquity price l _ H1 H2 _ H.
    unfold sizeCounterOrder in *.
    cbn [finalCounterQty notionalValue] in *.
    change (String.eqb "Market" "Market") with true in *. cbv iota in *.
    rewrite H. apply capped_clamp; assumption.
  - exists 0, 1, 1, 10, 100, 1, 1, 2, 50.
    repeat (split; [lra|]). split; reflexivity.
Qed.

Lemma market_cap_applied_before_repair_witness :
  lt (maxMarketQty (lotSize 100 1 1 2 5))
     (finalCounterQty
        (sizeCounterOrder (Finite 500) (Finite 100) (Finite 100) (Finite 10)
           "Market" (lotSize 100 1 1 2 5))) = false.
Proof.
  apply (proj1 market_cap_applied_before_repair (Finite 500) (Finite 100)
           (Finite 100) (Finite 10) (lotSize 100 1 1 2 5));
    reflexivity.
Defined.

(** ** The event classifier *)

Lemma prefix_app (p s : string) :
  String.prefix p s = true <-> exists rest, s = (p ++ rest)%string.
Proof.
  revert s. induction p as [|c p IH]; intro s.
  - split; [intros _; exists s; reflexivity | intros _; destruct s; reflexivity].
  - destruct s as [|c' s]; simpl.
    + split; [discriminate | intros [rest H]; discriminate].
    + destruct (Ascii.ascii_dec c c') as [->|N].
      * rewrite IH. split; intros [rest H]; exists rest; congruence.
      * split; [discriminate | intros [rest H]; congruence].
Qed.

Lemma includes_In (l : list string) (s : string) :
  includes l s = true <-> In s l.
Proof.
  unfold includes. rewrite existsb_exists. split.
  - intros (x & Hx & E). apply String.eqb_eq in E. now subst.
  - intro H. exists s. split; [exact H | apply String.eqb_refl].
Qed.

(** C2.  [respondToOrder] accepts an order exactly when its status is one of
    New, Filled, PartiallyFilled, Created, its creation type is CreateByUser
    and its link identifier does not begin with [counter_]; two orders that
    agree on these three fields get the same answer. *)
Theorem respondToOrder_spec (orderData : Order.t) :
  (respondToOrder orderData = true <->
   In (Order.orderStatus orderData)
      ["New"; "Filled"; "PartiallyFilled"; "Created"]%string
   /\ Order.createType orderData = "CreateByUser"%string
   /\ ~ exists rest,
         Order.orderLinkId orderData = ("counter_" ++ rest)%string)
  /\ forall other : Order.t,
      Order.orderStatus other = Order.orderStatus orderData ->
      Order.createType other = Order.createType orderData ->
      Order.orderLinkId other = Order.orderLinkId orderData ->
      respondToOrder other = respondToOrder orderData.
Proof.
  split.
  - unfold respondToOrder.
    rewrite !andb_true_iff, negb_true_iff, includes_In, String.eqb_eq.
    rewrite <- prefix_app, not_true_iff_false.
    unfold OrderStatusToRespondTo. tauto.
  - intros other H1 H2 H3. unfold respondToOrder. now rewrite H1, H2, H3.
Qed.

(** Scenario 3 of the specification: a link identifier [counter_abc123] is
    refused whatever the status. *)
Example respondToOrder_scenario_3 (orderData : Order.t) :
  Order.orderLinkId orderData = "counter_abc123"%string ->
  respondToOrder orderData = false.
Proof.
  intro H. unfold respondToOrder. rewrite H. simpl. apply andb_false_r.
Qed.

(** ** The order transformer *)

(** C4.  The counter order has the opposite side (Buy for Sell, Sell for
    Buy), the order type, time in force and position index of the original,
    the original price when the type is Limit and none otherwise, both
    [reduceOnly] and [closeOnTrigger] false, the sized quantity, and the
    link identifier [counter_] followed by the original order identifier. *)
Theorem counterOrder_fields (orderData : Order.t) (counterQtyString : string) :
  (Order.side orderData = "Buy"%string ->
   Params.side (counterOrder orderData counterQtyString) = "Sell"%string)
  /\ (Order.side orderData = "Sell"%string ->
      Params.side (counterOrder orderData counterQtyString) = "Buy"%string)
  /\ Params.orderType (counterOrder orderData counterQtyString)
     = Order.orderType orderData
  /\ Params.timeInForce (counterOrder orderData counterQtyString)
     = Order.timeInForce orderData
  /\ Params.positionIdx (counterOrder orderData counterQtyString)
     = Order.positionIdx orderData
  /\ (Order.orderType orderData = "Limit"%string ->
      Params.price (counterOrder orderData counterQtyString)
      = Some (Order.price orderData))
  /\ (Order.orderType orderData <> "Limit"%string ->
      Params.price (counterOrder orderData counterQtyString) = None)
  /\ Params.reduceOnly (counterOrder orderData counterQtyString) = false
  /\ Params.closeOnTrigger (counterOrder orderData counterQtyString) = false
  /\ Params.qty (counterOrder orderData counterQtyString) = counterQtyString
  /\ Params.orderLinkId (counterOrder orderData counterQtyString)
     = ("counter_" ++ Order.orderId orderData)%string.
Proof.
  unfold counterOrder, counterSide; cbn [Params.side Params.orderType
    Params.timeInForce Params.positionIdx Params.price Params.reduceOnly
    Params.closeOnTrigger Params.qty Params.orderLinkId].
  repeat split.
  - intros ->. reflexivity.
  - intros ->. reflexivity.
  - intros ->. reflexivity.
  - intro N. apply String.eqb_neq in N. now rewrite N.
Qed.

(** C8.  For an order whose side is Buy or Sell the counter order has the
    opposite side, Sell for Buy and Buy for Sell, so that it differs from the
    original side, and inverting it again gives back the original side; the
    take-profit of the counter order is the original stop-loss and its
    stop-loss the original take-profit. *)
Theorem counterOrder_round_trip (orderData : Order.t) (counterQtyString : string) :
  Order.side orderData = "Buy"%string \/ Order.side orderData = "Sell"%string ->
  (Order.side orderData = "Buy"%string ->
   Params.side (counterOrder orderData counterQtyString) = "Sell"%string)
  /\ (Order.side orderData = "Sell"%string ->
      Params.side (counterOrder orderData counterQtyString) = "Buy"%string)
  /\ Params.side (counterOrder orderData counterQtyString)
     <> Order.side orderData
  /\ counterSide (Params.side (counterOrder orderData counterQtyString))
     = Order.side orderData
  /\ Params.takeProfit (counterOrder orderData counterQtyString)
     = Order.stopLoss orderData
  /\ Params.stopLoss (counterOrder orderData counterQtyString)
     = Order.takeProfit orderData.
Proof.
  intro H. unfold counterOrder; cbn [Params.side Params.takeProfit Params.stopLoss].
  destruct H as [E | E]; rewrite E; cbn;
    repeat split; try reflexivity; try discriminate.
Qed.

(** ** The decimal logarithm *)






(** ** Fixed notation *)

Lemma length_app (s t : string) :
  String.length (s ++ t) = (String.length s + String.length t)%nat.
Proof. induction s as [|c s IH]; simpl; [reflexivity | now rewrite IH]. Qed.















(** *** Reading back what [decimal] writes *)

Local Open Scope Z_scope.




Local Close Scope Z_scope.




(** ** Serialisation of the quantity *)




(** ** Control flow *)

Lemma bind_Normal {A B : Type} (t : list effect) (a : A) (k : A -> M B) :
  bind (t, Normal a) k = (t ++ fst (k a), snd (k a)).
Proof. unfold bind. destruct (k a). reflexivity. Qed.

Lemma sendTelegramMessage_completes (w : World) (message : string) :
  exists t, sendTelegramMessage w message = (t, Normal tt).
Proof.
  unfold sendTelegramMessage, await, try_catch, log, emit.
  destruct (TELEGRAM_ENABLED w); [|eexists; reflexivity].
  destruct (sendMessage w message) as [[]|e]; eexists; reflexivity.
Qed.

Lemma getBalanceOfCoin_completes (w : World) (c : client) (coin_ account : string) :
  exists t b, getBalanceOfCoin w c coin_ account = (t, Normal b).
Proof.
  unfold getBalanceOfCoin, await.
  destruct (getWalletBalance w c coin_) as [response|e].
  - rewrite bind_Normal.
    destruct (wallet_retCode response =? 0)%Z.
    + destruct (wallet_list response) as [|balance rest].
      * do 2 eexists. reflexivity.
      * destruct (find _ (coins balance)); do 2 eexists; reflexivity.
    + do 2 eexists. reflexivity.
  - do 2 eexists. reflexivity.
Qed.

Lemma getSymbolInfo_rethrows (w : World) (symbol : string) (e : exn) :
  getInstrumentsInfo w symbol = Rejected e ->
  getSymbolInfo w symbol
  = ([GetInstrumentsInfo symbol;
      Log error ("Error fetching symbol info for " ++ symbol ++ ":")],
     Throw e).
Proof. intro H. unfold getSymbolInfo, await. rewrite H. reflexivity. Qed.

Lemma submitCounterOrder_insufficient_balance
    (w : World) (counterOrder : Params.t) (response : SubmitResponse) :
  submitOrder w counterOrder = Resolved response ->
  retCode response = 110007%Z ->
  submitCounterOrder w counterOrder
  = (placing w counterOrder
     ++ [SubmitOrder counterOrder;
         Log warn "Insufficent balance in countertrade account for order"],
     Normal tt).
Proof.
  intros H E. unfold submitCounterOrder, placing, log, emit.
  rewrite bind_Normal. cbn [fst snd].
  destruct (sendTelegramMessage_completes w (counterOrderMessage counterOrder))
    as [t ->].
  rewrite bind_Normal. cbn [fst snd].
  unfold await. rewrite H, bind_Normal, E. reflexivity.
Qed.

Lemma submitCounterOrder_exception
    (w : World) (counterOrder : Params.t) (e : exn) :
  submitOrder w counterOrder = Rejected e ->
  submitCounterOrder w counterOrder
  = (placing w counterOrder
     ++ [SubmitOrder counterOrder; Log error "Error placing counter order:"]
     ++ fst (sendTelegramMessage w
               ("Error placing order: " ++ Params.symbol counterOrder ++ " "
                ++ Params.side counterOrder)),
     Normal tt).
Proof.
  intros H. unfold submitCounterOrder, placing, log, emit.
  rewrite bind_Normal. cbn [fst snd].
  destruct (sendTelegramMessage_completes w (counterOrderMessage counterOrder))
    as [t ->].
  rewrite bind_Normal. cbn [fst snd].
  unfold await. rewrite H.
  destruct (sendTelegramMessage_completes w
              ("Error placing order: " ++ Params.symbol counterOrder ++ " "
               ++ Params.side counterOrder)) as [t' ->].
  reflexivity.
Qed.

Lemma submitCounterOrder_completes (w : World) (counterOrder : Params.t) :
  exists t,
    submitCounterOrder w counterOrder
    = (placing w counterOrder ++ SubmitOrder counterOrder :: t, Normal tt).
Proof.
  destruct (submitOrder w counterOrder) as [response|e] eqn:H.
  - destruct (Z.eqb_spec (retCode response) 110007) as [E|N].
    + rewrite (submitCounterOrder_insufficient_balance w counterOrder response H E).
      eexists. reflexivity.
    + unfold submitCounterOrder, placing, log, emit.
      rewrite bind_Normal. cbn [fst snd].
      destruct (sendTelegramMessage_completes w (counterOrderMessage counterOrder))
        as [t ->].
      rewrite bind_Normal. cbn [fst snd].
      unfold await. rewrite H, bind_Normal.
      apply Z.eqb_neq in N. rewrite N.
      destruct (sendTelegramMessage_completes w
                  ("Order placed: " ++ Params.symbol counterOrder ++ " "
                   ++ Params.side counterOrder)) as [t' ->].
      eexists. reflexivity.
  - rewrite (submitCounterOrder_exception w counterOrder e H).
    eexists. reflexivity.
Qed.

Lemma placeCounterOrder_reaches_submission
    (exponential : Q -> string) (w : World) (orderData : Order.t)
    (tradingAccountBalance countertradeAccountBalance : Balance)
    (symbolInfo : InstrumentInfo) (qtyString : string)
    (t1 t2 t3 : list effect) :
  getBalanceOfCoin w tradingRestClient ASSUMING_COIN "trading"
  = (t1, Normal (Some tradingAccountBalance)) ->
  getBalanceOfCoin w counterRestClient ASSUMING_COIN "counter"
  = (t2, Normal (Some countertradeAccountBalance)) ->
  getSymbolInfo w (Order.symbol orderData) = (t3, Normal symbolInfo) ->
  counterQtyString exponential
    (finalCounterQty
       (sizingOf orderData tradingAccountBalance countertradeAccountBalance
          symbolInfo))
    (step (lotSizeOf (lotSizeFilter symbolInfo)))
  = Normal qtyString ->
  placeCounterOrder exponential w orderData
  = (t1 ++ t2 ++ t3
     ++ fst (submitCounterOrder w (counterOrder orderData qtyString)),
     snd (submitCounterOrder w (counterOrder orderData qtyString))).
Proof.
  intros H1 H2 H3 H4. unfold placeCounterOrder.
  rewrite H1, bind_Normal, H2, bind_Normal, H3, bind_Normal, H4.
  unfold lift. rewrite bind_Normal. cbn [fst snd app].
  reflexivity.
Qed.

Lemma onUpdate_continues
    (exponential : Q -> string) (w : World) (orderData : Order.t)
    (rest : list Order.t) (t : list effect) :
  placeCounterOrder exponential w orderData = (t, Normal tt) ->
  exists t',
    onUpdate exponential w (orderData :: rest)
    = (t' ++ fst (onUpdate exponential w rest),
       snd (onUpdate exponential w rest)).
Proof.
  intro H. cbn [onUpdate].
  destruct (respondToOrder orderData).
  - unfold log, emit. rewrite bind_Normal. cbn [fst snd].
    destruct (sendTelegramMessage_completes w (originalOrderMessage orderData))
      as [t0 ->].
    rewrite bind_Normal, H. cbn [fst snd]. rewrite bind_Normal.
    eexists. reflexivity.
  - unfold ret. rewrite bind_Normal. exists []. reflexivity.
Qed.

(** A failed instrument look-up ends the handler: the orders after the
    failing one are not looked at, whatever they are. *)
Lemma symbol_info_failure_skips_rest
    (exponential : Q -> string) (w : World) (orderData : Order.t)
    (rest : list Order.t)
    (tradingAccountBalance countertradeAccountBalance : Balance)
    (t1 t2 : list effect) (e : exn) :
  respondToOrder orderData = true ->
  getBalanceOfCoin w tradingRestClient ASSUMING_COIN "trading"
  = (t1, Normal (Some tradingAccountBalance)) ->
  getBalanceOfCoin w counterRestClient ASSUMING_COIN "counter"
  = (t2, Normal (Some countertradeAccountBalance)) ->
  getInstrumentsInfo w (Order.symbol orderData) = Rejected e ->
  exists t, onUpdate exponential w (orderData :: rest) = (t, Throw e).
Proof.
  intros Hr H1 H2 H3. cbn [onUpdate]. rewrite Hr.
  unfold log, emit. rewrite bind_Normal. cbn [fst snd].
  destruct (sendTelegramMessage_completes w (originalOrderMessage orderData))
    as [t0 ->].
  rewrite bind_Normal. unfold placeCounterOrder.
  rewrite H1, bind_Normal, H2, bind_Normal.
  rewrite (getSymbolInfo_rethrows w _ e H3).
  cbn [fst snd bind]. eexists. reflexivity.
Qed.

(** A failed balance look-up, by contrast, ends the current order only. *)
Lemma balance_failure_aborts_current_order_only
    (exponential : Q -> string) (w : World) (orderData : Order.t)
    (rest : list Order.t) (t1 : list effect) :
  getBalanceOfCoin w tradingRestClient ASSUMING_COIN "trading"
  = (t1, Normal None) ->
  placeCounterOrder exponential w orderData
  = (t1 ++ [Log error "Error fetching trading account balance"], Normal tt)
  /\ exists t',
      onUpdate exponential w (orderData :: rest)
      = (t' ++ fst (onUpdate exponential w rest),
         snd (onUpdate exponential w rest)).
Proof.
  intro H.
  assert (P : placeCounterOrder exponential w orderData
              = (t1 ++ [Log error "Error fetching trading account balance"],
                 Normal tt)).
  { unfold placeCounterOrder. rewrite H, bind_Normal. reflexivity. }
  split; [exact P|]. apply onUpdate_continues with (1 := P).
Qed.

Lemma checkFetchBalances_exits (w : World) :
  exists t, checkFetchBalances w = (t, Exit 0).
Proof.
  unfold checkFetchBalances, emit, exit.
  destruct (getBalanceOfCoin_completes w tradingRestClient ASSUMING_COIN "trading")
    as (t1 & b1 & ->).
  destruct (getBalanceOfCoin_completes w counterRestClient ASSUMING_COIN "counter")
    as (t2 & b2 & ->).
  rewrite bind_Normal. cbn [fst snd bind]. eexists. reflexivity.
Qed.

Lemma div_by_zero_not_finite (x : number) : isFinite (div x (Finite 0)) = false.
Proof.
  destruct x as [| | |q]; try reflexivity.
  unfold div. change (Qeq_bool 0 0) with true. cbv iota.
  destruct (q ?= 0); reflexivity.
Qed.

(** ** The mirror orchestrator *)

(** C6.  Whatever the submission does, [submitCounterOrder] completes
    normally.  On the result code 110007 the only effect after the request
    is the warning; on an exception the error is logged (and notified) and
    nothing is thrown.  Hence, once the balances and the instrument are
    fetched and the quantity is serialised, [placeCounterOrder] completes
    normally whatever the submission outcome, and the [update] handler goes
    on with the remaining orders of the message. *)
Theorem submission_outcomes_are_contained
    (exponential : Q -> string) (w : World) (order : Params.t) :
  (forall response : SubmitResponse,
      submitOrder w order = Resolved response ->
      retCode response = 110007%Z ->
      submitCounterOrder w order
      = (placing w order
         ++ [SubmitOrder order;
             Log warn "Insufficent balance in countertrade account for order"],
         Normal tt))
  /\ (forall e : exn,
         submitOrder w order = Rejected e ->
         submitCounterOrder w order
         = (placing w order
            ++ [SubmitOrder order; Log error "Error placing counter order:"]
            ++ fst (sendTelegramMessage w
                      ("Error placing order: " ++ Params.symbol order ++ " "
                       ++ Params.side order)),
            Normal tt))
  /\ (forall (orderData : Order.t)
             (tradingAccountBalance countertradeAccountBalance : Balance)
             (symbolInfo : InstrumentInfo) (qtyString : string)
             (t1 t2 t3 : list effect) (rest : list Order.t),
         getBalanceOfCoin w tradingRestClient ASSUMING_COIN "trading"
         = (t1, Normal (Some tradingAccountBalance)) ->
         getBalanceOfCoin w counterRestClient ASSUMING_COIN "counter"
         = (t2, Normal (Some countertradeAccountBalance)) ->
         getSymbolInfo w (Order.symbol orderData) = (t3, Normal symbolInfo) ->
         counterQtyString exponential
           (finalCounterQty
              (sizingOf orderData tradingAccountBalance countertradeAccountBalance
                 symbolInfo))
           (step (lotSizeOf (lotSizeFilter symbolInfo)))
         = Normal qtyString ->
         order = counterOrder orderData qtyString ->
         (exists t,
             placeCounterOrder exponential w orderData
             = (t1 ++ t2 ++ t3 ++ placing w order ++ SubmitOrder order :: t,
                Normal tt))
         /\ exists t',
             onUpdate exponential w (orderData :: rest)
             = (t' ++ fst (onUpdate exponential w rest),
                snd (onUpdate exponential w rest))).
Proof.
  split; [|split].
  - intros response H E.
    exact (submitCounterOrder_insufficient_balance w order response H E).
  - intros e H. exact (submitCounterOrder_exception w order e H).
  - intros orderData tb cb symbolInfo qtyString t1 t2 t3 rest H1 H2 H3 H4 ->.
    pose proof (placeCounterOrder_reaches_submission exponential w orderData
                  tb cb symbolInfo qtyString t1 t2 t3 H1 H2 H3 H4) as P.
    destruct (submitCounterOrder_completes w (counterOrder orderData qtyString))
      as [t Ht].
    rewrite Ht in P. cbn [fst snd] in P.
    split.
    + exists t. rewrite P. reflexivity.
    + apply onUpdate_continues with (1 := P).
Qed.

Lemma submission_outcomes_are_contained_witness :
  submitCounterOrder
    (sample_world sample_filter "10000" "1000"
       (Resolved {| retCode := 110007; retMsg := "ab not enough for new order" |}))
    (counterOrder (sample_order "a1" "BTCUSDT" "500") "0.5")
  = ([Log info "Placing counter order:";
      SubmitOrder (counterOrder (sample_order "a1" "BTCUSDT" "500") "0.5");
      Log warn "Insufficent balance in countertrade account for order"],
     Normal tt).
Proof.
  apply (proj1 (submission_outcomes_are_contained exponential_unmodelled
                  (sample_world sample_filter "10000" "1000"
                     (Resolved {| retCode := 110007;
                                  retMsg := "ab not enough for new order" |}))
                  (counterOrder (sample_order "a1" "BTCUSDT" "500") "0.5"))
               {| retCode := 110007; retMsg := "ab not enough for new order" |});
    reflexivity.
Defined.

(** Scenario 4 of the specification, on a whole run: the submission returns
    110007, the handler logs the warning and completes normally. *)
Example insufficient_balance_scenario_4 :
  onUpdate exponential_unmodelled
    (sample_world sample_filter "10000" "1000"
       (Resolved {| retCode := 110007; retMsg := "ab not enough for new order" |}))
    [sample_order "a1" "BTCUSDT" "500"]
  = ([Log info "New original order detected:";
      GetWalletBalance tradingRestClient "USDT";
      GetWalletBalance counterRestClient "USDT";
      GetInstrumentsInfo "BTCUSDT";
      Log info "Placing counter order:";
      SubmitOrder (counterOrder (sample_order "a1" "BTCUSDT" "500") "0.5");
      Log warn "Insufficent balance in countertrade account for order"],
     Normal tt).
Proof. vm_compute. reflexivity. Qed.

(** C3 (as amended).  A zero divisor is not a failure of the sizing: when
    the equity of the trading account is 0 the margin fraction is [NaN] or
    an infinity, and when the price is 0 the raw quantity is; the remaining
    steps run on that value.  Once both balances and the instrument are
    fetched and the quantity is serialised, the counter order is submitted
    and the processing of the event completes normally. *)
Theorem zero_divisor_is_not_a_failure
    (exponential : Q -> string) (w : World) (orderData : Order.t)
    (tradingAccountBalance countertradeAccountBalance : Balance)
    (symbolInfo : InstrumentInfo) (qtyString : string)
    (t1 t2 t3 : list effect) :
  equity tradingAccountBalance = Finite 0
  \/ ToNumber (Order.price orderData) = Finite 0 ->
  getBalanceOfCoin w tradingRestClient ASSUMING_COIN "trading"
  = (t1, Normal (Some tradingAccountBalance)) ->
  getBalanceOfCoin w counterRestClient ASSUMING_COIN "counter"
  = (t2, Normal (Some countertradeAccountBalance)) ->
  getSymbolInfo w (Order.symbol orderData) = (t3, Normal symbolInfo) ->
  counterQtyString exponential
    (finalCounterQty
       (sizingOf orderData tradingAccountBalance countertradeAccountBalance
          symbolInfo))
    (step (lotSizeOf (lotSizeFilter symbolInfo)))
  = Normal qtyString ->
  (equity tradingAccountBalance = Finite 0 ->
   isFinite
     (marginPercentage
        (sizingOf orderData tradingAccountBalance countertradeAccountBalance
           symbolInfo)) = false)
  /\ (ToNumber (Order.price orderData) = Finite 0 ->
      isFinite
        (initialCounterQty
           (sizingOf orderData tradingAccountBalance countertradeAccountBalance
              symbolInfo)) = false)
  /\ exists t,
      placeCounterOrder exponential w orderData
      = (t1 ++ t2 ++ t3
         ++ placing w (counterOrder orderData qtyString)
         ++ SubmitOrder (counterOrder orderData qtyString) :: t,
         Normal tt).
Proof.
  intros _ H1 H2 H3 H4. split; [|split].
  - intro E. unfold sizingOf, sizeCounterOrder. cbn [marginPercentage].
    rewrite E. apply div_by_zero_not_finite.
  - intro E. unfold sizingOf, sizeCounterOrder. cbn [initialCounterQty].
    rewrite E. apply div_by_zero_not_finite.
  - pose proof (placeCounterOrder_reaches_submission exponential w orderData
                  tradingAccountBalance countertradeAccountBalance symbolInfo
                  qtyString t1 t2 t3 H1 H2 H3 H4) as P.
    destruct (submitCounterOrder_completes w (counterOrder orderData qtyString))
      as [t Ht].
    rewrite Ht in P. cbn [fst snd] in P. exists t. exact P.
Qed.

Lemma zero_divisor_is_not_a_failure_witness :
  exists t,
    placeCounterOrder exponential_unmodelled
      (sample_world sample_filter "0" "1000" accepted)
      (sample_order "a1" "BTCUSDT" "0")
    = ([GetWalletBalance tradingRestClient "USDT"]
       ++ [GetWalletBalance counterRestClient "USDT"]
       ++ [GetInstrumentsInfo "BTCUSDT"]
       ++ placing (sample_world sample_filter "0" "1000" accepted)
            (counterOrder (sample_order "a1" "BTCUSDT" "0") "NaN")
       ++ SubmitOrder (counterOrder (sample_order "a1" "BTCUSDT" "0") "NaN") :: t,
       Normal tt).
Proof.
  apply (proj2 (proj2
    (zero_divisor_is_not_a_failure exponential_unmodelled
       (sample_world sample_filter "0" "1000" accepted)
       (sample_order "a1" "BTCUSDT" "0")
       (balance_of 0) (balance_of 1000) {| lotSizeFilter := sample_filter |}
       "NaN"
       [GetWalletBalance tradingRestClient "USDT"]
       [GetWalletBalance counterRestClient "USDT"]
       [GetInstrumentsInfo "BTCUSDT"]
       (or_introl eq_refl) eq_refl eq_refl eq_refl eq_refl))).
Defined.

(** C3 as stated fails: with an equity of 0 in the trading account and an
    executed value of 500 the margin fraction is silently [Infinity], the
    sizing ends on the upper bound 100, and the orchestrator submits the
    order with quantity "100.0" instead of aborting the event. *)
Lemma zero_equity_order_is_submitted :
  getBalanceOfCoin (sample_world sample_filter "0" "1000" accepted)
    tradingRestClient ASSUMING_COIN "trading"
  = ([GetWalletBalance tradingRestClient "USDT"], Normal (Some (balance_of 0)))
  /\ marginPercentage
       (sizingOf (sample_order "a1" "BTCUSDT" "500") (balance_of 0)
          (balance_of 1000) {| lotSizeFilter := sample_filter |})
     = Infinity
  /\ finalCounterQty
       (sizingOf (sample_order "a1" "BTCUSDT" "500") (balance_of 0)
          (balance_of 1000) {| lotSizeFilter := sample_filter |})
     = Finite 100
  /\ placeCounterOrder exponential_unmodelled
       (sample_world sample_filter "0" "1000" accepted)
       (sample_order "a1" "BTCUSDT" "500")
     = ([GetWalletBalance tradingRestClient "USDT";
         GetWalletBalance counterRestClient "USDT";
         GetInstrumentsInfo "BTCUSDT";
         Log info "Placing counter order:";
         SubmitOrder (counterOrder (sample_order "a1" "BTCUSDT" "500") "100.0");
         Log info "Countertrade result code";
         Log info "Countertrade result message";
         Log info "Counter order placed:"],
        Normal tt).
Proof. repeat split; vm_compute; reflexivity. Qed.

(** With an executed value of 0 as well the margin fraction is [NaN] and the
    order goes out with the quantity "NaN". *)
Example zero_equity_zero_value_quantity_is_NaN :
  marginPercentage
    (sizingOf (sample_order "a1" "BTCUSDT" "0") (balance_of 0)
       (balance_of 1000) {| lotSizeFilter := sample_filter |})
  = NaN
  /\ counterQtyString exponential_unmodelled
       (finalCounterQty
          (sizingOf (sample_order "a1" "BTCUSDT" "0") (balance_of 0)
             (balance_of 1000) {| lotSizeFilter := sample_filter |}))
       (step (lotSizeOf sample_filter))
     = Normal "NaN"%string.
Proof. split; vm_compute; reflexivity. Qed.

(** C7, on the failing input: a message with two qualifying orders, the
    instrument look-up failing for the first.  [getSymbolInfo] logs the
    failure and throws it again, nothing catches it, and the handler ends
    with that exception before the second order, which would have been
    mirrored, is looked at. *)
Theorem symbol_info_failure_escapes_handler :
  respondToOrder (sample_order "a1" "ETHUSDT" "500") = true
  /\ respondToOrder (sample_order "a2" "BTCUSDT" "500") = true
  /\ onUpdate exponential_unmodelled
       (sample_world sample_filter "10000" "1000" accepted)
       [sample_order "a1" "ETHUSDT" "500"; sample_order "a2" "BTCUSDT" "500"]
     = ([Log info "New original order detected:";
         GetWalletBalance tradingRestClient "USDT";
         GetWalletBalance counterRestClient "USDT";
         GetInstrumentsInfo "ETHUSDT";
         Log error "Error fetching symbol info for ETHUSDT:"],
        Throw (Error "Request failed"))
  /\ onUpdate exponential_unmodelled
       (sample_world sample_filter "10000" "1000" accepted)
       [sample_order "a2" "BTCUSDT" "500"]
     = ([Log info "New original order detected:";
         GetWalletBalance tradingRestClient "USDT";
         GetWalletBalance counterRestClient "USDT";
         GetInstrumentsInfo "BTCUSDT";
         Log info "Placing counter order:";
         SubmitOrder (counterOrder (sample_order "a2" "BTCUSDT" "500") "0.5");
         Log info "Countertrade result code";
         Log info "Countertrade result message";
         Log info "Counter order placed:"],
        Normal tt).
Proof. repeat split; vm_compute; reflexivity. Qed.

(** The same escape for a failure of the serialisation: with a step of 10
    [toFixed] throws and [placeCounterOrder] ends with the [RangeError]. *)
Example serialisation_failure_escapes :
  placeCounterOrder exponential_unmodelled
    (sample_world
       {| LotSizeFilter.maxOrderQty := "1000";
          LotSizeFilter.minOrderQty := "10";
          LotSizeFilter.qtyStep := "10";
          LotSizeFilter.maxMktOrderQty := "500";
          LotSizeFilter.minNotionalValue := "5" |}
       "10000" "1000" accepted)
    (sample_order "a1" "BTCUSDT" "500")
  = ([GetWalletBalance tradingRestClient "USDT";
      GetWalletBalance counterRestClient "USDT";
      GetInstrumentsInfo "BTCUSDT"],
     Throw RangeError).
Proof. vm_compute. reflexivity. Qed.

(** ** Instances on the sample data *)

Lemma respondToOrder_spec_witness :
  Order.orderStatus (sample_order "a2" "BTCUSDT" "0")
  = Order.orderStatus (sample_order "a1" "BTCUSDT" "500")
  /\ respondToOrder (sample_order "a2" "BTCUSDT" "0")
     = respondToOrder (sample_order "a1" "BTCUSDT" "500").
Proof.
  split; [reflexivity|].
  apply (proj2 (respondToOrder_spec (sample_order "a1" "BTCUSDT" "500")));
    reflexivity.
Defined.

Lemma counterOrder_fields_witness :
  Order.side (sample_order "a1" "BTCUSDT" "500") = "Buy"%string
  /\ Params.side (counterOrder (sample_order "a1" "BTCUSDT" "500") "0.5")
     = "Sell"%string.
Proof.
  split; [reflexivity|].
  apply (proj1 (counterOrder_fields (sample_order "a1" "BTCUSDT" "500") "0.5")).
  reflexivity.
Defined.

Lemma counterOrder_round_trip_witness :
  (Order.side (sample_order "a1" "BTCUSDT" "500") = "Buy"%string
   \/ Order.side (sample_order "a1" "BTCUSDT" "500") = "Sell"%string)
  /\ Params.side (counterOrder (sample_order "a1" "BTCUSDT" "500") "0.5")
     = "Sell"%string
  /\ Params.side (counterOrder (sample_order "a1" "BTCUSDT" "500") "0.5")
     <> Order.side (sample_order "a1" "BTCUSDT" "500")
  /\ counterSide
       (Params.side (counterOrder (sample_order "a1" "BTCUSDT" "500") "0.5"))
     = "Buy"%string
  /\ Params.takeProfit (counterOrder (sample_order "a1" "BTCUSDT" "500") "0.5")
     = "90"%string
  /\ Params.stopLoss (counterOrder (sample_order "a1" "BTCUSDT" "500") "0.5")
     = "120"%string.
Proof.
  split; [left; reflexivity|].
  destruct (counterOrder_round_trip (sample_order "a1" "BTCUSDT" "500") "0.5")
    as (B & _ & N & R & T & S); [left; reflexivity|].
  split; [apply B; reflexivity|]. split; [exact N|]. split; [exact R|].
  split; [exact T | exact S].
Defined.

(** * Further properties of the program *)

(** ** Shapes of the runs *)

Lemma bind_ret_l {A : Type} (m : M A) : bind (ret tt) (fun _ => m) = m.
Proof. destruct m as [t r]. reflexivity. Qed.

Lemma getBalanceOfCoin_cases (w : World) (c : client) (coin_ account : string) :
  (exists response balance rest foundCoin,
      getWalletBalance w c coin_ = Resolved response
      /\ wallet_retCode response = 0%Z
      /\ wallet_list response = balance :: rest
      /\ find (fun balanceCoin => String.eqb (coin balanceCoin) coin_)
              (coins balance) = Some foundCoin
      /\ getBalanceOfCoin w c coin_ account
         = ([GetWalletBalance c coin_],
            Normal (Some {| walletBalance := ToNumber (coin_walletBalance foundCoin);
                            availableToWithdraw :=
                              ToNumber (coin_availableToWithdraw foundCoin);
                            equity := ToNumber (coin_equity foundCoin) |})))
  \/ (exists message,
         getBalanceOfCoin w c coin_ account
         = ([GetWalletBalance c coin_; Log error message], Normal None)).
Proof.
  unfold getBalanceOfCoin, await.
  destruct (getWalletBalance w c coin_) as [response|e] eqn:H.
  - rewrite bind_Normal.
    destruct (Z.eqb_spec (wallet_retCode response) 0) as [E|N].
    + destruct (wallet_list response) as [|balance rest] eqn:L.
      * right. eexists. reflexivity.
      * destruct (find _ (coins balance)) as [foundCoin|] eqn:F.
        -- left. exists response, balance, rest, foundCoin.
           repeat (split; [assumption || reflexivity|]). reflexivity.
        -- right. eexists. reflexivity.
    + right. eexists. reflexivity.
  - right. eexists. reflexivity.
Qed.

Lemma getSymbolInfo_cases (w : World) (symbol : string) :
  (exists response first rest,
      getInstrumentsInfo w symbol = Resolved response
      /\ instruments_retCode response = 0%Z
      /\ instruments_list response = first :: rest
      /\ getSymbolInfo w symbol = ([GetInstrumentsInfo symbol], Normal first))
  \/ (exists e,
         (getInstrumentsInfo w symbol = Rejected e
          \/ e = Error ("Failed to get symbol info for " ++ symbol))
         /\ getSymbolInfo w symbol
            = ([GetInstrumentsInfo symbol;
                Log error ("Error fetching symbol info for " ++ symbol ++ ":")],
               Throw e)).
Proof.
  unfold getSymbolInfo, await.
  destruct (getInstrumentsInfo w symbol) as [response|e] eqn:H.
  - rewrite bind_Normal.
    destruct (instruments_list response) as [|first rest] eqn:L.
    + right. eexists. split; [right; reflexivity | reflexivity].
    + destruct (Z.eqb_spec (instruments_retCode response) 0) as [E|N].
      * left. exists response, first, rest. repeat split; assumption || reflexivity.
      * right. eexists. split; [right; reflexivity | reflexivity].
  - right. exists e. split; [left; reflexivity | reflexivity].
Qed.

Lemma sendTelegramMessage_cases (w : World) (message : string) :
  (TELEGRAM_ENABLED w = false /\ sendTelegramMessage w message = ([], Normal tt))
  \/ (TELEGRAM_ENABLED w = true /\ sendMessage w message = Resolved tt
      /\ sendTelegramMessage w message = ([SendMessage message], Normal tt))
  \/ (TELEGRAM_ENABLED w = true /\ (exists e, sendMessage w message = Rejected e)
      /\ sendTelegramMessage w message
         = ([SendMessage message; Log error "Error sending Telegram message:"],
            Normal tt)).
Proof.
  unfold sendTelegramMessage, await, try_catch, log, emit.
  destruct (TELEGRAM_ENABLED w); [|left; split; reflexivity].
  destruct (sendMessage w message) as [[]|e] eqn:H.
  - right; left. repeat split; reflexivity.
  - right; right. repeat split; try reflexivity. exists e. reflexivity.
Qed.

Lemma submissions_app (t1 t2 : list effect) :
  submissions (t1 ++ t2) = submissions t1 ++ submissions t2.
Proof. apply flat_map_app. Qed.

Lemma submissions_sendTelegramMessage (w : World) (message : string) :
  submissions (fst (sendTelegramMessage w message)) = [].
Proof.
  destruct (sendTelegramMessage_cases w message)
    as [[_ ->]|[(_ & _ & ->)|(_ & _ & ->)]]; reflexivity.
Qed.

Lemma submissions_getBalanceOfCoin (w : World) (c : client) (coin_ account : string) :
  submissions (fst (getBalanceOfCoin w c coin_ account)) = [].
Proof.
  destruct (getBalanceOfCoin_cases w c coin_ account)
    as [(? & ? & ? & ? & _ & _ & _ & _ & ->)|[? ->]]; reflexivity.
Qed.

Lemma submissions_getSymbolInfo (w : World) (symbol : string) :
  submissions (fst (getSymbolInfo w symbol)) = [].
Proof.
  destruct (getSymbolInfo_cases w symbol)
    as [(? & ? & ? & _ & _ & _ & ->)|(? & _ & ->)]; reflexivity.
Qed.

Lemma submissions_submitCounterOrder (w : World) (order : Params.t) :
  submissions (fst (submitCounterOrder w order)) = [order]
  /\ snd (submitCounterOrder w order) = Normal tt.
Proof.
  destruct (submitOrder w order) as [response|e] eqn:H.
  - destruct (Z.eqb_spec (retCode response) 110007) as [E|N].
    + rewrite (submitCounterOrder_insufficient_balance w order response H E).
      cbn [fst snd]. unfold placing.
      rewrite submissions_app. cbn [submissions flat_map app].
      change (flat_map _ (fst (sendTelegramMessage w (counterOrderMessage order))))
        with (submissions (fst (sendTelegramMessage w (counterOrderMessage order)))).
      rewrite submissions_sendTelegramMessage. split; reflexivity.
    + unfold submitCounterOrder, log, emit.
      rewrite bind_Normal. cbn [fst snd].
      destruct (sendTelegramMessage_completes w (counterOrderMessage order))
        as [t Ht].
      pose proof (submissions_sendTelegramMessage w (counterOrderMessage order)) as St.
      rewrite Ht in *. cbn [fst] in St.
      rewrite bind_Normal. cbn [fst snd].
      unfold await. rewrite H, bind_Normal.
      apply Z.eqb_neq in N. rewrite N.
      destruct (sendTelegramMessage_completes w
                  ("Order placed: " ++ Params.symbol order ++ " "
                   ++ Params.side order)) as [t' Ht'].
      pose proof (submissions_sendTelegramMessage w
                    ("Order placed: " ++ Params.symbol order ++ " "
                     ++ Params.side order)) as St'.
      rewrite Ht' in *. cbn [fst] in St'.
      cbn [fst snd bind try_catch app].
      split; [|reflexivity].
      change (submissions (Log info "Placing counter order:" :: t
                           ++ SubmitOrder order
                              :: Log info "Countertrade result code"
                              :: Log info "Countertrade result message"
                              :: Log info "Counter order placed:" :: t') = [order]).
      change (submissions ([Log info "Placing counter order:"] ++ t
                           ++ [SubmitOrder order;
                               Log info "Countertrade result code";
                               Log info "Countertrade result message";
                               Log info "Counter order placed:"] ++ t') = [order]).
      rewrite !submissions_app, St, St'. reflexivity.
  - rewrite (submitCounterOrder_exception w order e H).
    cbn [fst snd]. unfold placing.
    change (Log info "Placing counter order:"
            :: fst (sendTelegramMessage w (counterOrderMessage order)))
      with ([Log info "Placing counter order:"]
            ++ fst (sendTelegramMessage w (counterOrderMessage order))).
    rewrite !submissions_app, !submissions_sendTelegramMessage.
    split; reflexivity.
Qed.

Lemma toFixed_cases (exponential : Q -> string) (x fractionDigits : number) :
  toFixed exponential x fractionDigits = Throw RangeError
  \/ exists s, toFixed exponential x fractionDigits = Normal s.
Proof.
  unfold toFixed.
  destruct (ToIntegerOrInfinity fractionDigits) as [| | |fq]; try (left; reflexivity).
  destruct ((Qnum fq <? 0)%Z || (100 <? Qnum fq)%Z); [left; reflexivity|].
  right. destruct x as [| | |q]; try (eexists; reflexivity).
  destruct (Qle_bool (10 ^ 21) (Qabs q)); eexists; reflexivity.
Qed.

(** The five ways in which [placeCounterOrder] can run. *)
Lemma placeCounterOrder_outcome
    (exponential : Q -> string) (w : World) (orderData : Order.t) :
  (exists t1,
      getBalanceOfCoin w tradingRestClient ASSUMING_COIN "trading"
      = (t1, Normal None)
      /\ placeCounterOrder exponential w orderData
         = (t1 ++ [Log error "Error fetching trading account balance"], Normal tt))
  \/ (exists t1 t2 tradingAccountBalance,
         getBalanceOfCoin w tradingRestClient ASSUMING_COIN "trading"
         = (t1, Normal (Some tradingAccountBalance))
         /\ getBalanceOfCoin w counterRestClient ASSUMING_COIN "counter"
            = (t2, Normal None)
         /\ placeCounterOrder exponential w orderData
            = (t1 ++ t2 ++ [Log error "Error fetching counter-trading account balance"],
               Normal tt))
  \/ (exists t1 t2 t3 tradingAccountBalance countertradeAccountBalance e,
         getBalanceOfCoin w tradingRestClient ASSUMING_COIN "trading"
         = (t1, Normal (Some tradingAccountBalance))
         /\ getBalanceOfCoin w counterRestClient ASSUMING_COIN "counter"
            = (t2, Normal (Some countertradeAccountBalance))
         /\ getSymbolInfo w (Order.symbol orderData) = (t3, Throw e)
         /\ placeCounterOrder exponential w orderData = (t1 ++ t2 ++ t3, Throw e))
  \/ (exists t1 t2 t3 tradingAccountBalance countertradeAccountBalance symbolInfo,
         getBalanceOfCoin w tradingRestClient ASSUMING_COIN "trading"
         = (t1, Normal (Some tradingAccountBalance))
         /\ getBalanceOfCoin w counterRestClient ASSUMING_COIN "counter"
            = (t2, Normal (Some countertradeAccountBalance))
         /\ getSymbolInfo w (Order.symbol orderData) = (t3, Normal symbolInfo)
         /\ counterQtyString exponential
              (finalCounterQty
                 (sizingOf orderData tradingAccountBalance
                    countertradeAccountBalance symbolInfo))
              (step (lotSizeOf (lotSizeFilter symbolInfo)))
            = Throw RangeError
         /\ placeCounterOrder exponential w orderData
            = (t1 ++ t2 ++ t3, Throw RangeError))
  \/ (exists t1 t2 t3 tradingAccountBalance countertradeAccountBalance symbolInfo
             qtyString,
         getBalanceOfCoin w tradingRestClient ASSUMING_COIN "trading"
         = (t1, Normal (Some tradingAccountBalance))
         /\ getBalanceOfCoin w counterRestClient ASSUMING_COIN "counter"
            = (t2, Normal (Some countertradeAccountBalance))
         /\ getSymbolInfo w (Order.symbol orderData) = (t3, Normal symbolInfo)
         /\ counterQtyString exponential
              (finalCounterQty
                 (sizingOf orderData tradingAccountBalance
                    countertradeAccountBalance symbolInfo))
              (step (lotSizeOf (lotSizeFilter symbolInfo)))
            = Normal qtyString
         /\ placeCounterOrder exponential w orderData
            = (t1 ++ t2 ++ t3
               ++ fst (submitCounterOrder w (counterOrder orderData qtyString)),
               Normal tt)).
Proof.
  destruct (getBalanceOfCoin_completes w tradingRestClient ASSUMING_COIN "trading")
    as (t1 & [tb|] & H1).
  2:{ left. exists t1. split; [exact H1|].
      unfold placeCounterOrder. rewrite H1, bind_Normal. reflexivity. }
  right.
  destruct (getBalanceOfCoin_completes w counterRestClient ASSUMING_COIN "counter")
    as (t2 & [cb|] & H2).
  2:{ left. exists t1, t2, tb. split; [exact H1|]. split; [exact H2|].
      unfold placeCounterOrder. rewrite H1, bind_Normal, H2, bind_Normal.
      reflexivity. }
  right.
  destruct (getSymbolInfo_cases w (Order.symbol orderData))
    as [(response & symbolInfo & rest & _ & _ & _ & H3)|(e & _ & H3)].
  2:{ left. eexists t1, t2, _, tb, cb, e.
      split; [exact H1|]. split; [exact H2|]. split; [exact H3|].
      unfold placeCounterOrder. rewrite H1, bind_Normal, H2, bind_Normal, H3.
      reflexivity. }
  right.
  destruct (toFixed_cases exponential
              (finalCounterQty (sizingOf orderData tb cb symbolInfo))
              (getDecimalPlaces (step (lotSizeOf (lotSizeFilter symbolInfo)))))
    as [H4|[qtyString H4]].
  - left. eexists t1, t2, _, tb, cb, symbolInfo.
    split; [exact H1|]. split; [exact H2|]. split; [exact H3|].
    split; [exact H4|].
    unfold placeCounterOrder.
    rewrite H1, bind_Normal, H2, bind_Normal, H3, bind_Normal.
    unfold counterQtyString, lift. rewrite H4.
    cbn [fst snd bind]. rewrite !app_nil_r. reflexivity.
  - right. eexists t1, t2, _, tb, cb, symbolInfo, qtyString.
    split; [exact H1|]. split; [exact H2|]. split; [exact H3|].
    split; [exact H4|].
    rewrite (placeCounterOrder_reaches_submission exponential w orderData tb cb
               symbolInfo qtyString t1 t2 _ H1 H2 H3 H4).
    f_equal. apply submissions_submitCounterOrder.
Qed.

(** ** The [update] handler *)

Lemma bind_assoc {A B C : Type} (m : M A) (k : A -> M B) (h : B -> M C) :
  bind (bind m k) h = bind m (fun a => bind (k a) h).
Proof.
  destruct m as [t [a|e|c]]; cbn [bind]; try reflexivity.
  destruct (k a) as [t' [b|e|c]]; cbn [bind]; try reflexivity.
  destruct (h b) as [t'' r]. now rewrite app_assoc.
Qed.

Lemma onUpdate_app_bind
    (exponential : Q -> string) (w : World) (a b : list Order.t) :
  onUpdate exponential w (a ++ b)
  = (onUpdate exponential w a ;; onUpdate exponential w b).
Proof.
  induction a as [|orderData a IH].
  - cbn [app onUpdate]. symmetry. apply bind_ret_l.
  - cbn [app onUpdate]. rewrite bind_assoc.
    match goal with |- bind ?m _ = _ => destruct m as [t [[]|e|c]] end;
      cbn [bind]; try reflexivity.
    now rewrite IH.
Qed.

Lemma onUpdate_singleton
    (exponential : Q -> string) (w : World) (orderData : Order.t) :
  onUpdate exponential w [orderData]
  = if respondToOrder orderData
    then (log info "New original order detected:" ;;
          sendTelegramMessage w (originalOrderMessage orderData) ;;
          placeCounterOrder exponential w orderData)
    else ret tt.
Proof.
  cbn [onUpdate].
  match goal with |- bind ?m _ = _ => destruct m as [t [[]|e|c]] end;
    cbn [bind ret]; try reflexivity.
  now rewrite app_nil_r.
Qed.

(** What one qualifying order adds to a run: the detection line, the
    notification, then [placeCounterOrder]. *)
Lemma onUpdate_qualifying
    (exponential : Q -> string) (w : World) (orderData : Order.t) :
  respondToOrder orderData = true ->
  exists pre,
    submissions pre = []
    /\ requests pre = []
    /\ onUpdate exponential w [orderData]
       = (pre ++ fst (placeCounterOrder exponential w orderData),
          snd (placeCounterOrder exponential w orderData)).
Proof.
  intro H. rewrite onUpdate_singleton, H. unfold log, emit.
  rewrite bind_Normal. cbn [fst snd].
  exists (Log info "New original order detected:"
          :: fst (sendTelegramMessage w (originalOrderMessage orderData))).
  destruct (sendTelegramMessage_cases w (originalOrderMessage orderData))
    as [[_ E]|[(_ & _ & E)|(_ & _ & E)]]; rewrite E, bind_Normal;
    (split; [|split]); reflexivity.
Qed.

Lemma placeCounterOrder_submissions
    (exponential : Q -> string) (w : World) (orderData : Order.t) :
  submissions (fst (placeCounterOrder exponential w orderData)) = []
  \/ exists qtyString,
      submissions (fst (placeCounterOrder exponential w orderData))
      = [counterOrder orderData qtyString].
Proof.
  pose proof (submissions_getBalanceOfCoin w tradingRestClient ASSUMING_COIN
                "trading") as S1.
  pose proof (submissions_getBalanceOfCoin w counterRestClient ASSUMING_COIN
                "counter") as S2.
  pose proof (submissions_getSymbolInfo w (Order.symbol orderData)) as S3.
  destruct (placeCounterOrder_outcome exponential w orderData)
    as [(t1 & H1 & ->)
       |[(t1 & t2 & tb & H1 & H2 & ->)
        |[(t1 & t2 & t3 & tb & cb & e & H1 & H2 & H3 & ->)
         |[(t1 & t2 & t3 & tb & cb & info & H1 & H2 & H3 & _ & ->)
          |(t1 & t2 & t3 & tb & cb & info & qs & H1 & H2 & H3 & _ & ->)]]]];
    rewrite ?H1, ?H2, ?H3 in *; cbn [fst] in *;
    rewrite ?submissions_app, ?S1, ?S2, ?S3.
  - left. reflexivity.
  - left. reflexivity.
  - left. reflexivity.
  - left. reflexivity.
  - right. exists qs.
    rewrite (proj1 (submissions_submitCounterOrder w (counterOrder orderData qs))).
    reflexivity.
Qed.

(** X1.  The program never mirrors its own orders: an event whose link
    identifier is the one [placeCounterOrder] gives to a counter order is
    refused by the classifier, and a message made of such events only
    leaves the handler without any effect. *)
Theorem counter_orders_are_not_mirrored
    (exponential : Q -> string) (w : World) (data : list Order.t) :
  (forall event : Order.t,
      In event data ->
      exists (orderData : Order.t) (qtyString : string),
        Order.orderLinkId event
        = Params.orderLinkId (counterOrder orderData qtyString)) ->
  (forall event : Order.t, In event data -> respondToOrder event = false)
  /\ onUpdate exponential w data = ([], Normal tt).
Proof.
  intro H.
  assert (R : forall event, In event data -> respondToOrder event = false).
  { intros event Hin. destruct (H event Hin) as (orderData & qtyString & E).
    unfold respondToOrder. rewrite E.
    cbn [counterOrder Params.orderLinkId].
    replace (String.prefix "counter_" ("counter_" ++ Order.orderId orderData))
      with true; [apply andb_false_r|].
    symmetry. apply prefix_app. eexists. reflexivity. }
  split; [exact R|].
  clear H. induction data as [|event data IH]; [reflexivity|].
  cbn [onUpdate]. rewrite (R event (or_introl eq_refl)).
  rewrite bind_ret_l. apply IH. intros ev Hin. apply R. right. exact Hin.
Qed.

Lemma counter_orders_are_not_mirrored_witness :
  onUpdate exponential_unmodelled
    (sample_world sample_filter "10000" "1000" accepted)
    [ {| Order.orderId := "b7";
         Order.orderLinkId :=
           Params.orderLinkId
             (counterOrder (sample_order "a1" "BTCUSDT" "500") "0.5");
         Order.symbol := "BTCUSDT";
         Order.side := "Sell";
         Order.orderType := "Limit";
         Order.orderStatus := "Filled";
         Order.createType := "CreateByUser";
         Order.qty := "0.5";
         Order.price := "100";
         Order.cumExecValue := "50";
         Order.takeProfit := "90";
         Order.stopLoss := "120";
         Order.timeInForce := "GTC";
         Order.positionIdx := 0 |} ]
  = ([], Normal tt).
Proof.
  apply (counter_orders_are_not_mirrored exponential_unmodelled).
  intros event [<-|[]].
  exists (sample_order "a1" "BTCUSDT" "500"), "0.5"%string. reflexivity.
Defined.

(** X2.  Orders that the classifier refuses are transparent to the handler:
    the run on a message is the run on its qualifying orders. *)
Theorem onUpdate_skips_refused_orders
    (exponential : Q -> string) (w : World) (data : list Order.t) :
  onUpdate exponential w data
  = onUpdate exponential w (filter respondToOrder data).
Proof.
  induction data as [|orderData data IH]; [reflexivity|].
  cbn [filter]. destruct (respondToOrder orderData) eqn:R.
  - cbn [onUpdate]. rewrite R, IH. reflexivity.
  - cbn [onUpdate]. rewrite R, bind_ret_l. exact IH.
Qed.

(** X3.  The handler treats the orders of a message one after the other:
    the run on [a ++ b] is the run on [a] followed by the run on [b] when
    the first completes normally, and is the run on [a] alone when that one
    throws: the orders after a failing one are never looked at. *)
Theorem onUpdate_is_sequential
    (exponential : Q -> string) (w : World) (a b : list Order.t) :
  onUpdate exponential w (a ++ b)
  = (onUpdate exponential w a ;; onUpdate exponential w b)
  /\ (snd (onUpdate exponential w a) = Normal tt ->
      onUpdate exponential w (a ++ b)
      = (fst (onUpdate exponential w a) ++ fst (onUpdate exponential w b),
         snd (onUpdate exponential w b)))
  /\ (forall e,
         snd (onUpdate exponential w a) = Throw e ->
         onUpdate exponential w (a ++ b) = onUpdate exponential w a).
Proof.
  rewrite onUpdate_app_bind. split; [reflexivity|].
  destruct (onUpdate exponential w a) as [t r]. cbn [snd fst]. split.
  - intros ->. exact (bind_Normal t tt (fun _ => onUpdate exponential w b)).
  - intros e ->. reflexivity.
Qed.

(** X4.  The handler submits at most one order per qualifying event, and
    every order it submits is the counter order of a qualifying event of the
    message. *)
Theorem one_submission_per_qualifying_order
    (exponential : Q -> string) (w : World) (data : list Order.t) :
  (List.length (submissions (fst (onUpdate exponential w data)))
   <= List.length (filter respondToOrder data))%nat
  /\ forall order : Params.t,
      In order (submissions (fst (onUpdate exponential w data))) ->
      exists (orderData : Order.t) (qtyString : string),
        In orderData data
        /\ respondToOrder orderData = true
        /\ order = counterOrder orderData qtyString.
Proof.
  induction data as [|orderData data [IH1 IH2]].
  - split; [apply Nat.le_refl | intros order []].
  - change (orderData :: data) with ([orderData] ++ data).
    rewrite onUpdate_app_bind.
    assert (S : (respondToOrder orderData = false
                 /\ onUpdate exponential w [orderData] = ([], Normal tt))
                \/ (respondToOrder orderData = true
                    /\ (submissions (fst (onUpdate exponential w [orderData])) = []
                        \/ exists qtyString,
                            submissions (fst (onUpdate exponential w [orderData]))
                            = [counterOrder orderData qtyString]))).
    { destruct (respondToOrder orderData) eqn:R.
      - right. split; [reflexivity|].
        destruct (onUpdate_qualifying exponential w orderData R)
          as (pre & Hpre & _ & ->).
        cbn [fst]. rewrite submissions_app, Hpre.
        apply placeCounterOrder_submissions.
      - left. split; [reflexivity|]. rewrite onUpdate_singleton, R. reflexivity. }
    cbn [app filter].
    destruct S as [[R E]|[R S]].
    + rewrite E, R. change ([] : list effect, Normal tt) with (@ret unit tt).
      rewrite bind_ret_l. split; [exact IH1|].
      intros order Hin. destruct (IH2 order Hin) as (o & q & H1 & H2 & H3).
      exists o, q. split; [right; exact H1 | split; assumption].
    + rewrite R.
      destruct (onUpdate exponential w [orderData]) as [t [[]|e|c]];
        cbn [fst bind] in *.
      * destruct (onUpdate exponential w data) as [t' r'].
        cbn [fst] in *. rewrite submissions_app, List.length_app.
        split.
        -- destruct S as [->|[q ->]]; cbn [List.length]; lia.
        -- intros order Hin. apply in_app_or in Hin. destruct Hin as [Hin|Hin].
           ++ destruct S as [S|[q S]]; rewrite S in Hin; [destruct Hin|].
              destruct Hin as [<-|[]]. exists orderData, q.
              split; [left; reflexivity | split; [exact R | reflexivity]].
           ++ destruct (IH2 order Hin) as (o & q & H1 & H2 & H3).
              exists o, q. split; [right; exact H1 | split; assumption].
      * split.
        -- destruct S as [->|[q ->]]; cbn [List.length]; lia.
        -- intros order Hin.
           destruct S as [S|[q S]]; rewrite S in Hin; [destruct Hin|].
           destruct Hin as [<-|[]]. exists orderData, q.
           split; [left; reflexivity | split; [exact R | reflexivity]].
      * split.
        -- destruct S as [->|[q ->]]; cbn [List.length]; lia.
        -- intros order Hin.
           destruct S as [S|[q S]]; rewrite S in Hin; [destruct Hin|].
           destruct Hin as [<-|[]]. exists orderData, q.
           split; [left; reflexivity | split; [exact R | reflexivity]].
Qed.

(** ** The look-ups *)

Lemma requests_app (t1 t2 : list effect) :
  requests (t1 ++ t2) = requests t1 ++ requests t2.
Proof. apply filter_app. Qed.

Lemma requests_getBalanceOfCoin (w : World) (c : client) (coin_ account : string) :
  requests (fst (getBalanceOfCoin w c coin_ account)) = [GetWalletBalance c coin_].
Proof.
  destruct (getBalanceOfCoin_cases w c coin_ account)
    as [(? & ? & ? & ? & _ & _ & _ & _ & ->)|[? ->]]; reflexivity.
Qed.

(** X5.  [getBalanceOfCoin] never throws.  It makes one wallet request and
    returns either a balance, with nothing logged, or [null] with exactly
    one error line.  It returns a balance exactly when the request resolves
    with result code 0 and the first wallet of the list holds the coin; the
    balance is then read from the first entry for that coin. *)
Theorem getBalanceOfCoin_spec
    (w : World) (c : client) (coin_ account : string) :
  ((exists balance,
       getBalanceOfCoin w c coin_ account
       = ([GetWalletBalance c coin_], Normal (Some balance)))
   \/ (exists message,
          getBalanceOfCoin w c coin_ account
          = ([GetWalletBalance c coin_; Log error message], Normal None)))
  /\ forall balance : Balance,
      snd (getBalanceOfCoin w c coin_ account) = Normal (Some balance)
      <-> exists response first rest foundCoin,
          getWalletBalance w c coin_ = Resolved response
          /\ wallet_retCode response = 0%Z
          /\ wallet_list response = first :: rest
          /\ find (fun balanceCoin => String.eqb (coin balanceCoin) coin_)
                  (coins first) = Some foundCoin
          /\ balance
             = {| walletBalance := ToNumber (coin_walletBalance foundCoin);
                  availableToWithdraw :=
                    ToNumber (coin_availableToWithdraw foundCoin);
                  equity := ToNumber (coin_equity foundCoin) |}.
Proof.
  split.
  - destruct (getBalanceOfCoin_cases w c coin_ account)
      as [(? & ? & ? & ? & _ & _ & _ & _ & E)|[message E]].
    + left. eexists. exact E.
    + right. exists message. exact E.
  - intro balance. split.
    + intro H.
      destruct (getBalanceOfCoin_cases w c coin_ account)
        as [(response & first & rest & foundCoin & H1 & H2 & H3 & H4 & E)
           |[message E]]; rewrite E in H; cbn [snd] in H; [|discriminate].
      exists response, first, rest, foundCoin.
      repeat (split; [assumption|]). congruence.
    + intros (response & first & rest & foundCoin & H1 & H2 & H3 & H4 & ->).
      unfold getBalanceOfCoin, await. rewrite H1, bind_Normal, H2, H3.
      cbn [Z.eqb]. rewrite H4. reflexivity.
Qed.

(** X6.  [getSymbolInfo] returns an instrument exactly when the request
    resolves with result code 0 and a non-empty list, and it is the first of
    the list.  In every other case it logs one error line and throws: the
    exception of the request itself when it was rejected, an [Error] of its
    own otherwise.  It never returns without an instrument. *)
Theorem getSymbolInfo_spec (w : World) (symbol : string) :
  (forall symbolInfo : InstrumentInfo,
      snd (getSymbolInfo w symbol) = Normal symbolInfo
      <-> exists response rest,
          getInstrumentsInfo w symbol = Resolved response
          /\ instruments_retCode response = 0%Z
          /\ instruments_list response = symbolInfo :: rest)
  /\ ((exists symbolInfo,
          getSymbolInfo w symbol = ([GetInstrumentsInfo symbol], Normal symbolInfo))
      \/ (exists e,
             getSymbolInfo w symbol
             = ([GetInstrumentsInfo symbol;
                 Log error ("Error fetching symbol info for " ++ symbol ++ ":")],
                Throw e)
             /\ (getInstrumentsInfo w symbol = Rejected e
                 \/ ((exists response, getInstrumentsInfo w symbol = Resolved response)
                     /\ e = Error ("Failed to get symbol info for " ++ symbol))))).
Proof.
  split.
  - intro symbolInfo. split.
    + intro H.
      destruct (getSymbolInfo_cases w symbol)
        as [(response & first & rest & H1 & H2 & H3 & E)|(e & _ & E)];
        rewrite E in H; cbn [snd] in H; [|discriminate].
      exists response, rest. injection H as <-. repeat split; assumption.
    + intros (response & rest & H1 & H2 & H3).
      unfold getSymbolInfo, await. rewrite H1, bind_Normal, H3, H2. reflexivity.
  - unfold getSymbolInfo, await.
    destruct (getInstrumentsInfo w symbol) as [response|e] eqn:H.
    + rewrite bind_Normal.
      destruct (instruments_list response) as [|first rest].
      * right. eexists. split; [reflexivity|]. right.
        split; [exists response; reflexivity | reflexivity].
      * destruct (instruments_retCode response =? 0)%Z.
        -- left. eexists. reflexivity.
        -- right. eexists. split; [reflexivity|]. right.
           split; [exists response; reflexivity | reflexivity].
    + right. exists e. split; [reflexivity | left; reflexivity].
Qed.

(** X7.  [sendTelegramMessage] never throws and never stops the caller:
    without a bot token it does nothing; with one it sends the message once,
    and a failed delivery only adds one error line. *)
Theorem sendTelegramMessage_is_contained (w : World) (message : string) :
  snd (sendTelegramMessage w message) = Normal tt
  /\ (TELEGRAM_ENABLED w = false -> fst (sendTelegramMessage w message) = [])
  /\ (TELEGRAM_ENABLED w = true ->
      sendMessage w message = Resolved tt ->
      fst (sendTelegramMessage w message) = [SendMessage message])
  /\ (TELEGRAM_ENABLED w = true ->
      forall e, sendMessage w message = Rejected e ->
      fst (sendTelegramMessage w message)
      = [SendMessage message; Log error "Error sending Telegram message:"]).
Proof.
  destruct (sendTelegramMessage_cases w message)
    as [[D ->]|[(D & R & ->)|(D & [e R] & ->)]]; cbn [fst snd];
    (split; [reflexivity|]); (split; [|split]); intros; congruence.
Qed.

(** X8.  [checkFetchBalances] ends the process with exit code 0 in every
    world, whether the balances could be fetched or not; before that it asks
    for the two balances, first of the trading account, and for nothing
    else. *)
Theorem checkFetchBalances_always_exits (w : World) :
  snd (checkFetchBalances w) = Exit 0
  /\ requests (fst (checkFetchBalances w))
     = [GetWalletBalance tradingRestClient ASSUMING_COIN;
        GetWalletBalance counterRestClient ASSUMING_COIN]
  /\ exists tradingBalance counterTradingBalance,
      snd (getBalanceOfCoin w tradingRestClient ASSUMING_COIN "trading")
      = Normal tradingBalance
      /\ snd (getBalanceOfCoin w counterRestClient ASSUMING_COIN "counter")
         = Normal counterTradingBalance
      /\ In (ConsoleLog "tradingBalance" tradingBalance)
            (fst (checkFetchBalances w))
      /\ In (ConsoleLog "counterTradingBalance" counterTradingBalance)
            (fst (checkFetchBalances w)).
Proof.
  pose proof (requests_getBalanceOfCoin w tradingRestClient ASSUMING_COIN
                "trading") as R1.
  pose proof (requests_getBalanceOfCoin w counterRestClient ASSUMING_COIN
                "counter") as R2.
  unfold checkFetchBalances, emit, exit.
  destruct (getBalanceOfCoin_completes w tradingRestClient ASSUMING_COIN "trading")
    as (t1 & b1 & E1).
  destruct (getBalanceOfCoin_completes w counterRestClient ASSUMING_COIN "counter")
    as (t2 & b2 & E2).
  rewrite E1, E2 in *. cbn [fst snd] in *.
  rewrite bind_Normal. cbn [fst snd bind app].
  split; [reflexivity|]. split.
  - rewrite !requests_app, R1. cbn [requests filter app].
    rewrite !requests_app, R2. reflexivity.
  - exists b1, b2. split; [reflexivity|]. split; [reflexivity|].
    split; repeat (rewrite in_app_iff || cbn [In]); auto 10.
Qed.

(** ** [placeCounterOrder] *)

Lemma requests_getSymbolInfo (w : World) (symbol : string) :
  requests (fst (getSymbolInfo w symbol)) = [GetInstrumentsInfo symbol].
Proof.
  destruct (getSymbolInfo_cases w symbol)
    as [(? & ? & ? & _ & _ & _ & ->)|(? & _ & ->)]; reflexivity.
Qed.

Lemma requests_sendTelegramMessage (w : World) (message : string) :
  requests (fst (sendTelegramMessage w message)) = [].
Proof.
  destruct (sendTelegramMessage_cases w message)
    as [[_ ->]|[(_ & _ & ->)|(_ & _ & ->)]]; reflexivity.
Qed.

Lemma submitCounterOrder_default
    (w : World) (order : Params.t) (response : SubmitResponse) :
  submitOrder w order = Resolved response ->
  retCode response <> 110007%Z ->
  submitCounterOrder w order
  = (placing w order
     ++ [SubmitOrder order;
         Log info "Countertrade result code";
         Log info "Countertrade result message";
         Log info "Counter order placed:"]
     ++ fst (sendTelegramMessage w
               ("Order placed: " ++ Params.symbol order ++ " "
                ++ Params.side order)),
     Normal tt).
Proof.
  intros H N. unfold submitCounterOrder, placing, log, emit.
  rewrite bind_Normal. cbn [fst snd].
  destruct (sendTelegramMessage_completes w (counterOrderMessage order))
    as [t ->].
  rewrite bind_Normal. cbn [fst snd].
  unfold await. rewrite H, bind_Normal.
  apply Z.eqb_neq in N. rewrite N.
  destruct (sendTelegramMessage_completes w
              ("Order placed: " ++ Params.symbol order ++ " "
               ++ Params.side order)) as [t' ->].
  reflexivity.
Qed.

Lemma requests_submitCounterOrder (w : World) (order : Params.t) :
  requests (fst (submitCounterOrder w order)) = [SubmitOrder order].
Proof.
  assert (P : requests (placing w order) = []).
  { unfold placing. cbn [requests filter].
    apply requests_sendTelegramMessage. }
  destruct (submitOrder w order) as [response|e] eqn:H.
  - destruct (Z.eq_dec (retCode response) 110007) as [E|N].
    + rewrite (submitCounterOrder_insufficient_balance w order response H E).
      cbn [fst]. rewrite requests_app, P. reflexivity.
    + rewrite (submitCounterOrder_default w order response H N).
      cbn [fst]. rewrite !requests_app, P, requests_sendTelegramMessage.
      reflexivity.
  - rewrite (submitCounterOrder_exception w order e H).
    cbn [fst]. rewrite !requests_app, P, requests_sendTelegramMessage.
    reflexivity.
Qed.

(** X9.  Without a balance nothing is looked up or submitted.  When the
    balance of the trading account cannot be fetched, [placeCounterOrder]
    logs it and returns after that single request; when the balance of the
    counter account cannot, it returns after the two balance requests.  In
    both cases it completes normally. *)
Theorem missing_balance_stops_the_order
    (exponential : Q -> string) (w : World) (orderData : Order.t) :
  (snd (getBalanceOfCoin w tradingRestClient ASSUMING_COIN "trading")
   = Normal None ->
   snd (placeCounterOrder exponential w orderData) = Normal tt
   /\ requests (fst (placeCounterOrder exponential w orderData))
      = [GetWalletBalance tradingRestClient ASSUMING_COIN]
   /\ In (Log error "Error fetching trading account balance")
         (fst (placeCounterOrder exponential w orderData)))
  /\ (forall tradingAccountBalance : Balance,
         snd (getBalanceOfCoin w tradingRestClient ASSUMING_COIN "trading")
         = Normal (Some tradingAccountBalance) ->
         snd (getBalanceOfCoin w counterRestClient ASSUMING_COIN "counter")
         = Normal None ->
         snd (placeCounterOrder exponential w orderData) = Normal tt
         /\ requests (fst (placeCounterOrder exponential w orderData))
            = [GetWalletBalance tradingRestClient ASSUMING_COIN;
               GetWalletBalance counterRestClient ASSUMING_COIN]
         /\ In (Log error "Error fetching counter-trading account balance")
               (fst (placeCounterOrder exponential w orderData))).
Proof.
  pose proof (requests_getBalanceOfCoin w tradingRestClient ASSUMING_COIN
                "trading") as R1.
  pose proof (requests_getBalanceOfCoin w counterRestClient ASSUMING_COIN
                "counter") as R2.
  split.
  - intro H. unfold placeCounterOrder.
    destruct (getBalanceOfCoin w tradingRestClient ASSUMING_COIN "trading")
      as [t1 r1]. cbn [fst snd] in *. subst r1.
    rewrite bind_Normal. cbn [fst snd log emit].
    split; [reflexivity|]. split.
    + rewrite requests_app, R1. reflexivity.
    + apply in_or_app. right. left. reflexivity.
  - intros tb H1 H2. unfold placeCounterOrder.
    destruct (getBalanceOfCoin w tradingRestClient ASSUMING_COIN "trading")
      as [t1 r1]. cbn [fst snd] in *. subst r1.
    destruct (getBalanceOfCoin w counterRestClient ASSUMING_COIN "counter")
      as [t2 r2]. cbn [fst snd] in *. subst r2.
    rewrite !bind_Normal. cbn [fst snd log emit].
    split; [reflexivity|]. split.
    + rewrite !requests_app, R1, R2. reflexivity.
    + apply in_or_app. right. apply in_or_app. right. left. reflexivity.
Qed.

(** X10.  The failures that escape [placeCounterOrder].  It never ends the
    process, and it throws exactly when both balances were fetched and
    either the instrument look-up throws or the serialisation of the
    quantity does; no order has been submitted when it throws. *)
Theorem placeCounterOrder_failures
    (exponential : Q -> string) (w : World) (orderData : Order.t) :
  (forall code, snd (placeCounterOrder exponential w orderData) <> Exit code)
  /\ (forall e,
         snd (placeCounterOrder exponential w orderData) = Throw e
         <-> exists tradingAccountBalance countertradeAccountBalance,
             snd (getBalanceOfCoin w tradingRestClient ASSUMING_COIN "trading")
             = Normal (Some tradingAccountBalance)
             /\ snd (getBalanceOfCoin w counterRestClient ASSUMING_COIN "counter")
                = Normal (Some countertradeAccountBalance)
             /\ (snd (getSymbolInfo w (Order.symbol orderData)) = Throw e
                 \/ exists symbolInfo,
                     snd (getSymbolInfo w (Order.symbol orderData))
                     = Normal symbolInfo
                     /\ counterQtyString exponential
                          (finalCounterQty
                             (sizingOf orderData tradingAccountBalance
                                countertradeAccountBalance symbolInfo))
                          (step (lotSizeOf (lotSizeFilter symbolInfo)))
                        = Throw e))
  /\ (forall e,
         snd (placeCounterOrder exponential w orderData) = Throw e ->
         submissions (fst (placeCounterOrder exponential w orderData)) = []).
Proof.
  pose proof (submissions_getBalanceOfCoin w tradingRestClient ASSUMING_COIN
                "trading") as S1.
  pose proof (submissions_getBalanceOfCoin w counterRestClient ASSUMING_COIN
                "counter") as S2.
  pose proof (submissions_getSymbolInfo w (Order.symbol orderData)) as S3.
  destruct (placeCounterOrder_outcome exponential w orderData)
    as [(t1 & H1 & E)
       |[(t1 & t2 & tb & H1 & H2 & E)
        |[(t1 & t2 & t3 & tb & cb & e0 & H1 & H2 & H3 & E)
         |[(t1 & t2 & t3 & tb & cb & info & H1 & H2 & H3 & H4 & E)
          |(t1 & t2 & t3 & tb & cb & info & qs & H1 & H2 & H3 & H4 & E)]]]];
    rewrite E; rewrite ?H1, ?H2, ?H3 in *; cbn [fst snd] in *.
  - split; [discriminate|]. split; [|discriminate].
    intro e. split; [discriminate|]. intros (? & ? & K & _). discriminate.
  - split; [discriminate|]. split; [|discriminate].
    intro e. split; [discriminate|]. intros (? & ? & _ & K & _). discriminate.
  - split; [discriminate|]. split.
    + intro e. split.
      * intros [= <-]. exists tb, cb. repeat split. left. reflexivity.
      * intros (? & ? & _ & _ & [K|(? & K & _)]); congruence.
    + intros e _. rewrite !submissions_app, S1, S2, S3. reflexivity.
  - split; [discriminate|]. split.
    + intro e. split.
      * intros [= <-]. exists tb, cb. repeat split. right.
        exists info. split; [reflexivity | exact H4].
      * intros (tb' & cb' & K1 & K2 & [K|(info' & K & K4)]); [discriminate|].
        injection K1 as <-. injection K2 as <-. injection K as <-.
        congruence.
    + intros e _. rewrite !submissions_app, S1, S2, S3. reflexivity.
  - split; [discriminate|]. split; [|discriminate].
    intro e. split; [discriminate|].
    intros (tb' & cb' & K1 & K2 & [K|(info' & K & K4)]); [discriminate|].
    injection K1 as <-. injection K2 as <-. injection K as <-.
    congruence.
Qed.

(** X11.  Every result code other than 110007 takes the default branch,
    whether the exchange accepted the order or rejected it: three info
    lines and the notification "Order placed", no warning and no error. *)
Theorem other_result_codes_are_reported_as_placed
    (w : World) (order : Params.t) (response : SubmitResponse) :
  submitOrder w order = Resolved response ->
  retCode response <> 110007%Z ->
  submitCounterOrder w order
  = (placing w order
     ++ [SubmitOrder order;
         Log info "Countertrade result code";
         Log info "Countertrade result message";
         Log info "Counter order placed:"]
     ++ fst (sendTelegramMessage w
               ("Order placed: " ++ Params.symbol order ++ " "
                ++ Params.side order)),
     Normal tt).
Proof. exact (submitCounterOrder_default w order response). Qed.

Lemma other_result_codes_are_reported_as_placed_witness :
  submitCounterOrder
    (sample_world sample_filter "10000" "1000"
       (Resolved {| retCode := 10001; retMsg := "params error" |}))
    (counterOrder (sample_order "a1" "BTCUSDT" "500") "0.5")
  = ([Log info "Placing counter order:";
      SubmitOrder (counterOrder (sample_order "a1" "BTCUSDT" "500") "0.5");
      Log info "Countertrade result code";
      Log info "Countertrade result message";
      Log info "Counter order placed:"],
     Normal tt).
Proof.
  apply (other_result_codes_are_reported_as_placed
           (sample_world sample_filter "10000" "1000"
              (Resolved {| retCode := 10001; retMsg := "params error" |}))
           (counterOrder (sample_order "a1" "BTCUSDT" "500") "0.5")
           {| retCode := 10001; retMsg := "params error" |});
    [reflexivity | discriminate].
Defined.

(** ** Notifications do not steer the mirroring *)

Lemma getBalanceOfCoin_ext (w w' : World) (c : client) (coin_ account : string) :
  getWalletBalance w c coin_ = getWalletBalance w' c coin_ ->
  getBalanceOfCoin w c coin_ account = getBalanceOfCoin w' c coin_ account.
Proof. intro H. unfold getBalanceOfCoin. now rewrite H. Qed.

Lemma getSymbolInfo_ext (w w' : World) (symbol : string) :
  getInstrumentsInfo w symbol = getInstrumentsInfo w' symbol ->
  getSymbolInfo w symbol = getSymbolInfo w' symbol.
Proof. intro H. unfold getSymbolInfo. now rewrite H. Qed.

Lemma requests_bind (m n : M unit) :
  requests (fst (m ;; n))
  = requests (fst m)
    ++ match snd m with Normal _ => requests (fst n) | _ => [] end
  /\ snd (m ;; n)
     = match snd m with
       | Normal _ => snd n
       | Throw e => Throw e
       | Exit code => Exit code
       end.
Proof.
  destruct m as [t [[]|e|c]]; cbn [bind fst snd].
  - destruct n as [t' r']. cbn [fst snd]. split; [apply requests_app | reflexivity].
  - now rewrite app_nil_r.
  - now rewrite app_nil_r.
Qed.

Lemma placeCounterOrder_requests_ext
    (exponential : Q -> string) (w w' : World) (orderData : Order.t) :
  (forall c coin_, getWalletBalance w c coin_ = getWalletBalance w' c coin_) ->
  (forall symbol, getInstrumentsInfo w symbol = getInstrumentsInfo w' symbol) ->
  requests (fst (placeCounterOrder exponential w orderData))
  = requests (fst (placeCounterOrder exponential w' orderData))
  /\ snd (placeCounterOrder exponential w orderData)
     = snd (placeCounterOrder exponential w' orderData).
Proof.
  intros Hw Hi. unfold placeCounterOrder.
  rewrite <- (getBalanceOfCoin_ext w w' tradingRestClient ASSUMING_COIN "trading"
                (Hw _ _)).
  rewrite <- (getBalanceOfCoin_ext w w' counterRestClient ASSUMING_COIN "counter"
                (Hw _ _)).
  rewrite <- (getSymbolInfo_ext w w' (Order.symbol orderData) (Hi _)).
  destruct (getBalanceOfCoin_completes w tradingRestClient ASSUMING_COIN "trading")
    as (t1 & [tb|] & ->); rewrite !bind_Normal; [|split; reflexivity].
  destruct (getBalanceOfCoin_completes w counterRestClient ASSUMING_COIN "counter")
    as (t2 & [cb|] & ->); rewrite !bind_Normal; [|split; reflexivity].
  destruct (getSymbolInfo w (Order.symbol orderData)) as [t3 [info|e|c]];
    [|split; reflexivity..].
  rewrite !bind_Normal. unfold lift.
  destruct (counterQtyString exponential _ _) as [qs|e|c];
    [|split; reflexivity..].
  rewrite !bind_Normal. cbn [fst snd].
  rewrite !requests_app, !requests_submitCounterOrder.
  rewrite (proj2 (submissions_submitCounterOrder w (counterOrder orderData qs))).
  rewrite (proj2 (submissions_submitCounterOrder w' (counterOrder orderData qs))).
  split; reflexivity.
Qed.

(** X12.  Neither Telegram nor the outcome of a submission has any
    influence on what is requested.  Two worlds that answer the balance and
    instrument requests alike, whatever their Telegram bot does (enabled or
    not, delivering or failing) and whatever the exchange answers to the
    submissions, see the same requests go out in the same order, the
    submitted orders included, and the handler completes in the same way. *)
Theorem notifications_do_not_change_the_requests
    (exponential : Q -> string) (w w' : World) (data : list Order.t) :
  (forall c coin_, getWalletBalance w c coin_ = getWalletBalance w' c coin_) ->
  (forall symbol, getInstrumentsInfo w symbol = getInstrumentsInfo w' symbol) ->
  requests (fst (onUpdate exponential w data))
  = requests (fst (onUpdate exponential w' data))
  /\ snd (onUpdate exponential w data) = snd (onUpdate exponential w' data).
Proof.
  intros Hw Hi. induction data as [|orderData data [IH1 IH2]].
  - split; reflexivity.
  - change (orderData :: data) with ([orderData] ++ data).
    rewrite !onUpdate_app_bind.
    destruct (requests_bind (onUpdate exponential w [orderData])
                (onUpdate exponential w data)) as [-> ->].
    destruct (requests_bind (onUpdate exponential w' [orderData])
                (onUpdate exponential w' data)) as [-> ->].
    assert (K : requests (fst (onUpdate exponential w [orderData]))
                = requests (fst (onUpdate exponential w' [orderData]))
                /\ snd (onUpdate exponential w [orderData])
                   = snd (onUpdate exponential w' [orderData])).
    { destruct (respondToOrder orderData) eqn:R.
      - destruct (onUpdate_qualifying exponential w orderData R)
          as (pre & _ & P & ->).
        destruct (onUpdate_qualifying exponential w' orderData R)
          as (pre' & _ & P' & ->).
        cbn [fst snd]. rewrite !requests_app, P, P'.
        apply (placeCounterOrder_requests_ext exponential w w' orderData Hw Hi).
      - rewrite !onUpdate_singleton, R. split; reflexivity. }
    destruct K as [K1 K2]. rewrite K1, K2, IH1, IH2. split; reflexivity.
Qed.

Lemma notifications_do_not_change_the_requests_witness :
  requests
    (fst (onUpdate exponential_unmodelled
            (sample_world sample_filter "10000" "1000" accepted)
            [sample_order "a1" "BTCUSDT" "500"]))
  = requests
      (fst (onUpdate exponential_unmodelled
              {| TELEGRAM_ENABLED := true;
                 sendMessage := fun _ => Rejected (Error "Too Many Requests");
                 getWalletBalance :=
                   getWalletBalance
                     (sample_world sample_filter "10000" "1000" accepted);
                 getInstrumentsInfo :=
                   getInstrumentsInfo
                     (sample_world sample_filter "10000" "1000" accepted);
                 submitOrder := fun _ => accepted |}
              [sample_order "a1" "BTCUSDT" "500"])).
Proof.
  apply (notifications_do_not_change_the_requests exponential_unmodelled
           (sample_world sample_filter "10000" "1000" accepted)
           {| TELEGRAM_ENABLED := true;
              sendMessage := fun _ => Rejected (Error "Too Many Requests");
              getWalletBalance :=
                getWalletBalance
                  (sample_world sample_filter "10000" "1000" accepted);
              getInstrumentsInfo :=
                getInstrumentsInfo
                  (sample_world sample_filter "10000" "1000" accepted);
              submitOrder := fun _ => accepted |}
           [sample_order "a1" "BTCUSDT" "500"]);
    reflexivity.
Defined.

(** ** More on the sizing *)

Lemma Qred_zero (q : Q) : q == 0 -> Qred q = 0.
Proof. intro H. apply (Qred_complete q 0 H). Qed.


(** X15.  An order without executed value is mirrored at the minimum: when
    [cumExecValue] is 0, as for an order that has not traded yet, and the
    notional of [minOrderQty] reaches [minNotionalValue], the final quantity
    is [minOrderQty], whatever the two equities and the order type. *)
Theorem unexecuted_order_is_sized_at_the_minimum
    (tradingEquity counterEquity price maxq minq stp maxmkt minnot : Q)
    (orderType : string) :
  ~ tradingEquity == 0 -> 0 < price ->
  0 < minq -> minq <= maxmkt -> maxmkt <= maxq -> 0 < stp ->
  minnot <= minq * price ->
  finalCounterQty
    (sizeCounterOrder (Finite 0) (Finite tradingEquity) (Finite counterEquity)
       (Finite price) orderType (lotSize maxq minq stp maxmkt minnot))
  = Finite minq.
Proof.
  intros Hte Hp Hmin Hmk Hmax Hstp Hnot.
  unfold sizeCounterOrder, lotSize.
  cbn [finalCounterQty maxQty minQty step maxMarketQty minNotional].
  rewrite (div_Finite 0 tradingEquity) by assumption.
  rewrite (Qred_zero (0 / tradingEquity)) by (field; assumption).
  rewrite mul_Finite, (Qred_zero (counterEquity * 0)) by ring.
  rewrite (div_Finite 0 price) by lra.
  rewrite (Qred_zero (0 / price)) by (field; lra).
  rewrite (div_Finite 0 stp) by lra.
  rewrite (Qred_zero (0 / stp)) by (field; lra).
  cbn [Math.round]. change (Qfloor (0 + (1 # 2))) with 0%Z.
  rewrite mul_Finite, (Qred_zero (inject_Z 0 * stp)) by ring.
  destruct (min_Finite maxq 0) as [[-> _]|[_ K]]; [|lra].
  destruct (max_Finite minq 0) as [[_ K]|[-> _]]; [lra|].
  assert (M : (if String.eqb orderType "Market"
               then Math.min (Finite minq) (Finite maxmkt) else Finite minq)
              = Finite minq).
  { destruct (String.eqb orderType "Market"); [|reflexivity].
    destruct (min_Finite minq maxmkt) as [[_ K]|[-> _]]; [lra | reflexivity]. }
  rewrite M, mul_Finite.
  destruct (lt (Finite (Qred (minq * price))) (Finite minnot)) eqn:Hlt.
  { apply lt_Finite in Hlt. rewrite Qred_correct in Hlt. lra. }
  destruct (min_Finite maxq minq) as [[-> _]|[-> K]].
  - destruct (max_Finite minq minq) as [[_ K]|[-> _]]; [lra | reflexivity].
  - destruct (max_Finite minq maxq) as [[_ K']|[-> _]]; [lra | reflexivity].
Qed.

Lemma unexecuted_order_is_sized_at_the_minimum_witness :
  finalCounterQty
    (sizeCounterOrder (Finite 0) (Finite 10000) (Finite 1000) (Finite 100)
       "Limit" (lotSize 100 (1 # 10) (1 # 10) 50 5))
  = Finite (1 # 10).
Proof.
  apply (unexecuted_order_is_sized_at_the_minimum 10000 1000 100 100 (1 # 10)
           (1 # 10) 50 5 "Limit"); lra.
Defined.

Lemma positive_sign (q : Q) : 0 < q -> (q ?= 0) = Gt.
Proof. intro H. now apply Qgt_alt. Qed.

Lemma div_Infinity_positive (q : Q) : 0 < q -> div Infinity (Finite q) = Infinity.
Proof.
  intro H. unfold div.
  destruct (Qeq_bool q 0); [reflexivity|]. now rewrite (positive_sign q H).
Qed.

Lemma mul_Infinity_positive (q : Q) : 0 < q -> mul Infinity (Finite q) = Infinity.
Proof. intro H. unfold mul, sign. now rewrite (positive_sign q H). Qed.

Lemma clamp_Infinity (minq maxq : Q) :
  minq <= maxq ->
  exists b,
    Math.max (Finite minq) (Math.min (Finite maxq) Infinity) = Finite b
    /\ b == maxq.
Proof.
  intro H. cbn [Math.min lt].
  destruct (max_Finite minq maxq) as [[-> _]|[-> K]].
  - exists maxq. split; reflexivity.
  - exists minq. split; [reflexivity | lra].
Qed.

Lemma market_cap_cases (orderType : string) (b mk : Q) :
  exists m,
    (if String.eqb orderType "Market"
     then Math.min (Finite b) (Finite mk) else Finite b) = Finite m
    /\ ((String.eqb orderType "Market" = false /\ m == b)
        \/ (String.eqb orderType "Market" = true /\ m == b /\ b <= mk)
        \/ (String.eqb orderType "Market" = true /\ m == mk /\ mk <= b)).
Proof.
  destruct (String.eqb orderType "Market").
  - destruct (min_Finite b mk) as [[-> Hx]|[-> Hx]].
    + exists mk. split; [reflexivity|]. right; right.
      split; [reflexivity|]. split; lra.
    + exists b. split; [reflexivity|]. right; left.
      split; [reflexivity|]. split; lra.
  - exists b. split; [reflexivity|]. left. split; reflexivity.
Qed.

(** X16.  With an equity of 0 in the trading account, a positive executed
    value and a positive counter equity and price, the raw quantity is
    [Infinity] and the counter order is sized at the largest quantity the
    constraints allow: [maxOrderQty], or [maxMktOrderQty] for a Market
    order, provided its notional reaches [minNotionalValue]. *)
Theorem zero_equity_sizes_at_the_maximum
    (tradeValue counterEquity price maxq minq stp maxmkt minnot : Q)
    (orderType : string) :
  0 < tradeValue -> 0 < counterEquity -> 0 < price ->
  0 < minq -> minq <= maxmkt -> maxmkt <= maxq -> 0 < stp ->
  minnot
  <= (if String.eqb orderType "Market" then maxmkt else maxq) * price ->
  initialCounterQty
    (sizeCounterOrder (Finite tradeValue) (Finite 0) (Finite counterEquity)
       (Finite price) orderType (lotSize maxq minq stp maxmkt minnot))
  = Infinity
  /\ exists q,
      finalCounterQty
        (sizeCounterOrder (Finite tradeValue) (Finite 0) (Finite counterEquity)
           (Finite price) orderType (lotSize maxq minq stp maxmkt minnot))
      = Finite q
      /\ q == (if String.eqb orderType "Market" then maxmkt else maxq).
Proof.
  intros Htv Hce Hp Hmin Hmk Hmax Hstp Hnot.
  unfold sizeCounterOrder, lotSize.
  cbn [initialCounterQty finalCounterQty maxQty minQty step maxMarketQty
       minNotional].
  assert (E1 : div (Finite tradeValue) (Finite 0) = Infinity).
  { unfold div. change (Qeq_bool 0 0) with true. cbv iota.
    now rewrite (positive_sign tradeValue Htv). }
  rewrite E1.
  assert (E2 : mul (Finite counterEquity) Infinity = Infinity).
  { unfold mul, sign. now rewrite (positive_sign counterEquity Hce). }
  rewrite E2, (div_Infinity_positive price Hp).
  split; [reflexivity|].
  rewrite (div_Infinity_positive stp Hstp). cbn [Math.round].
  rewrite (mul_Infinity_positive stp Hstp).
  destruct (clamp_Infinity minq maxq) as (b & -> & Hb); [lra|].
  destruct (market_cap_cases orderType b maxmkt) as (m & -> & Hm).
  assert (Hmv : m == (if String.eqb orderType "Market" then maxmkt else maxq)).
  { destruct Hm as [(-> & F)|[(-> & F & G)|(-> & F & G)]]; lra. }
  rewrite (mul_Finite m price).
  destruct (lt (Finite (Qred (m * price))) (Finite minnot)) eqn:Hlt.
  { apply lt_Finite in Hlt. rewrite Qred_correct, Hmv in Hlt. lra. }
  destruct (clamp_spec minq maxq m) as (q & -> & Hq & Hqc); [lra|].
  exists q. split; [reflexivity|]. rewrite <- Hmv.
  assert (R : minq <= m <= maxq).
  { rewrite Hmv. destruct (String.eqb orderType "Market"); lra. }
  destruct Hqc as [F|[(F & G)|(F & G)]]; lra.
Qed.

Lemma zero_equity_sizes_at_the_maximum_witness :
  exists q,
    finalCounterQty
      (sizeCounterOrder (Finite 500) (Finite 0) (Finite 1000) (Finite 100)
         "Market" (lotSize 100 (1 # 10) (1 # 10) 50 5))
    = Finite q
    /\ q == 50.
Proof.
  apply (zero_equity_sizes_at_the_maximum 500 1000 100 100 (1 # 10) (1 # 10) 50 5
           "Market"); try lra.
  change (String.eqb "Market" "Market") with true. cbv iota. lra.
Defined.



Lemma NaN_clamp (a b : number) : Math.max a (Math.min b NaN) = NaN.
Proof. destruct a, b; reflexivity. Qed.

(** X18.  With a price of 0 and no executed value, the usual state of a
    Market order that has just been created, the raw quantity is [0/0]:
    every later constant of the sizing is [NaN], no clamp and no repair
    brings it back, and the quantity is serialised as "NaN" whenever the
    step allows a serialisation at all. *)
Theorem zero_price_unexecuted_order_is_NaN
    (exponential : Q -> string)
    (tradingEquity counterEquity : Q) (orderType : string) (l : LotSize) :
  ~ tradingEquity == 0 ->
  initialCounterQty
    (sizeCounterOrder (Finite 0) (Finite tradingEquity) (Finite counterEquity)
       (Finite 0) orderType l) = NaN
  /\ finalCounterQty
       (sizeCounterOrder (Finite 0) (Finite tradingEquity)
          (Finite counterEquity) (Finite 0) orderType l) = NaN
  /\ (counterQtyString exponential
        (finalCounterQty
           (sizeCounterOrder (Finite 0) (Finite tradingEquity)
              (Finite counterEquity) (Finite 0) orderType l))
        (step l)
      = Normal "NaN"%string
      \/ counterQtyString exponential
           (finalCounterQty
              (sizeCounterOrder (Finite 0) (Finite tradingEquity)
                 (Finite counterEquity) (Finite 0) orderType l))
           (step l)
         = Throw RangeError).
Proof.
  intro Hte.
  assert (F : finalCounterQty
                (sizeCounterOrder (Finite 0) (Finite tradingEquity)
                   (Finite counterEquity) (Finite 0) orderType l) = NaN
              /\ initialCounterQty
                   (sizeCounterOrder (Finite 0) (Finite tradingEquity)
                      (Finite counterEquity) (Finite 0) orderType l) = NaN).
  { unfold sizeCounterOrder. cbn [initialCounterQty finalCounterQty].
    rewrite (div_Finite 0 tradingEquity) by assumption.
    rewrite (Qred_zero (0 / tradingEquity)) by (field; assumption).
    rewrite mul_Finite, (Qred_zero (counterEquity * 0)) by ring.
    change (div (Finite 0) (Finite 0)) with NaN.
    change (div NaN (step l)) with NaN. cbn [Math.round].
    change (mul NaN (step l)) with NaN.
    rewrite NaN_clamp.
    assert (M : (if String.eqb orderType "Market"
                 then Math.min NaN (maxMarketQty l) else NaN) = NaN)
      by (destruct (String.eqb orderType "Market"); reflexivity).
    rewrite M. change (mul NaN (Finite 0)) with NaN.
    change (lt NaN (minNotional l)) with false. cbv iota.
    rewrite NaN_clamp. split; reflexivity. }
  destruct F as [F1 F2]. split; [exact F2|]. split; [exact F1|].
  rewrite F1. unfold counterQtyString, toFixed.
  destruct (ToIntegerOrInfinity (getDecimalPlaces (step l))) as [| | |fq];
    try (right; reflexivity).
  destruct ((Qnum fq <? 0)%Z || (100 <? Qnum fq)%Z);
    [right | left]; reflexivity.
Qed.

Lemma zero_price_unexecuted_order_is_NaN_witness :
  finalCounterQty
    (sizeCounterOrder (Finite 0) (Finite 10000) (Finite 1000) (Finite 0)
       "Market" (lotSize 100 (1 # 10) (1 # 10) 50 5))
  = NaN.
Proof.
  apply (zero_price_unexecuted_order_is_NaN exponential_unmodelled 10000 1000
           "Market" (lotSize 100 (1 # 10) (1 # 10) 50 5)).
  intro H. discriminate H.
Defined.

Lemma clamp_bounds (a b x : number) :
  le a b = true ->
  isNaN (Math.max a (Math.min b x)) = isNaN x
  /\ (isNaN x = false ->
      le a (Math.max a (Math.min b x)) = true
      /\ le (Math.max a (Math.min b x)) b = true).
Proof.
  destruct a as [| | |a], b as [| | |b], x as [| | |x];
    unfold Math.max, Math.min, lt, le, isNaN; intro H;
    try discriminate; qcompare;
    solve [ split; [reflexivity | intros _; split; reflexivity]
          | split; [reflexivity | intro; discriminate]
          | discriminate
          | exfalso; lra ].
Qed.

(** X19.  The final clamp holds for every input, the degenerate ones
    included: as soon as [minOrderQty <= maxOrderQty], the final quantity is
    either [NaN] or a number within [minOrderQty, maxOrderQty], and it is
    [NaN] exactly when the quantity entering the final clamp is. *)
Theorem final_quantity_is_bounded_or_NaN
    (tradeValue tradingEquity counterEquity price : number)
    (orderType : string) (l : LotSize) :
  le (minQty l) (maxQty l) = true ->
  isNaN (finalCounterQty
           (sizeCounterOrder tradeValue tradingEquity counterEquity price
              orderType l))
  = isNaN (minNotionalAdjustedCounterQty
             (sizeCounterOrder tradeValue tradingEquity counterEquity price
                orderType l))
  /\ (isNaN (finalCounterQty
               (sizeCounterOrder tradeValue tradingEquity counterEquity price
                  orderType l)) = true
      \/ (le (minQty l)
             (finalCounterQty
                (sizeCounterOrder tradeValue tradingEquity counterEquity price
                   orderType l)) = true
          /\ le (finalCounterQty
                   (sizeCounterOrder tradeValue tradingEquity counterEquity
                      price orderType l))
                (maxQty l) = true)).
Proof.
  intro H. unfold sizeCounterOrder.
  cbn [finalCounterQty minNotionalAdjustedCounterQty].
  match goal with
  | |- isNaN (Math.max _ (Math.min _ ?x)) = _ /\ _ =>
      destruct (clamp_bounds (minQty l) (maxQty l) x H) as [E B];
      rewrite E; split; [reflexivity|];
      destruct (isNaN x); [left; reflexivity | right; apply B; reflexivity]
  end.
Qed.

Lemma final_quantity_is_bounded_or_NaN_witness :
  isNaN (finalCounterQty
           (sizeCounterOrder (Finite 500) (Finite (-3)) Infinity (Finite 100)
              "Market" (lotSize 100 (1 # 10) (1 # 10) 50 5)))
  = isNaN (minNotionalAdjustedCounterQty
             (sizeCounterOrder (Finite 500) (Finite (-3)) Infinity (Finite 100)
                "Market" (lotSize 100 (1 # 10) (1 # 10) 50 5))).
Proof.
  apply (final_quantity_is_bounded_or_NaN (Finite 500) (Finite (-3)) Infinity
           (Finite 100) "Market" (lotSize 100 (1 # 10) (1 # 10) 50 5)).
  reflexivity.
Defined.

(** ** When the quantity can be serialised *)




(** ** Reading the serialised quantity back *)

























(** ** Start-up *)

(** X22.  The configuration check lets the program start exactly when the
    four API credentials are set to non-empty values and, if a Telegram
    token is set, a channel identifier is set as well; a missing Telegram
    token is logged but is not fatal.  Otherwise the process exits with
    code 1 after a single error line. *)
Theorem checkConfiguration_spec (env : Env) :
  (snd (checkConfiguration env) = Normal tt
   <-> truthy (env "TRADING_SUBACCOUNT_API_KEY"%string) = true
       /\ truthy (env "TRADING_SUBACCOUNT_API_SECRET"%string) = true
       /\ truthy (env "COUNTERTRADING_SUBACCOUNT_API_KEY"%string) = true
       /\ truthy (env "COUNTERTRADING_SUBACCOUNT_API_SECRET"%string) = true
       /\ (truthy (env "TELEGRAM_BOT_TOKEN"%string) = true ->
           truthy (env "TELEGRAM_CHANNEL_ID"%string) = true))
  /\ (snd (checkConfiguration env) = Normal tt
      \/ (snd (checkConfiguration env) = Exit 1
          /\ exists message, fst (checkConfiguration env) = [Log error message])).
Proof.
  unfold checkConfiguration, requireVariable.
  destruct (truthy (env "TRADING_SUBACCOUNT_API_KEY"%string));
    [|split; [split; [discriminate | intros (K & _); discriminate]
             |right; split; [reflexivity | eexists; reflexivity]]].
  destruct (truthy (env "TRADING_SUBACCOUNT_API_SECRET"%string));
    [|split; [split; [discriminate | intros (_ & K & _); discriminate]
             |right; split; [reflexivity | eexists; reflexivity]]].
  destruct (truthy (env "COUNTERTRADING_SUBACCOUNT_API_KEY"%string));
    [|split; [split; [discriminate | intros (_ & _ & K & _); discriminate]
             |right; split; [reflexivity | eexists; reflexivity]]].
  destruct (truthy (env "COUNTERTRADING_SUBACCOUNT_API_SECRET"%string));
    [|split; [split; [discriminate | intros (_ & _ & _ & K & _); discriminate]
             |right; split; [reflexivity | eexists; reflexivity]]].
  destruct (truthy (env "TELEGRAM_BOT_TOKEN"%string)).
  - destruct (env "TELEGRAM_CHANNEL_ID"%string) as [[|c r]|]; cbn.
    + split; [split; [discriminate|] | right; split; [reflexivity | eexists; reflexivity]].
      intros (_ & _ & _ & _ & K). discriminate (K eq_refl).
    + split; [|left; reflexivity].
      split; [intros _; repeat split | reflexivity].
    + split; [split; [discriminate|] | right; split; [reflexivity | eexists; reflexivity]].
      intros (_ & _ & _ & _ & K). discriminate (K eq_refl).
  - cbn. split; [|left; reflexivity].
    split; [intros _; repeat split; discriminate | reflexivity].
Qed.

(** X23.  The production endpoints are used exactly when the [mainnet]
    flag is given and true; in every other case, the absent flag included,
    both endpoints are the test network's.  The REST and the websocket
    endpoint always belong to the same network, and it is always the
    [bybitglobal.com] pair: the [bybit.com] addresses assigned first are
    overwritten. *)
Theorem endpoints_follow_the_mainnet_flag (mainnet : option bool) :
  (mainnet = Some true
   /\ USE_TESTNET mainnet = false
   /\ BASE_URL mainnet = "https://api.bybitglobal.com"%string
   /\ WS_URL mainnet = "wss://stream.bybitglobal.com/v5/private"%string)
  \/ (mainnet <> Some true
      /\ USE_TESTNET mainnet = true
      /\ BASE_URL mainnet = "https://api-testnet.bybitglobal.com"%string
      /\ WS_URL mainnet = "wss://stream-testnet.bybitglobal.com/v5/private"%string).
Proof.
  destruct mainnet as [[|]|].
  - left. repeat split.
  - right. repeat split. discriminate.
  - right. repeat split. discriminate.
Qed.

(** * Binary64 arithmetic *)

(** [sizeCounterOrder] is the sizing at the exact operations. *)
Lemma sizeCounterOrder_exact
    (tradeValue tradingEquity counterEquity price : number)
    (orderType : string) (l : LotSize) :
  sizeCounterOrder tradeValue tradingEquity counterEquity price orderType l
  = sizeCounterOrderWith mul div tradeValue tradingEquity counterEquity price
      orderType l.
Proof. reflexivity. Qed.


(** ** Powers of two *)

Lemma two_power_pos (k : Z) : 0 < 2 ^ k.
Proof. apply Qpower_0_lt. reflexivity. Qed.

Lemma two_power_plus (a b : Z) : 2 ^ (a + b) == 2 ^ a * 2 ^ b.
Proof. apply Qpower_plus. discriminate. Qed.

Lemma two_power_le (a b : Z) : (a <= b)%Z -> 2 ^ a <= 2 ^ b.
Proof. intro H. apply Qpower_le_compat_l; [exact H | discriminate]. Qed.

Lemma two_power_lt (a b : Z) : (a < b)%Z -> 2 ^ a < 2 ^ b.
Proof. intro H. apply Qpower_lt_compat_l; [exact H | reflexivity]. Qed.

Lemma two_power_succ (a : Z) : 2 ^ (a + 1) == 2 * 2 ^ a.
Proof. rewrite two_power_plus. change (2 ^ 1) with 2. ring. Qed.

Lemma two_power_inject (a : Z) : (0 <= a)%Z -> inject_Z (2 ^ a) == 2 ^ a.
Proof. intro H. exact (Zpower_Qpower 2 a H). Qed.

Lemma ratio_bounds (x N D A B K : Q) :
  0 < B -> 0 < K -> A <= N < 2 * A -> B <= D < 2 * B ->
  A == K * B -> N == x * D ->
  (1 # 2) * K < x /\ x < 2 * K.
Proof.
  intros HB HK [HN1 HN2] [HD1 HD2] EA EN. split.
  - apply Qnot_le_lt. intro C.
    assert (H1 : x * D <= ((1 # 2) * K) * D) by (apply Qmult_le_compat_r; lra).
    assert (H2 : D * ((1 # 2) * K) < (2 * B) * ((1 # 2) * K)).
    { apply Qmult_lt_compat_r; lra. }
    assert (E2 : (2 * B) * ((1 # 2) * K) == A) by (rewrite EA; ring).
    lra.
  - apply Qnot_le_lt. intro C.
    assert (H1 : (2 * K) * D <= x * D) by (apply Qmult_le_compat_r; lra).
    assert (H2 : B * (2 * K) <= D * (2 * K)).
    { apply Qmult_le_compat_r; lra. }
    assert (E2 : B * (2 * K) == 2 * A) by (rewrite EA; ring).
    lra.
Qed.

Lemma ilog2_spec (q : Q) :
  0 < q -> 2 ^ Binary64.ilog2 q <= q /\ q < 2 ^ (Binary64.ilog2 q + 1).
Proof.
  intro Hq. unfold Binary64.ilog2.
  destruct q as [n d].
  assert (Hn : (0 < n)%Z).
  { unfold Qlt in Hq. simpl in Hq. lia. }
  cbn [Qnum Qden].
  set (a := Z.log2 n). set (b := Z.log2 (Z.pos d)).
  assert (Ha : (0 <= a)%Z) by apply Z.log2_nonneg.
  assert (Hb : (0 <= b)%Z) by apply Z.log2_nonneg.
  destruct (Z.log2_spec n Hn) as [Ha1 Ha2]. fold a in Ha1, Ha2.
  destruct (Z.log2_spec (Z.pos d) eq_refl) as [Hb1 Hb2]. fold b in Hb1, Hb2.
  assert (Qa1 : 2 ^ a <= inject_Z n).
  { rewrite <- two_power_inject by exact Ha. rewrite <- Zle_Qle. exact Ha1. }
  assert (Qa2 : inject_Z n < 2 * 2 ^ a).
  { rewrite <- two_power_succ, <- two_power_inject by lia.
    rewrite <- Zlt_Qlt. exact Ha2. }
  assert (Qb1 : 2 ^ b <= inject_Z (Z.pos d)).
  { rewrite <- two_power_inject by exact Hb. rewrite <- Zle_Qle. exact Hb1. }
  assert (Qb2 : inject_Z (Z.pos d) < 2 * 2 ^ b).
  { rewrite <- two_power_succ, <- two_power_inject by lia.
    rewrite <- Zlt_Qlt. exact Hb2. }
  assert (Ek : 2 ^ a == 2 ^ (a - b) * 2 ^ b).
  { rewrite <- two_power_plus. apply Qpower_comp; [reflexivity | lia]. }
  pose proof (two_power_pos a) as Pa. pose proof (two_power_pos b) as Pb.
  pose proof (two_power_pos (a - b)) as Pk.
  assert (Eq : n # d == inject_Z n / inject_Z (Z.pos d)) by apply Qmake_Qdiv.
  assert (Pd : 0 < inject_Z (Z.pos d)) by lra.
  assert (Eq' : inject_Z n == (n # d) * inject_Z (Z.pos d)).
  { rewrite Eq. field. lra. }
  destruct (ratio_bounds (n # d) (inject_Z n) (inject_Z (Z.pos d))
              (2 ^ a) (2 ^ b) (2 ^ (a - b)) Pb Pk (conj Qa1 Qa2) (conj Qb1 Qb2)
              Ek Eq') as [Lo Hi].
  set (x := n # d) in *. set (K := 2 ^ (a - b)) in *.
  destruct (Qle_bool K x) eqn:E.
  - apply Qle_bool_iff in E. split; [exact E|].
    rewrite two_power_succ. exact Hi.
  - assert (E' : x < K).
    { apply Qnot_le_lt. intro C. apply Qle_bool_iff in C. congruence. }
    replace (a - b - 1 + 1)%Z with (a - b)%Z by lia.
    split; [|exact E'].
    assert (E3 : 2 ^ (a - b - 1) == (1 # 2) * K).
    { assert (E4 : K == 2 * 2 ^ (a - b - 1)).
      { unfold K. rewrite <- two_power_succ. apply Qpower_comp; [reflexivity | lia]. }
      rewrite E4. field. }
    rewrite E3. lra.
Qed.

Lemma nearest_even_spec (x : Q) :
  Qabs (inject_Z (Binary64.nearest_even x) - x) <= 1 # 2.
Proof.
  unfold Binary64.nearest_even.
  pose proof (Qfloor_le x) as L. pose proof (Qlt_floor x) as U.
  rewrite inject_Z_plus in U. change (inject_Z 1) with 1 in U.
  apply Qabs_Qle_condition.
  destruct (Qcompare_spec (x - inject_Z (Qfloor x)) (1 # 2)) as [H|H|H];
    [destruct (Z.even (Qfloor x))| |];
    rewrite ?inject_Z_plus; change (inject_Z 1) with 1; split; lra.
Qed.

Lemma nearest_even_sign (x : Q) :
  (0 <= x -> (0 <= Binary64.nearest_even x)%Z)
  /\ (x <= 0 -> (Binary64.nearest_even x <= 0)%Z).
Proof.
  pose proof (Qfloor_le x) as L. pose proof (Qlt_floor x) as U.
  rewrite inject_Z_plus in U. change (inject_Z 1) with 1 in U.
  unfold Binary64.nearest_even. split; intro H.
  - assert (F : (0 <= Qfloor x)%Z).
    { assert (K : inject_Z (-1) < inject_Z (Qfloor x)).
      { change (inject_Z (-1)) with (-1). lra. }
      rewrite <- Zlt_Qlt in K. lia. }
    destruct (Qcompare (x - inject_Z (Qfloor x)) (1 # 2));
      [destruct (Z.even (Qfloor x))| |]; lia.
  - destruct (Qcompare_spec (x - inject_Z (Qfloor x)) (1 # 2)) as [C|C|C].
    + destruct (Z.even (Qfloor x)).
      * assert (K : inject_Z (Qfloor x) <= inject_Z 0) by (change (inject_Z 0) with 0; lra).
        rewrite <- Zle_Qle in K. exact K.
      * assert (K : inject_Z (Qfloor x) < inject_Z 0) by (change (inject_Z 0) with 0; lra).
        rewrite <- Zlt_Qlt in K. lia.
    + assert (K : inject_Z (Qfloor x) <= inject_Z 0) by (change (inject_Z 0) with 0; lra).
      rewrite <- Zle_Qle in K. exact K.
    + assert (K : inject_Z (Qfloor x) < inject_Z 0) by (change (inject_Z 0) with 0; lra).
      rewrite <- Zlt_Qlt in K. lia.
Qed.

(** ** Rounding to binary64 *)

Lemma epsilon_bounds : 0 < Binary64.epsilon /\ Binary64.epsilon <= 1 # 4.
Proof.
  unfold Binary64.epsilon. split; [apply two_power_pos|].
  change (1 # 4) with (2 ^ (-2)). apply two_power_le. lia.
Qed.

Lemma epsilon_double : 2 ^ (-52) == 2 * Binary64.epsilon.
Proof.
  unfold Binary64.epsilon. change (-52)%Z with (-53 + 1)%Z.
  apply two_power_succ.
Qed.

Lemma Finite_inj (a b : Q) : Finite a = Finite b -> a = b.
Proof. intro H. congruence. Qed.

Lemma Qabs_nonzero (q : Q) : ~ q == 0 -> 0 < Qabs q.
Proof.
  intro H. destruct (Q_dec q 0) as [[L|G]|E]; [| |contradiction].
  - rewrite Qabs_neg by lra. lra.
  - rewrite Qabs_pos by lra. lra.
Qed.

Lemma round_is_number (q : Q) : isNaN (Binary64.round q) = false.
Proof.
  unfold Binary64.round. destruct (Qeq_bool q 0) eqn:E0; [reflexivity|].
  destruct (Qle_bool _ _); [|reflexivity].
  destruct (Qcompare_spec q 0) as [C|C|C]; try reflexivity.
  apply Qeq_bool_neq in E0. contradiction.
Qed.

(** The last place in the normal range. *)
Lemma ulp_exponent_normal (q : Q) :
  2 ^ (-1022) <= Qabs q ->
  2 ^ Binary64.ulp_exponent q <= 2 * Binary64.epsilon * Qabs q.
Proof.
  intro H. unfold Binary64.ulp_exponent.
  assert (P : 0 < Qabs q) by (pose proof (two_power_pos (-1022)); lra).
  destruct (ilog2_spec (Qabs q) P) as [L1 L2].
  set (L := Binary64.ilog2 (Qabs q)) in *.
  assert (HL : (-1022 < L + 1)%Z).
  { apply (Qpower_lt_compat_l_inv 2); [lra | reflexivity]. }
  rewrite Z.max_l by lia.
  assert (E : 2 ^ (L - 52) == 2 ^ L * 2 ^ (-52)).
  { rewrite <- two_power_plus. apply Qpower_comp; [reflexivity | lia]. }
  rewrite E, epsilon_double.
  pose proof (proj1 epsilon_bounds) as Pe.
  rewrite (Qmult_comm (2 * Binary64.epsilon) (Qabs q)).
  apply Qmult_le_compat_r; lra.
Qed.

(** What [round] returns for a non-zero [q]: the multiple [m * 2^e] of the
    last place nearest to [q], or an infinity when that multiple is out of
    range. *)
Lemma round_nonzero (q : Q) :
  ~ q == 0 ->
  exists (m : Z) (P : Q),
    P = 2 ^ Binary64.ulp_exponent q
    /\ Qabs (inject_Z m * P - q) <= (1 # 2) * P
    /\ (0 <= q -> (0 <= m)%Z) /\ (q <= 0 -> (m <= 0)%Z)
    /\ ((2 ^ 1024 <= Qabs (inject_Z m * P)
         /\ Binary64.round q = infinity_of (q ?= 0))
        \/ (Qabs (inject_Z m * P) < 2 ^ 1024
            /\ Binary64.round q = Finite (Qred (inject_Z m * P)))).
Proof.
  intro H. unfold Binary64.round.
  destruct (Qeq_bool q 0) eqn:E0; [apply Qeq_bool_eq in E0; contradiction|].
  set (P := 2 ^ Binary64.ulp_exponent q).
  assert (PP : 0 < P) by apply two_power_pos.
  set (m := Binary64.nearest_even (q / P)).
  exists m, P. split; [reflexivity|].
  split.
  { pose proof (nearest_even_spec (q / P)) as N. fold m in N.
    assert (E1 : inject_Z m * P - q == (inject_Z m - q / P) * P) by (field; lra).
    rewrite E1, Qabs_Qmult, (Qabs_pos P) by lra.
    apply Qmult_le_compat_r; lra. }
  split.
  { intro Hq. apply (proj1 (nearest_even_sign (q / P))).
    apply Qle_shift_div_l; lra. }
  split.
  { intro Hq. apply (proj2 (nearest_even_sign (q / P))).
    apply Qle_shift_div_r; lra. }
  destruct (Qle_bool (2 ^ 1024) (Qabs (inject_Z m * P))) eqn:E.
  - left. split; [apply Qle_bool_iff; exact E | reflexivity].
  - right. split; [|reflexivity].
    apply Qnot_le_lt. intro C. apply Qle_bool_iff in C. congruence.
Qed.

Lemma round_zero (q : Q) : q == 0 -> Binary64.round q = Finite 0.
Proof.
  intro H. unfold Binary64.round.
  destruct (Qeq_bool q 0) eqn:E0; [reflexivity|].
  apply Qeq_bool_neq in E0. contradiction.
Qed.

(** Rounding keeps the sign. *)
Lemma round_sign (q r : Q) :
  Binary64.round q = Finite r -> (0 <= q -> 0 <= r) /\ (q <= 0 -> r <= 0).
Proof.
  intro H. destruct (Qeq_dec q 0) as [Z0|NZ].
  - rewrite (round_zero q Z0) in H. injection H as <-. split; intro; lra.
  - destruct (round_nonzero q NZ) as (m & P & EP & _ & S1 & S2 & [[_ R]|[_ R]]).
    + rewrite R in H. destruct (q ?= 0); discriminate.
    + assert (Hr : r == inject_Z m * P).
      { rewrite R in H. apply Finite_inj in H. rewrite <- H. apply Qred_correct. }
      assert (PP : 0 < P) by (rewrite EP; apply two_power_pos).
      split; intro Hq.
      * assert (K : 0 <= inject_Z m).
        { change 0 with (inject_Z 0). rewrite <- Zle_Qle. auto. }
        assert (K2 : 0 * P <= inject_Z m * P) by (apply Qmult_le_compat_r; lra).
        lra.
      * assert (K : inject_Z m <= 0).
        { change 0 with (inject_Z 0). rewrite <- Zle_Qle. auto. }
        assert (K2 : inject_Z m * P <= 0 * P) by (apply Qmult_le_compat_r; lra).
        lra.
Qed.

Lemma round_infinite (q : Q) :
  (Binary64.round q = Infinity -> 0 < q)
  /\ (Binary64.round q = NegInfinity -> q < 0).
Proof.
  destruct (Qeq_dec q 0) as [Z0|NZ].
  - rewrite (round_zero q Z0). split; discriminate.
  - destruct (round_nonzero q NZ) as (m & P & _ & _ & _ & _ & [[_ R]|[_ R]]);
      rewrite R; [|split; discriminate].
    destruct (Qcompare_spec q 0) as [C|C|C]; split; intro K;
      try discriminate; try contradiction; assumption.
Qed.

(** In the normal range the relative error of a rounding is at most
    [epsilon]. *)
Lemma round_error (q r : Q) :
  Binary64.round q = Finite r -> 2 ^ (-1022) <= Qabs q ->
  Qabs (r - q) <= Binary64.epsilon * Qabs q.
Proof.
  intros H N.
  assert (NZ : ~ q == 0).
  { intro Z0. pose proof (two_power_pos (-1022)) as P.
    rewrite Z0 in N. change (Qabs 0) with 0 in N. lra. }
  destruct (round_nonzero q NZ) as (m & P & EP & B & _ & _ & [[_ R]|[_ R]]).
  - rewrite R in H. destruct (q ?= 0); discriminate.
  - assert (Hr : r == inject_Z m * P).
    { rewrite R in H. apply Finite_inj in H. rewrite <- H. apply Qred_correct. }
    pose proof (ulp_exponent_normal q N) as U. rewrite <- EP in U.
    assert (E : r - q == inject_Z m * P - q) by lra.
    rewrite E. lra.
Qed.

(** A result of magnitude at most [2^1023] does not overflow. *)
Lemma round_finite (q : Q) :
  Qabs q <= 2 ^ 1023 -> exists r, Binary64.round q = Finite r.
Proof.
  intro H. destruct (Qeq_dec q 0) as [Z0|NZ].
  - exists 0. apply round_zero. exact Z0.
  - destruct (round_nonzero q NZ) as (m & P & EP & B & _ & _ & [[O R]|[_ R]]);
      [|eexists; exact R].
    exfalso.
    assert (U : P <= 2 ^ 971).
    { rewrite EP. apply two_power_le. unfold Binary64.ulp_exponent.
      pose proof (Qabs_nonzero q NZ) as Pq.
      destruct (ilog2_spec (Qabs q) Pq) as [L1 _].
      assert (HL : (Binary64.ilog2 (Qabs q) < 1024)%Z).
      { apply (Qpower_lt_compat_l_inv 2); [|reflexivity].
        pose proof (two_power_lt 1023 1024 eq_refl). lra. }
      lia. }
    assert (T : Qabs (inject_Z m * P) <= Qabs q + (1 # 2) * P).
    { assert (E : inject_Z m * P == (inject_Z m * P - q) + q) by ring.
      rewrite E at 1. eapply Qle_trans; [apply Qabs_triangle|]. lra. }
    assert (E1 : 2 ^ 1024 == 2 * 2 ^ 1023) by (apply (two_power_succ 1023)).
    pose proof (two_power_lt 971 1023 eq_refl) as K.
    pose proof (two_power_pos 971). lra.
Qed.

(** Positive results. *)
Lemma round_positive (q : Q) :
  0 < q ->
  Binary64.round q = Infinity
  \/ exists r,
      Binary64.round q = Finite r /\ 0 <= r
      /\ (2 ^ (-1022) <= q ->
          q * (1 - Binary64.epsilon) <= r /\ r <= q * (1 + Binary64.epsilon)).
Proof.
  intro Hq. destruct (Binary64.round q) as [| | |r] eqn:E.
  - pose proof (round_is_number q) as K. rewrite E in K. discriminate.
  - left. reflexivity.
  - apply (proj2 (round_infinite q)) in E. lra.
  - right. exists r. split; [reflexivity|].
    split; [apply (proj1 (round_sign q r E)); lra|].
    intro N. pose proof (round_error q r E) as B.
    rewrite (Qabs_pos q) in B by lra. specialize (B N).
    apply Qabs_Qle_condition in B. split; lra.
Qed.

Lemma round_positive_finite (q : Q) :
  2 ^ (-1022) <= q -> q <= 2 ^ 1023 ->
  exists r,
    Binary64.round q = Finite r
    /\ q * (1 - Binary64.epsilon) <= r /\ r <= q * (1 + Binary64.epsilon).
Proof.
  intros L U. pose proof (two_power_pos (-1022)) as P.
  destruct (round_finite q) as [r E]; [rewrite Qabs_pos; lra|].
  destruct (round_positive q) as [K|(r' & E' & _ & B)]; [lra|congruence|].
  exists r'. split; [exact E' | apply B; exact L].
Qed.

(** ** Products and quotients on binary64 *)

Lemma mul64_Finite (x y : Q) :
  Binary64.mul (Finite x) (Finite y) = Binary64.round (Qred (x * y)).
Proof. reflexivity. Qed.

Lemma div64_Finite (x y : Q) :
  ~ y == 0 ->
  Binary64.div (Finite x) (Finite y) = Binary64.round (Qred (x / y)).
Proof.
  intro H. unfold Binary64.div. rewrite div_Finite by exact H. reflexivity.
Qed.

Lemma positive_compare (y : Q) : 0 < y -> (y ?= 0) = Gt.
Proof. intro H. destruct (Qcompare_spec y 0); [lra | lra | reflexivity]. Qed.

Lemma positive_nonzero (y : Q) : 0 < y -> Qeq_bool y 0 = false.
Proof.
  intro H. destruct (Qeq_bool y 0) eqn:E; [|reflexivity].
  apply Qeq_bool_eq in E. lra.
Qed.

(** Neither operation makes a [NaN] out of a number and a positive finite
    operand. *)
Lemma div64_number (a : number) (y : Q) :
  isNaN a = false -> 0 < y -> isNaN (Binary64.div a (Finite y)) = false.
Proof.
  intros Ha Hy. unfold Binary64.div.
  destruct a as [| | |x]; [discriminate| | |]; unfold div;
    rewrite (positive_nonzero y Hy), ?(positive_compare y Hy);
    try reflexivity.
  apply round_is_number.
Qed.

Lemma mul64_number (a : number) (y : Q) :
  isNaN a = false -> 0 < y ->
  isNaN (Binary64.mul a (Finite y)) = false
  /\ isNaN (Binary64.mul (Finite y) a) = false.
Proof.
  intros Ha Hy. unfold Binary64.mul.
  destruct a as [| | |x]; [discriminate| | |]; unfold mul, sign;
    rewrite ?(positive_compare y Hy); split; try reflexivity;
    apply round_is_number.
Qed.

(** An infinite operand stays infinite. *)
Lemma mul64_Infinity (y : Q) :
  0 < y -> Binary64.mul Infinity (Finite y) = Infinity.
Proof.
  intro Hy. unfold Binary64.mul, mul, sign.
  rewrite (positive_compare y Hy). reflexivity.
Qed.

Lemma mul64_NegInfinity (y : Q) :
  0 < y -> Binary64.mul NegInfinity (Finite y) = NegInfinity.
Proof.
  intro Hy. unfold Binary64.mul, mul, sign.
  rewrite (positive_compare y Hy). reflexivity.
Qed.

Lemma div64_Infinity (y : Q) :
  0 < y -> Binary64.div Infinity (Finite y) = Infinity.
Proof.
  intro Hy. unfold Binary64.div, div.
  rewrite (positive_nonzero y Hy), (positive_compare y Hy). reflexivity.
Qed.

(** The value of a rounding of a positive result given up to [==]. *)
Lemma round_value (q' q : Q) :
  q' == q -> 0 < q ->
  Binary64.round q' = Infinity
  \/ exists r,
      Binary64.round q' = Finite r /\ 0 <= r
      /\ (2 ^ (-1022) <= q ->
          q * (1 - Binary64.epsilon) <= r /\ r <= q * (1 + Binary64.epsilon)).
Proof.
  intros E H.
  destruct (round_positive q') as [K|(r & K & P & B)]; [rewrite E; exact H| |].
  - left. exact K.
  - right. exists r. split; [exact K|]. split; [exact P|].
    intro N. rewrite <- E. apply B. rewrite E. exact N.
Qed.

Lemma round_overflow (q' q : Q) :
  q' == q -> Binary64.round q' = Infinity -> 2 ^ 1023 < q.
Proof.
  intros E H. apply Qnot_le_lt. intro C.
  pose proof (proj1 (round_infinite q') H) as P.
  destruct (round_finite q') as [r K]; [rewrite Qabs_pos; lra|].
  congruence.
Qed.

(** Magnitudes: products, inverses and quotients of values that lie between
    two powers of two. *)
Lemma between_mul (a b c d : Z) (x y : Q) :
  2 ^ a <= x <= 2 ^ b -> 2 ^ c <= y <= 2 ^ d ->
  2 ^ (a + c) <= x * y <= 2 ^ (b + d).
Proof.
  intros [X1 X2] [Y1 Y2]. rewrite !two_power_plus.
  pose proof (two_power_pos a). pose proof (two_power_pos c).
  pose proof (two_power_pos b). pose proof (two_power_pos d).
  split.
  - apply Qle_trans with (x * 2 ^ c).
    + apply Qmult_le_compat_r; lra.
    + rewrite !(Qmult_comm x). apply Qmult_le_compat_r; lra.
  - apply Qle_trans with (x * 2 ^ d).
    + rewrite !(Qmult_comm x). apply Qmult_le_compat_r; lra.
    + apply Qmult_le_compat_r; lra.
Qed.

Lemma between_inv (c d : Z) (y : Q) :
  2 ^ c <= y <= 2 ^ d -> 2 ^ (- d) <= / y <= 2 ^ (- c).
Proof.
  intros [Y1 Y2]. rewrite !Qpower_opp.
  pose proof (two_power_pos c). pose proof (two_power_pos d).
  split.
  - apply Qle_shift_inv_l; [lra|].
    rewrite Qmult_comm. apply Qle_shift_div_r; [lra|].
    rewrite Qmult_1_l. exact Y2.
  - apply Qle_shift_inv_r; [lra|].
    assert (E : 1 == / 2 ^ c * 2 ^ c) by (field; lra).
    rewrite E at 1. rewrite !(Qmult_comm (/ 2 ^ c)).
    apply Qmult_le_compat_r; [exact Y1|].
    apply Qlt_le_weak, Qinv_lt_0_compat. lra.
Qed.

Lemma between_div (a b c d : Z) (x y : Q) :
  2 ^ a <= x <= 2 ^ b -> 2 ^ c <= y <= 2 ^ d ->
  2 ^ (a - d) <= x / y <= 2 ^ (b - c).
Proof.
  intros X Y. unfold Qdiv, Z.sub.
  apply between_mul; [exact X | apply between_inv; exact Y].
Qed.

Lemma between_weaken (a b a' b' : Z) (x : Q) :
  (a' <= a)%Z -> (b <= b')%Z -> 2 ^ a <= x <= 2 ^ b -> 2 ^ a' <= x <= 2 ^ b'.
Proof.
  intros Ha Hb [X1 X2].
  pose proof (two_power_le a' a Ha). pose proof (two_power_le b b' Hb).
  split; lra.
Qed.

(** Rounding a result of ordinary magnitude: no overflow, a relative error
    of at most [epsilon], and a magnitude kept within one binade. *)
Lemma round_between (lo hi : Z) (q' q : Q) :
  q' == q -> (-1022 <= lo)%Z -> (hi <= 1023)%Z ->
  2 ^ lo <= q <= 2 ^ hi ->
  exists r,
    Binary64.round q' = Finite r
    /\ q * (1 - Binary64.epsilon) <= r /\ r <= q * (1 + Binary64.epsilon)
    /\ 2 ^ (lo - 1) <= r <= 2 ^ (hi + 1).
Proof.
  intros E Hlo Hhi [Q1 Q2].
  pose proof (two_power_pos lo) as Plo.
  pose proof (two_power_le (-1022) lo Hlo) as L.
  pose proof (two_power_le hi 1023 Hhi) as U.
  destruct (round_positive_finite q') as (r & K & B1 & B2);
    [rewrite E; lra | rewrite E; lra|].
  rewrite E in B1, B2.
  exists r. split; [exact K|]. split; [exact B1|]. split; [exact B2|].
  destruct epsilon_bounds as [E1 E2].
  assert (S1 : 2 ^ lo == 2 * 2 ^ (lo - 1)).
  { rewrite <- two_power_succ. apply Qpower_comp; [reflexivity | lia]. }
  rewrite two_power_succ.
  revert B1 B2 E1 E2. generalize Binary64.epsilon. intros e B1 B2 E1 E2.
  assert (K1 : q * e <= q * (1 # 4)).
  { rewrite !(Qmult_comm q). apply Qmult_le_compat_r; lra. }
  assert (K0 : 0 <= q * e).
  { apply Qmult_le_0_compat; lra. }
  split; lra.
Qed.

(** ** The error of the minimum-notional repair *)

Lemma cube_lower (e : Q) : 0 <= e -> e <= 1 -> 1 - 3 * e <= (1 - e) * (1 - e) * (1 - e).
Proof.
  intros H0 H1.
  assert (E : (1 - e) * (1 - e) * (1 - e) == 1 - 3 * e + e * e * (3 - e)) by ring.
  rewrite E.
  assert (K : 0 <= e * e * (3 - e)).
  { apply Qmult_le_0_compat; [apply Qmult_le_0_compat|]; lra. }
  lra.
Qed.

Lemma cube_upper (e : Q) : 0 <= e -> e <= 1 # 4 -> (1 + e) * (1 + e) * (1 + e) <= 1 + 4 * e.
Proof.
  intros H0 H1.
  assert (E : (1 + e) * (1 + e) * (1 + e) == 1 + 3 * e + e * (e * (3 + e))) by ring.
  rewrite E.
  assert (K : e * (3 + e) <= (1 # 4) * (3 + e)) by (apply Qmult_le_compat_r; lra).
  assert (K2 : e * (e * (3 + e)) <= e * 1).
  { rewrite !(Qmult_comm e). apply Qmult_le_compat_r; lra. }
  lra.
Qed.

Lemma repair_error (e mn p s A a t k r : Q) :
  0 < e -> e <= 1 # 4 -> 0 < mn -> 0 < p -> 0 < s ->
  A * p == mn ->
  A * (1 - e) <= a -> a <= A * (1 + e) ->
  a * (1 - e) <= t * s -> t * s <= a * (1 + e) ->
  k - 1 < t -> t <= k ->
  k * s * (1 - e) <= r -> r <= k * s * (1 + e) ->
  mn * (1 - 3 * e) <= r * p /\ r * p < (mn + s * p) * (1 + 4 * e).
Proof.
  intros E0 E1 Hmn Hp Hs EA A1 A2 T1 T2 K1 K2 R1 R2.
  assert (PA : 0 < A).
  { apply Qnot_le_lt. intro C.
    assert (A * p <= 0 * p) by (apply Qmult_le_compat_r; lra). lra. }
  set (c := 1 - e) in *. set (d := 1 + e) in *.
  assert (Pc : 0 < c) by (unfold c; lra).
  assert (Pd : 0 < d) by (unfold d; lra).
  split.
  - apply Qle_trans with (mn * (c * c * c)).
    { rewrite !(Qmult_comm mn). apply Qmult_le_compat_r; [|lra].
      apply cube_lower; lra. }
    assert (S1 : A * c * c <= a * c) by (apply Qmult_le_compat_r; lra).
    assert (S2 : t * s <= k * s) by (apply Qmult_le_compat_r; lra).
    assert (S3 : A * c * c * c <= k * s * c).
    { apply Qmult_le_compat_r; lra. }
    assert (S4 : A * c * c * c * p <= r * p).
    { apply Qmult_le_compat_r; lra. }
    assert (S5 : mn * (c * c * c) == A * c * c * c * p) by (rewrite <- EA; ring).
    lra.
  - apply Qlt_le_trans with ((mn + s * p) * (d * d * d)).
    2:{ rewrite !(Qmult_comm (mn + s * p)). apply Qmult_le_compat_r.
        - apply cube_upper; lra.
        - assert (0 < s * p) by (apply Qmult_lt_0_compat; lra). lra. }
    assert (S1 : a * d <= A * d * d) by (apply Qmult_le_compat_r; lra).
    assert (S2 : k * s < (t + 1) * s) by (apply Qmult_lt_compat_r; lra).
    assert (S3 : k * s * d < (A * d * d + s) * d).
    { apply Qmult_lt_compat_r; [lra|].
      assert (E : (t + 1) * s == t * s + s) by ring. lra. }
    assert (S4 : r * p < (A * d * d + s) * d * p).
    { apply Qle_lt_trans with (k * s * d * p).
      - apply Qmult_le_compat_r; lra.
      - apply Qmult_lt_compat_r; lra. }
    assert (S5 : (A * d * d + s) * d * p == mn * (d * d * d) + s * p * d).
    { rewrite <- EA. ring. }
    assert (S6 : s * p * d <= s * p * (d * d * d)).
    { assert (Psp : 0 < s * p) by (apply Qmult_lt_0_compat; lra).
      rewrite !(Qmult_comm (s * p)). apply Qmult_le_compat_r; [|lra].
      assert (D1 : 1 <= d) by (unfold d; lra).
      assert (D2 : d * 1 <= d * d).
      { rewrite !(Qmult_comm d). apply Qmult_le_compat_r; lra. }
      assert (D3 : 1 * d <= d * d * d).
      { apply Qmult_le_compat_r; lra. }
      lra. }
    assert (S7 : (mn + s * p) * (d * d * d) == mn * (d * d * d) + s * p * (d * d * d)) by ring.
    lra.
Qed.

Lemma ceil_Finite (t : Q) : Math.ceil (Finite t) = Finite (inject_Z (Qceiling t)).
Proof. reflexivity. Qed.

Lemma Qceiling_bounds (t : Q) :
  inject_Z (Qceiling t) - 1 < t /\ t <= inject_Z (Qceiling t).
Proof.
  split; [|apply Qle_ceiling].
  pose proof (Qceiling_lt t) as H.
  unfold Z.sub in H. rewrite inject_Z_plus in H.
  change (inject_Z (- (1))) with (- (1)) in H. lra.
Qed.

Lemma Qceiling_positive (t : Q) : 0 < t -> 1 <= inject_Z (Qceiling t).
Proof.
  intro H. pose proof (Qle_ceiling t) as K.
  assert (P : inject_Z 0 < inject_Z (Qceiling t)).
  { change (inject_Z 0) with 0. lra. }
  rewrite <- Zlt_Qlt in P.
  change 1 with (inject_Z 1). rewrite <- Zle_Qle. lia.
Qed.

(** The repair of line 310 on binary64, for a minimum notional, a price and
    a step of ordinary magnitude: nothing overflows, the result is the
    rounded product of the step and the ceiling [k] of the computed
    quotient, and its notional misses the minimum by three roundings at
    most and exceeds it by less than a step and four roundings. *)
Lemma repair64_spec (mn p s : Q) :
  moderate mn -> moderate p -> moderate s ->
  exists (k : Z) (t r : Q),
    Binary64.div (Binary64.div (Finite mn) (Finite p)) (Finite s) = Finite t
    /\ inject_Z k - 1 < t /\ t <= inject_Z k
    /\ Binary64.mul (Math.ceil (Finite t)) (Finite s) = Finite r
    /\ Binary64.mul (Finite (inject_Z k)) (Finite s) = Finite r
    /\ Qabs (r - inject_Z k * s) <= Binary64.epsilon * (inject_Z k * s)
    /\ mn * (1 - 3 * Binary64.epsilon) <= r * p
    /\ r * p < (mn + s * p) * (1 + 4 * Binary64.epsilon).
Proof.
  intros Hmn Hp Hs.
  pose proof (two_power_pos (-255)) as P255.
  assert (Pmn : 0 < mn) by (destruct Hmn; lra).
  assert (Pp : 0 < p) by (destruct Hp; lra).
  assert (Ps : 0 < s) by (destruct Hs; lra).
  destruct epsilon_bounds as [E0 E1].
  (* mn / p *)
  pose proof (between_div _ _ _ _ mn p Hmn Hp) as BA.
  destruct (round_between (-255 - 255) (255 - -255) (Qred (mn / p)) (mn / p))
    as (a & Ea & A1 & A2 & Ba); [apply Qred_correct | lia | lia | exact BA |].
  rewrite (div64_Finite mn p) by lra. rewrite Ea.
  assert (Pa : 0 < a).
  { pose proof (two_power_pos (-255 - 255 - 1)). destruct Ba. lra. }
  (* a / s *)
  pose proof (between_div _ _ _ _ a s Ba Hs) as BT.
  destruct (round_between (-255 - 255 - 1 - 255) (255 - -255 + 1 - -255)
              (Qred (a / s)) (a / s))
    as (t & Et & T1 & T2 & Bt); [apply Qred_correct | lia | lia | exact BT |].
  rewrite (div64_Finite a s) by lra. rewrite Et.
  assert (Pt : 0 < t).
  { pose proof (two_power_pos (-255 - 255 - 1 - 255 - 1)). destruct Bt. lra. }
  (* the ceiling *)
  set (k := Qceiling t).
  destruct (Qceiling_bounds t) as [K1 K2]. fold k in K1, K2.
  pose proof (Qceiling_positive t Pt) as K3. fold k in K3.
  assert (Bk : 2 ^ 0 <= inject_Z k <= 2 ^ 768).
  { split; [exact K3|].
    destruct Bt as [_ Bt].
    pose proof (two_power_le 0 767 ltac:(lia)) as L0.
    change (2 ^ 0) with 1 in L0.
    assert (S1 : 2 ^ 768 == 2 * 2 ^ 767) by (apply (two_power_succ 767)).
    assert (S2 : (255 - -255 + 1 - -255 + 1 = 767)%Z) by lia.
    rewrite S2 in Bt. lra. }
  pose proof (between_mul _ _ _ _ (inject_Z k) s Bk Hs) as BR.
  destruct (round_between (0 + -255) (768 + 255) (Qred (inject_Z k * s))
              (inject_Z k * s))
    as (r & Er & R1 & R2 & Br); [apply Qred_correct | lia | lia | exact BR |].
  exists k, t, r.
  split; [reflexivity|]. split; [exact K1|]. split; [exact K2|].
  rewrite ceil_Finite. fold k. rewrite mul64_Finite.
  split; [exact Er|]. split; [exact Er|].
  assert (Pks : 0 < inject_Z k * s) by (apply Qmult_lt_0_compat; lra).
  split.
  { apply Qabs_Qle_condition.
    revert R1 R2 Pks. generalize (inject_Z k * s). intros ks R1 R2 Pks.
    split; lra. }
  apply (repair_error Binary64.epsilon mn p s (mn / p) a t (inject_Z k) r);
    try assumption.
  - field. lra.
  - assert (E : a * (1 - Binary64.epsilon) == a / s * (1 - Binary64.epsilon) * s)
      by (field; lra).
    rewrite E. apply Qmult_le_compat_r; lra.
  - assert (E : a * (1 + Binary64.epsilon) == a / s * (1 + Binary64.epsilon) * s)
      by (field; lra).
    rewrite E. apply Qmult_le_compat_r; lra.
Qed.

(** ** The clamps on numbers *)

Lemma clamp_number (mi ma : Q) (x : number) :
  mi <= ma -> isNaN x = false ->
  exists b,
    Math.max (Finite mi) (Math.min (Finite ma) x) = Finite b
    /\ mi <= b <= ma
    /\ (x = Finite b \/ b = mi \/ b = ma)
    /\ (lt (Finite ma) x = true \/ x = NegInfinity
        \/ exists v, x = Finite v /\ v <= b).
Proof.
  intros H N. destruct x as [| | |v]; [discriminate| | |].
  - unfold Math.min. cbn [lt].
    destruct (max_Finite mi ma) as [[-> K]|[-> K]].
    + exists ma. repeat split; try lra; auto.
    + exists mi. repeat split; try lra; auto.
  - exists mi. split; [reflexivity|]. repeat split; try lra; auto.
  - destruct (min_Finite ma v) as [[-> Hx]|[-> Hx]].
    + destruct (max_Finite mi v) as [[-> Hy]|[-> Hy]].
      * exists v. repeat split; try lra; auto.
        right; right. exists v. split; [reflexivity | lra].
      * exists mi. repeat split; try lra; auto.
        right; right. exists v. split; [reflexivity | lra].
    + destruct (max_Finite mi ma) as [[-> Hy]|[-> Hy]].
      * exists ma. repeat split; try lra; auto.
        destruct (Qlt_le_dec ma v) as [L|L].
        -- left. apply lt_Finite. exact L.
        -- right; right. exists v. split; [reflexivity | lra].
      * exists mi. repeat split; try lra; auto.
        destruct (Qlt_le_dec ma v) as [L|L].
        -- left. apply lt_Finite. exact L.
        -- right; right. exists v. split; [reflexivity | lra].
Qed.

Lemma market_cap_number (orderType : string) (b mk : Q) :
  exists m,
    (if String.eqb orderType "Market"
     then Math.min (Finite b) (Finite mk) else Finite b) = Finite m
    /\ (m = b \/ (m = mk /\ mk < b))
    /\ m <= b.
Proof.
  destruct (String.eqb orderType "Market").
  - destruct (min_Finite b mk) as [[-> Hx]|[-> Hx]].
    + exists mk. split; [reflexivity|]. split; [right; split; [reflexivity | exact Hx] | lra].
    + exists b. split; [reflexivity|]. split; [left; reflexivity | lra].
  - exists b. split; [reflexivity|]. split; [left; reflexivity | lra].
Qed.

(** [Math.round] and [Math.ceil] give an integer or keep an infinity. *)
Lemma round_shape (t : number) :
  isNaN t = false ->
  Math.round t = Infinity \/ Math.round t = NegInfinity
  \/ exists k : Z, Math.round t = Finite (inject_Z k).
Proof.
  intro N. destruct t as [| | |v]; [discriminate | auto | auto |].
  right; right. eexists. reflexivity.
Qed.

Lemma ceil_shape (t : number) :
  isNaN t = false ->
  Math.ceil t = Infinity \/ Math.ceil t = NegInfinity
  \/ exists k : Z, Math.ceil t = Finite (inject_Z k).
Proof.
  intro N. destruct t as [| | |v]; [discriminate | auto | auto |].
  right; right. eexists. reflexivity.
Qed.

(** The product of an integer or an infinity with a positive step. *)
Lemma stepped_shape (i : number) (s : Q) :
  0 < s ->
  (i = Infinity \/ i = NegInfinity \/ exists k : Z, i = Finite (inject_Z k)) ->
  isNaN (Binary64.mul i (Finite s)) = false
  /\ forall q, Binary64.mul i (Finite s) = Finite q ->
               exists k : Z, Binary64.mul (Finite (inject_Z k)) (Finite s) = Finite q.
Proof.
  intros Hs [->|[->|(k & ->)]].
  - rewrite mul64_Infinity by exact Hs. split; [reflexivity | discriminate].
  - rewrite mul64_NegInfinity by exact Hs. split; [reflexivity | discriminate].
  - split; [apply round_is_number|]. intros q E. exists k. exact E.
Qed.

(** A positive rounded multiple of the step is within [epsilon] of the
    multiple. *)
Lemma grid_accuracy (k : Z) (s q : Q) :
  0 < s -> Binary64.mul (Finite (inject_Z k)) (Finite s) = Finite q ->
  0 < q -> 2 ^ (-1022) <= s ->
  Qabs (q - inject_Z k * s) <= Binary64.epsilon * (inject_Z k * s).
Proof.
  intros Hs E Hq N. rewrite mul64_Finite in E.
  pose proof (Qred_correct (inject_Z k * s)) as C.
  assert (Pk : (0 < k)%Z).
  { destruct (Z_lt_le_dec 0 k) as [L|L]; [exact L|exfalso].
    assert (K : inject_Z k <= 0).
    { change 0 with (inject_Z 0). rewrite <- Zle_Qle. exact L. }
    assert (K2 : inject_Z k * s <= 0 * s) by (apply Qmult_le_compat_r; lra).
    pose proof (proj2 (round_sign _ _ E)) as S.
    assert (q <= 0) by (apply S; rewrite C; lra). lra. }
  assert (K1 : 1 <= inject_Z k).
  { change 1 with (inject_Z 1). rewrite <- Zle_Qle. lia. }
  assert (K2 : 1 * s <= inject_Z k * s) by (apply Qmult_le_compat_r; lra).
  pose proof (round_error _ _ E) as B.
  assert (A : Qabs (Qred (inject_Z k * s)) == inject_Z k * s).
  { rewrite C. apply Qabs_pos. lra. }
  rewrite A in B.
  assert (D : q - inject_Z k * s == q - Qred (inject_Z k * s)) by (rewrite C; reflexivity).
  rewrite D. apply B. lra.
Qed.

(** ** The quantity sizer *)

(** Scenario 1 of the specification on binary64: the same quantity. *)
Example sizing_scenario_1_binary64 :
  finalCounterQty
    (Binary64.sizeCounterOrder (Binary64.parseFloat "500")
       (Binary64.ToNumber "10000") (Binary64.ToNumber "1000")
       (Binary64.ToNumber "100") "Limit" (Binary64.lotSizeOf sample_filter))
  = Finite (1 # 2).
Proof. vm_compute. reflexivity. Qed.

(** The notional of a quantity [m] at or above [minOrderQty] when the test
    of line 309 does not fire. *)
Lemma notional_not_below (m p mn minq : Q) :
  0 < minq -> minq <= m -> 2 ^ (-255) <= minq -> moderate p -> moderate mn ->
  lt (Binary64.mul (Finite m) (Finite p)) (Finite mn) = false ->
  mn * (1 - Binary64.epsilon) <= m * p.
Proof.
  intros Hminq Hm Lq [P1 P2] [M1 M2] Hlt.
  pose proof (two_power_pos (-255)) as P255.
  destruct epsilon_bounds as [E0 E1].
  assert (Pmp : 0 < m * p) by (apply Qmult_lt_0_compat; lra).
  assert (Lmp : 2 ^ (-1022) <= m * p).
  { assert (B : 2 ^ (-255 + -255) <= m * p <= 2 ^ (0 + 0)
                \/ 2 ^ (-255 + -255) <= m * p).
    { right. rewrite two_power_plus.
      apply Qle_trans with (m * 2 ^ (-255)).
      - apply Qmult_le_compat_r; lra.
      - rewrite !(Qmult_comm m). apply Qmult_le_compat_r; lra. }
    pose proof (two_power_le (-1022) (-255 + -255) ltac:(lia)).
    destruct B as [[B _]|B]; lra. }
  rewrite mul64_Finite in Hlt.
  destruct (round_value (Qred (m * p)) (m * p)) as [K|(r & K & _ & B)];
    [apply Qred_correct | exact Pmp | |].
  - pose proof (round_overflow _ _ (Qred_correct (m * p)) K) as O.
    pose proof (two_power_le 255 1023 ltac:(lia)).
    assert (mn * Binary64.epsilon >= 0).
    { apply Qmult_le_0_compat; lra. }
    lra.
  - rewrite K in Hlt. apply lt_Finite_false in Hlt.
    destruct (B Lmp) as [_ B2].
    assert (S1 : mn * (1 - Binary64.epsilon)
                 <= m * p * (1 + Binary64.epsilon) * (1 - Binary64.epsilon)).
    { apply Qmult_le_compat_r; lra. }
    assert (S2 : m * p * (1 + Binary64.epsilon) * (1 - Binary64.epsilon)
                 == m * p - m * p * (Binary64.epsilon * Binary64.epsilon)) by ring.
    assert (S3 : 0 <= m * p * (Binary64.epsilon * Binary64.epsilon)).
    { apply Qmult_le_0_compat; [lra|]. apply Qmult_le_0_compat; lra. }
    lra.
Qed.

(** C1 (as amended).  When the constraints satisfy
    [0 < minOrderQty <= maxMktOrderQty <= maxOrderQty] and [qtyStep > 0], the
    two equities and the reference price are positive and the executed value
    is finite, the quantity computed at lines 289-317 in binary64 is a
    finite number within [minOrderQty, maxOrderQty].  It is one of the
    bounds [minOrderQty], [maxMktOrderQty], [maxOrderQty], or the rounded
    product of an integer [k] and [qtyStep], which differs from [k * qtyStep]
    by a relative error of at most [2^-53].  For a price, a step and a
    minimum notional of ordinary magnitude, unless the quantity was clamped
    down by [maxOrderQty], its notional is at least [minNotionalValue] up to
    three roundings. *)
Theorem sizer_output_within_constraints
    (tradeValue tradingEquity counterEquity price : Q)
    (maxq minq stp maxmkt minnot : Q) (orderType : string) :
  0 < minq -> minq <= maxmkt -> maxmkt <= maxq -> 0 < stp ->
  0 < tradingEquity -> 0 < counterEquity -> 0 < price ->
  exists q,
    finalCounterQty
      (Binary64.sizeCounterOrder (Finite tradeValue) (Finite tradingEquity)
         (Finite counterEquity) (Finite price) orderType
         (lotSize maxq minq stp maxmkt minnot))
    = Finite q
    /\ minq <= q <= maxq
    /\ (q == minq \/ q == maxmkt \/ q == maxq
        \/ exists k : Z,
            Binary64.mul (Finite (inject_Z k)) (Finite stp) = Finite q
            /\ (2 ^ (-1022) <= stp ->
                Qabs (q - inject_Z k * stp)
                <= Binary64.epsilon * (inject_Z k * stp)))
    /\ (moderate price -> moderate stp -> moderate minnot ->
        2 ^ (-255) <= minq ->
        lt (Finite maxq)
           (minNotionalAdjustedCounterQty
              (Binary64.sizeCounterOrder (Finite tradeValue)
                 (Finite tradingEquity) (Finite counterEquity) (Finite price)
                 orderType (lotSize maxq minq stp maxmkt minnot)))
        = true
        \/ minnot * (1 - 3 * Binary64.epsilon) <= q * price).
Proof.
  intros Hmin Hmk Hmax Hstp Hte Hce Hp.
  unfold Binary64.sizeCounterOrder, sizeCounterOrderWith, lotSize.
  cbn [finalCounterQty minNotionalAdjustedCounterQty
       maxQty minQty step maxMarketQty minNotional].
  destruct epsilon_bounds as [E0 E1].
  (* the stepped quantity *)
  set (T := Binary64.div
              (Binary64.div
                 (Binary64.mul (Finite counterEquity)
                    (Binary64.div (Finite tradeValue) (Finite tradingEquity)))
                 (Finite price)) (Finite stp)).
  assert (NT : isNaN T = false).
  { unfold T. apply div64_number; [|exact Hstp].
    apply div64_number; [|exact Hp].
    apply mul64_number; [|exact Hce].
    apply div64_number; [reflexivity | exact Hte]. }
  destruct (stepped_shape (Math.round T) stp Hstp (round_shape T NT))
    as [NS GS].
  set (STEPPED := Binary64.mul (Math.round T) (Finite stp)) in *.
  destruct (clamp_number minq maxq STEPPED) as (b & -> & Rb & Pb & _);
    [lra | exact NS |].
  destruct (market_cap_number orderType b maxmkt) as (m & -> & Pm & Lm).
  assert (Rm : minq <= m <= maxq) by (destruct Pm as [->|[-> _]]; lra).
  (* where a quantity on the grid comes from *)
  assert (grid : forall q : Q,
             0 < q ->
             (exists k : Z,
                 Binary64.mul (Finite (inject_Z k)) (Finite stp) = Finite q) ->
             exists k : Z,
               Binary64.mul (Finite (inject_Z k)) (Finite stp) = Finite q
               /\ (2 ^ (-1022) <= stp ->
                   Qabs (q - inject_Z k * stp)
                   <= Binary64.epsilon * (inject_Z k * stp))).
  { intros q Pq [k Ek]. exists k. split; [exact Ek|].
    intro N. apply (grid_accuracy k stp q Hstp Ek Pq N). }
  assert (Gm : m == minq \/ m == maxmkt \/ m == maxq
               \/ exists k : Z,
                   Binary64.mul (Finite (inject_Z k)) (Finite stp) = Finite m
                   /\ (2 ^ (-1022) <= stp ->
                       Qabs (m - inject_Z k * stp)
                       <= Binary64.epsilon * (inject_Z k * stp))).
  { destruct Pm as [->|[-> _]]; [|right; left; reflexivity].
    destruct Pb as [Es | [-> | ->]];
      [|left; reflexivity | right; right; left; reflexivity].
    right; right; right. apply grid; [lra|]. apply GS. exact Es. }
  destruct (lt (Binary64.mul (Finite m) (Finite price)) (Finite minnot)) eqn:Hlt.
  - (* the repair fires *)
    set (U := Binary64.div (Binary64.div (Finite minnot) (Finite price))
                (Finite stp)).
    assert (NU : isNaN U = false).
    { unfold U. apply div64_number; [|exact Hstp].
      apply div64_number; [reflexivity | exact Hp]. }
    destruct (stepped_shape (Math.ceil U) stp Hstp (ceil_shape U NU))
      as [NR GR].
    set (REPAIRED := Binary64.mul (Math.ceil U) (Finite stp)) in *.
    destruct (clamp_number minq maxq REPAIRED) as (q & -> & Rq & Pq & Vq);
      [lra | exact NR |].
    exists q. split; [reflexivity|]. split; [exact Rq|]. split.
    + destruct Pq as [Er | [-> | ->]];
        [|left; reflexivity | right; right; left; reflexivity].
      right; right; right. apply grid; [lra|]. apply GR. exact Er.
    + intros Mp Ms Mn Lq.
      destruct Vq as [V|[V|(v & Ev & Lv)]]; [left; exact V| |].
      * exfalso.
        destruct (repair64_spec minnot price stp Mn Mp Ms)
          as (k & t & r & Et & _ & _ & Er & _).
        unfold REPAIRED, U in V. rewrite Et, Er in V. discriminate.
      * right.
        destruct (repair64_spec minnot price stp Mn Mp Ms)
          as (k & t & r & Et & _ & _ & Er & _ & _ & Lo & _).
        unfold REPAIRED, U in Ev. rewrite Et, Er in Ev.
        apply Finite_inj in Ev. subst v.
        apply Qle_trans with (r * price); [exact Lo|].
        apply Qmult_le_compat_r; lra.
  - (* the repair does not fire *)
    destruct (clamp_number minq maxq (Finite m)) as (q & -> & Rq & Pq & Vq);
      [lra | reflexivity |].
    exists q. split; [reflexivity|]. split; [exact Rq|]. split.
    + destruct Pq as [Er | [-> | ->]];
        [|left; reflexivity | right; right; left; reflexivity].
      apply Finite_inj in Er. subst q. exact Gm.
    + intros Mp Ms Mn Lq. right.
      assert (Lv : m <= q).
      { destruct Vq as [V|[V|(v & Ev & Lv)]].
        - apply lt_Finite in V. lra.
        - discriminate.
        - apply Finite_inj in Ev. subst v. exact Lv. }
      pose proof (notional_not_below m price minnot minq Hmin (proj1 Rm) Lq Mp Mn Hlt)
        as N.
      assert (Pmn : 0 < minnot).
      { destruct Mn. pose proof (two_power_pos (-255)). lra. }
      assert (S1 : m * price <= q * price) by (apply Qmult_le_compat_r; lra).
      assert (S2 : 0 <= minnot * Binary64.epsilon).
      { apply Qmult_le_0_compat; lra. }
      lra.
Qed.

Lemma sizer_output_within_constraints_witness :
  (0 < tenth) /\ (tenth <= 50) /\ (50 <= 100) /\ (0 < tenth)
  /\ 0 < 100 /\ 0 < 100 /\ 0 < 100
  /\ (moderate 100 /\ moderate tenth /\ moderate 5 /\ 2 ^ (-255) <= tenth)
  /\ exists q,
      finalCounterQty
        (Binary64.sizeCounterOrder (Finite 35) (Finite 100) (Finite 100)
           (Finite 100) "Limit" (lotSize 100 tenth tenth 50 5))
      = Finite q
      /\ tenth <= q <= 100
      /\ (q == tenth \/ q == 50 \/ q == 100
          \/ exists k : Z,
              Binary64.mul (Finite (inject_Z k)) (Finite tenth) = Finite q
              /\ (2 ^ (-1022) <= tenth ->
                  Qabs (q - inject_Z k * tenth)
                  <= Binary64.epsilon * (inject_Z k * tenth)))
      /\ (lt (Finite 100)
             (minNotionalAdjustedCounterQty
                (Binary64.sizeCounterOrder (Finite 35) (Finite 100)
                   (Finite 100) (Finite 100) "Limit"
                   (lotSize 100 tenth tenth 50 5)))
          = true
          \/ 5 * (1 - 3 * Binary64.epsilon) <= q * 100).
Proof.
  assert (T : 0 < tenth /\ tenth <= 50) by (unfold tenth; split; lra).
  assert (M : moderate 100 /\ moderate tenth /\ moderate 5
              /\ 2 ^ (-255) <= tenth).
  { unfold moderate. repeat split; apply Qle_bool_iff; vm_compute; reflexivity. }
  repeat (split; [lra|]). split; [exact M|].
  destruct M as (M1 & M2 & M3 & M4).
  destruct (sizer_output_within_constraints 35 100 100 100 100 tenth tenth 50 5
              "Limit") as (q & E & R & G & N); try lra.
  exists q. split; [exact E|]. split; [exact R|]. split; [exact G|].
  apply N; assumption.
Defined.

(** C1 as stated fails, in five ways.  (1) A bound need not be a multiple of
    the step: with [minOrderQty = 3] and [qtyStep = 2] an executed value of 0
    gives the quantity 3.  (2) A product with the step is rounded: with the
    filter 100, 0.1, 0.1, 50, 5, an executed value of 35, both equities 100
    and the price 100, the raw quantity 0.35 is divided by the step to
    3.4999999999999996, rounded to 3 and multiplied to 0.30000000000000004,
    which is neither a bound nor a multiple of the step, be the step the
    number 0.1 or its binary64 value; it is printed as "0.3" where exact
    arithmetic gives 0.4.  (3) The notional can miss the minimum: with a
    minimum notional of 100, the price 0.00000011 and the step 0.000001 the
    repaired quantity is 909090909.090909, below [maxOrderQty], and its
    notional is below 100.  (4) An executed value that is not a number gives
    a quantity that is not a number.  (5) The quantity printed at line 319
    can leave the bounds and the grid: 0.75, with the step 0.25 and
    [maxOrderQty = 0.75], is printed as "0.8". *)
Lemma sizer_output_not_multiple_of_step :
  ((0 < 3 /\ 3 <= 10 /\ 10 <= 10 /\ 0 < 2 /\ 0 < 1)
   /\ finalCounterQty
        (Binary64.sizeCounterOrder (Finite 0) (Finite 1) (Finite 1) (Finite 1)
           "Limit" (lotSize 10 3 2 10 1))
      = Finite 3
   /\ ~ multiple_of 3 2)
  /\ (Binary64.lotSizeOf sample_filter = lotSize 100 tenth tenth 50 5
      /\ (0 < tenth /\ tenth <= 50 /\ 50 <= 100 /\ 0 < 100)
      /\ finalCounterQty
           (Binary64.sizeCounterOrder (Binary64.parseFloat "35")
              (Binary64.ToNumber "100") (Binary64.ToNumber "100")
              (Binary64.ToNumber "100") "Limit"
              (Binary64.lotSizeOf sample_filter))
         = Finite (1351079888211149 # 4503599627370496)
      /\ ~ multiple_of (1351079888211149 # 4503599627370496) tenth
      /\ ~ multiple_of (1351079888211149 # 4503599627370496) (1 # 10)
      /\ (tenth < (1351079888211149 # 4503599627370496)
          /\ (1351079888211149 # 4503599627370496) < 50)
      /\ counterQtyString exponential_unmodelled
           (Finite (1351079888211149 # 4503599627370496)) (Finite tenth)
         = Normal "0.3"%string
      /\ finalCounterQty
           (sizeCounterOrder (parseFloat "35") (ToNumber "100")
              (ToNumber "100") (ToNumber "100") "Limit"
              (lotSizeOf sample_filter))
         = Finite (2 # 5))
  /\ (Binary64.ToNumber "0.000001" = Finite millionth
      /\ Binary64.ToNumber "0.00000011" = Finite price_11e_8
      /\ (0 < millionth /\ millionth <= 1000000000000 /\ 0 < price_11e_8)
      /\ (moderate price_11e_8 /\ moderate millionth /\ moderate 100)
      /\ minNotionalAdjustedCounterQty
           (Binary64.sizeCounterOrder (Finite 0) (Finite 1) (Finite 1)
              (Finite price_11e_8) "Limit"
              (lotSize 1000000000000 millionth millionth 1000000000000 100))
         = Finite (953250909090909 # 1048576)
      /\ finalCounterQty
           (Binary64.sizeCounterOrder (Finite 0) (Finite 1) (Finite 1)
              (Finite price_11e_8) "Limit"
              (lotSize 1000000000000 millionth millionth 1000000000000 100))
         = Finite (953250909090909 # 1048576)
      /\ (953250909090909 # 1048576) < 1000000000000
      /\ (953250909090909 # 1048576) * price_11e_8 < 100)
  /\ (Binary64.parseFloat "" = NaN
      /\ finalCounterQty
           (Binary64.sizeCounterOrder NaN (Finite 1) (Finite 1) (Finite 1)
              "Limit" (lotSize 10 3 2 10 1))
         = NaN)
  /\ (finalCounterQty
        (Binary64.sizeCounterOrder (Finite 75) (Finite 100) (Finite 1)
           (Finite 1) "Limit"
           (lotSize (3 # 4) (1 # 4) (1 # 4) (3 # 4) (1 # 10)))
      = Finite (3 # 4)
      /\ counterQtyString exponential_unmodelled (Finite (3 # 4))
           (Finite (1 # 4))
         = Normal "0.8"%string
      /\ (3 # 4) < (8 # 10)
      /\ ~ multiple_of (8 # 10) (1 # 4)).
Proof.
  split; [|split; [|split; [|split]]].
  - split; [repeat split; lra|]. split; [vm_compute; reflexivity|].
    intros [k Hk]. unfold Qeq in Hk. simpl in Hk. lia.
  - split; [vm_compute; reflexivity|].
    split; [unfold tenth; repeat split; lra|].
    split; [vm_compute; reflexivity|].
    split.
    { intros [k Hk]. unfold Qeq, tenth in Hk. cbn in Hk. lia. }
    split.
    { intros [k Hk]. unfold Qeq in Hk. cbn in Hk. lia. }
    split; [unfold tenth; split; lra|].
    split; vm_compute; reflexivity.
  - split; [vm_compute; reflexivity|].
    split; [vm_compute; reflexivity|].
    split; [unfold millionth, price_11e_8; repeat split; lra|].
    split.
    { unfold moderate. repeat split; apply Qle_bool_iff; vm_compute; reflexivity. }
    split; [vm_compute; reflexivity|].
    split; [vm_compute; reflexivity|].
    split; [lra|]. unfold price_11e_8. lra.
  - split; vm_compute; reflexivity.
  - split; [vm_compute; reflexivity|].
    split; [vm_compute; reflexivity|].
    split; [lra|].
    intros [k Hk]. unfold Qeq in Hk. cbn in Hk. lia.
Qed.

(** C5 (as amended).  Whenever the notional of the market-adjusted quantity
    is below [minNotionalValue], the quantity is recomputed as
    [Math.ceil(minNotional / price / step) * step], every operation rounded
    to binary64.  For a minimum notional, a price and a step of ordinary
    magnitude the result is the rounded product of the step and the ceiling
    [k] of the computed quotient; it differs from [k * step] by a relative
    error of at most [2^-53], its notional is at least the minimum up to
    three roundings, and exceeds it by less than one step and four
    roundings.  A notional of 4 against a minimum of 5, at price 10 and
    step 1, is repaired to the quantity 1. *)
Theorem min_notional_repair_rounds_up :
  (forall (tradeValue tradingEquity counterEquity price : number)
          (orderType : string) (l : LotSize),
      lt (notionalValue
            (Binary64.sizeCounterOrder tradeValue tradingEquity counterEquity
               price orderType l))
         (minNotional l) = true ->
      minNotionalAdjustedCounterQty
        (Binary64.sizeCounterOrder tradeValue tradingEquity counterEquity price
           orderType l)
      = Binary64.mul
          (Math.ceil (Binary64.div (Binary64.div (minNotional l) price) (step l)))
          (step l)
      /\ forall mn p s : Q,
          minNotional l = Finite mn -> price = Finite p -> step l = Finite s ->
          moderate mn -> moderate p -> moderate s ->
          exists (k : Z) (t r : Q),
            Binary64.div (Binary64.div (Finite mn) (Finite p)) (Finite s)
            = Finite t
            /\ inject_Z k - 1 < t /\ t <= inject_Z k
            /\ minNotionalAdjustedCounterQty
                 (Binary64.sizeCounterOrder tradeValue tradingEquity
                    counterEquity price orderType l)
               = Finite r
            /\ Binary64.mul (Finite (inject_Z k)) (Finite s) = Finite r
            /\ Qabs (r - inject_Z k * s) <= Binary64.epsilon * (inject_Z k * s)
            /\ mn * (1 - 3 * Binary64.epsilon) <= r * p
            /\ r * p < (mn + s * p) * (1 + 4 * Binary64.epsilon))
  /\ (notionalValue
        (Binary64.sizeCounterOrder (Finite 0) (Finite 1) (Finite 1) (Finite 10)
           "Limit" (lotSize 100 (2 # 5) 1 100 5))
      = Finite 4
      /\ minNotionalAdjustedCounterQty
           (Binary64.sizeCounterOrder (Finite 0) (Finite 1) (Finite 1)
              (Finite 10) "Limit" (lotSize 100 (2 # 5) 1 100 5))
         = Finite 1).
Proof.
  split; [|split; vm_compute; reflexivity].
  intros tradeValue tradingEquity counterEquity price orderType l H.
  assert (E : minNotionalAdjustedCounterQty
                (Binary64.sizeCounterOrder tradeValue tradingEquity
                   counterEquity price orderType l)
              = Binary64.mul
                  (Math.ceil
                     (Binary64.div (Binary64.div (minNotional l) price) (step l)))
                  (step l)).
  { unfold Binary64.sizeCounterOrder, sizeCounterOrderWith in *.
    cbn [minNotionalAdjustedCounterQty notionalValue] in *.
    rewrite H. reflexivity. }
  split; [exact E|].
  intros mn p s Hmn Hp Hs Mmn Mp Ms. rewrite E, Hmn, Hp, Hs.
  destruct (repair64_spec mn p s Mmn Mp Ms)
    as (k & t & r & Et & K1 & K2 & Er & Ek & Ea & Lo & Hi).
  exists k, t, r.
  split; [exact Et|]. split; [exact K1|]. split; [exact K2|].
  split; [rewrite Et; exact Er|].
  split; [exact Ek|]. split; [exact Ea|]. split; [exact Lo | exact Hi].
Qed.

Lemma min_notional_repair_rounds_up_witness :
  lt (notionalValue
        (Binary64.sizeCounterOrder (Finite 0) (Finite 1) (Finite 1) (Finite 10)
           "Limit" (lotSize 100 (2 # 5) 1 100 5)))
     (Finite 5) = true
  /\ (moderate 5 /\ moderate 10 /\ moderate 1)
  /\ exists (k : Z) (t r : Q),
      Binary64.div (Binary64.div (Finite 5) (Finite 10)) (Finite 1) = Finite t
      /\ inject_Z k - 1 < t /\ t <= inject_Z k
      /\ minNotionalAdjustedCounterQty
           (Binary64.sizeCounterOrder (Finite 0) (Finite 1) (Finite 1)
              (Finite 10) "Limit" (lotSize 100 (2 # 5) 1 100 5))
         = Finite r
      /\ Binary64.mul (Finite (inject_Z k)) (Finite 1) = Finite r
      /\ Qabs (r - inject_Z k * 1) <= Binary64.epsilon * (inject_Z k * 1)
      /\ 5 * (1 - 3 * Binary64.epsilon) <= r * 10
      /\ r * 10 < (5 + 1 * 10) * (1 + 4 * Binary64.epsilon).
Proof.
  assert (M : moderate 5 /\ moderate 10 /\ moderate 1).
  { unfold moderate. repeat split; apply Qle_bool_iff; vm_compute; reflexivity. }
  split; [vm_compute; reflexivity|]. split; [exact M|].
  destruct M as (M5 & M10 & M1).
  apply (proj2 (proj1 min_notional_repair_rounds_up (Finite 0) (Finite 1)
                  (Finite 1) (Finite 10) "Limit"%string
                  (lotSize 100 (2 # 5) 1 100 5) eq_refl)
           5 10 1 eq_refl eq_refl eq_refl M5 M10 M1).
Defined.

(** C5 as stated fails in binary64, in both directions.  With a minimum
    notional of 100, the price 0.00000011 and the step 0.000001 the quotient
    909090909090909.09... is computed as 909090909090909, which is its own
    ceiling, so the repair stops one step short: the quantity has a notional
    below 100, with the binary64 values and with the decimal ones.  With a
    minimum notional of 5, the price 50 and the step 0.000001 the quotient
    100000 is computed as 100000.00000000001, whose ceiling is 100001, so
    the repair goes one step further than the 100000 steps whose notional
    is 5, and which exact arithmetic gives. *)
Lemma min_notional_repair_misses_the_threshold :
  (Binary64.ToNumber "0.000001" = Finite millionth
   /\ Binary64.ToNumber "0.00000011" = Finite price_11e_8
   /\ (moderate 100 /\ moderate price_11e_8 /\ moderate millionth)
   /\ lt (notionalValue
            (Binary64.sizeCounterOrder (Finite 0) (Finite 1) (Finite 1)
               (Finite price_11e_8) "Limit"
               (lotSize 1000000000000 millionth millionth 1000000000000 100)))
         (Finite 100) = true
   /\ Math.ceil
        (Binary64.div (Binary64.div (Finite 100) (Finite price_11e_8))
           (Finite millionth))
      = Finite 909090909090909
   /\ minNotionalAdjustedCounterQty
        (Binary64.sizeCounterOrder (Finite 0) (Finite 1) (Finite 1)
           (Finite price_11e_8) "Limit"
           (lotSize 1000000000000 millionth millionth 1000000000000 100))
      = Finite (953250909090909 # 1048576)
   /\ (953250909090909 # 1048576) * price_11e_8 < 100
   /\ 909090909090909 * (1 # 1000000) * (11 # 100000000) < 100)
  /\ (lt (notionalValue
            (Binary64.sizeCounterOrder (Finite 0) (Finite 1) (Finite 1)
               (Finite 50) "Limit" (lotSize 1000 millionth millionth 1000 5)))
         (Finite 5) = true
      /\ Math.ceil
           (Binary64.div (Binary64.div (Finite 5) (Finite 50))
              (Finite millionth))
         = Finite 100001
      /\ minNotionalAdjustedCounterQty
           (Binary64.sizeCounterOrder (Finite 0) (Finite 1) (Finite 1)
              (Finite 50) "Limit" (lotSize 1000 millionth millionth 1000 5))
         = Finite (7205831461386831 # 72057594037927936)
      /\ 5 <= 100000 * (1 # 1000000) * 50
      /\ minNotionalAdjustedCounterQty
           (sizeCounterOrder (Finite 0) (Finite 1) (Finite 1) (Finite 50)
              "Limit"
              (lotSize 1000 (1 # 1000000) (1 # 1000000) 1000 5))
         = Finite (1 # 10)).
Proof.
  split.
  - split; [vm_compute; reflexivity|].
    split; [vm_compute; reflexivity|].
    split.
    { unfold moderate. repeat split; apply Qle_bool_iff; vm_compute; reflexivity. }
    split; [vm_compute; reflexivity|].
    split; [vm_compute; reflexivity|].
    split; [vm_compute; reflexivity|].
    split; [unfold price_11e_8; lra | lra].
  - split; [vm_compute; reflexivity|].
    split; [vm_compute; reflexivity|].
    split; [vm_compute; reflexivity|].
    split; [lra | vm_compute; reflexivity].
Qed.

(** ** Stepping on binary64 *)

Lemma stepping_error (e x s t k r : Q) :
  0 < e -> e <= 1 # 4 -> 0 < x -> 0 < s ->
  x * (1 - e) <= t * s -> t * s <= x * (1 + e) ->
  k - (1 # 2) <= t -> t < k + (1 # 2) -> 0 <= k ->
  k * s * (1 - e) <= r -> r <= k * s * (1 + e) ->
  Qabs (r - x) <= (1 # 2) * s + 3 * e * (x + s).
Proof.
  intros E0 E1 Hx Hs T1 T2 K1 K2 K0 R1 R2.
  assert (S1 : (k - (1 # 2)) * s <= t * s) by (apply Qmult_le_compat_r; lra).
  assert (S2 : t * s <= (k + (1 # 2)) * s) by (apply Qmult_le_compat_r; lra).
  assert (Pks : 0 <= k * s) by (apply Qmult_le_0_compat; lra).
  assert (Pex : 0 <= x * e) by (apply Qmult_le_0_compat; lra).
  assert (Pes : 0 <= s * e) by (apply Qmult_le_0_compat; lra).
  assert (Bks : k * s <= 2 * x + s).
  { assert (x * e <= x * 1).
    { rewrite !(Qmult_comm x). apply Qmult_le_compat_r; lra. }
    lra. }
  assert (Eks : k * s * e <= (2 * x + s) * e) by (apply Qmult_le_compat_r; lra).
  apply Qabs_Qle_condition. split; lra.
Qed.

Lemma Qfloor_unique (y : Q) (k : Z) :
  inject_Z k <= y -> y < inject_Z k + 1 -> Qfloor y = k.
Proof.
  intros L U.
  pose proof (Qfloor_le y) as F1. pose proof (Qlt_floor y) as F2.
  rewrite inject_Z_plus in F2. change (inject_Z 1) with 1 in F2.
  assert (A : inject_Z (Qfloor y) < inject_Z (k + 1)).
  { rewrite inject_Z_plus. change (inject_Z 1) with 1. lra. }
  assert (B : inject_Z k < inject_Z (Qfloor y + 1)).
  { rewrite inject_Z_plus. change (inject_Z 1) with 1. lra. }
  rewrite <- Zlt_Qlt in A, B. lia.
Qed.

Lemma round_Finite (t : Q) :
  Math.round (Finite t) = Finite (inject_Z (Qfloor (t + (1 # 2)))).
Proof. reflexivity. Qed.

Lemma mul64_compat (x x' p : Q) :
  x == x' -> Binary64.mul (Finite x) (Finite p) = Binary64.mul (Finite x') (Finite p).
Proof.
  intro E. rewrite !mul64_Finite. f_equal. apply Qred_complete.
  rewrite E. reflexivity.
Qed.

(** X13.  Line 292 on binary64, for a raw quantity and a step of ordinary
    magnitude: the quotient is computed without overflow, the stepped
    quantity is the rounded product of the step and the integer [k] nearest
    to the computed quotient, a tie going up, and it lies within half a step
    of the raw quantity up to three roundings. *)
Theorem stepping_rounds_to_the_nearest_multiple
    (tradeValue tradingEquity counterEquity price : number)
    (orderType : string) (l : LotSize) (x s : Q) :
  initialCounterQty
    (Binary64.sizeCounterOrder tradeValue tradingEquity counterEquity price
       orderType l)
  = Finite x ->
  step l = Finite s ->
  moderate x -> moderate s ->
  exists (t : Q) (k : Z) (r : Q),
    Binary64.div (Finite x) (Finite s) = Finite t
    /\ inject_Z k - (1 # 2) <= t /\ t < inject_Z k + (1 # 2)
    /\ steppedCounterQty
         (Binary64.sizeCounterOrder tradeValue tradingEquity counterEquity
            price orderType l)
       = Finite r
    /\ Binary64.mul (Finite (inject_Z k)) (Finite s) = Finite r
    /\ Qabs (r - x) <= (1 # 2) * s + 3 * Binary64.epsilon * (x + s).
Proof.
  intros Hx Hl Mx Ms.
  unfold Binary64.sizeCounterOrder, sizeCounterOrderWith in *.
  cbn [initialCounterQty steppedCounterQty] in *.
  rewrite Hx, Hl.
  pose proof (two_power_pos (-255)) as P255.
  assert (Px : 0 < x) by (destruct Mx; lra).
  assert (Ps : 0 < s) by (destruct Ms; lra).
  destruct epsilon_bounds as [E0 E1].
  pose proof (between_div _ _ _ _ x s Mx Ms) as BA.
  destruct (round_between (-255 - 255) (255 - -255) (Qred (x / s)) (x / s))
    as (t & Et & T1 & T2 & Bt); [apply Qred_correct | lia | lia | exact BA |].
  rewrite (div64_Finite x s) by lra. rewrite Et.
  assert (Pt : 0 < t).
  { pose proof (two_power_pos (-255 - 255 - 1)). destruct Bt. lra. }
  set (k := Qfloor (t + (1 # 2))).
  pose proof (Qfloor_le (t + (1 # 2))) as K1. fold k in K1.
  pose proof (Qlt_floor (t + (1 # 2))) as K2. fold k in K2.
  rewrite inject_Z_plus in K2. change (inject_Z 1) with 1 in K2.
  assert (K0 : (0 <= k)%Z).
  { assert (A : inject_Z (-1) < inject_Z k).
    { change (inject_Z (-1)) with (-1). lra. }
    rewrite <- Zlt_Qlt in A. lia. }
  assert (Q0 : 0 <= inject_Z k).
  { change 0 with (inject_Z 0). rewrite <- Zle_Qle. exact K0. }
  assert (TS1 : x * (1 - Binary64.epsilon) <= t * s).
  { assert (E : x * (1 - Binary64.epsilon) == x / s * (1 - Binary64.epsilon) * s)
      by (field; lra).
    rewrite E. apply Qmult_le_compat_r; lra. }
  assert (TS2 : t * s <= x * (1 + Binary64.epsilon)).
  { assert (E : x * (1 + Binary64.epsilon) == x / s * (1 + Binary64.epsilon) * s)
      by (field; lra).
    rewrite E. apply Qmult_le_compat_r; lra. }
  rewrite round_Finite. fold k. rewrite mul64_Finite.
  assert (R : exists r,
             Binary64.round (Qred (inject_Z k * s)) = Finite r
             /\ inject_Z k * s * (1 - Binary64.epsilon) <= r
             /\ r <= inject_Z k * s * (1 + Binary64.epsilon)).
  { destruct (Z.eq_dec k 0) as [Z0|NZ].
    - exists 0. rewrite Z0. split; [apply round_zero|].
      + rewrite Qred_correct. change (inject_Z 0) with 0. ring.
      + change (inject_Z 0) with 0. split; ring_simplify; lra.
    - assert (K3 : 1 <= inject_Z k).
      { change 1 with (inject_Z 1). rewrite <- Zle_Qle. lia. }
      assert (Bk : 2 ^ 0 <= inject_Z k <= 2 ^ 512).
      { split; [exact K3|]. destruct Bt as [_ Bt].
        assert (S2 : (255 - -255 + 1 = 511)%Z) by lia.
        rewrite S2 in Bt.
        assert (S1 : 2 ^ 512 == 2 * 2 ^ 511) by (apply (two_power_succ 511)).
        pose proof (two_power_le 0 511 ltac:(lia)) as L0.
        change (2 ^ 0) with 1 in L0. lra. }
      pose proof (between_mul _ _ _ _ (inject_Z k) s Bk Ms) as BR.
      destruct (round_between (0 + -255) (512 + 255) (Qred (inject_Z k * s))
                  (inject_Z k * s))
        as (r & Er & R1 & R2 & _); [apply Qred_correct | lia | lia | exact BR |].
      exists r. split; [exact Er|]. split; assumption. }
  destruct R as (r & Er & R1 & R2).
  exists t, k, r.
  split; [reflexivity|]. split; [lra|]. split; [lra|].
  split; [exact Er|]. split; [exact Er|].
  apply (stepping_error Binary64.epsilon x s t (inject_Z k) r); try assumption; lra.
Qed.

Lemma stepping_rounds_to_the_nearest_multiple_witness :
  initialCounterQty
    (Binary64.sizeCounterOrder (Finite 3) (Finite 4) (Finite 1) (Finite 1)
       "Limit" (lotSize 100 (1 # 2) (1 # 2) 100 1))
  = Finite (3 # 4)
  /\ (moderate (3 # 4) /\ moderate (1 # 2))
  /\ exists (t : Q) (k : Z) (r : Q),
      Binary64.div (Finite (3 # 4)) (Finite (1 # 2)) = Finite t
      /\ inject_Z k - (1 # 2) <= t /\ t < inject_Z k + (1 # 2)
      /\ steppedCounterQty
           (Binary64.sizeCounterOrder (Finite 3) (Finite 4) (Finite 1)
              (Finite 1) "Limit" (lotSize 100 (1 # 2) (1 # 2) 100 1))
         = Finite r
      /\ Binary64.mul (Finite (inject_Z k)) (Finite (1 # 2)) = Finite r
      /\ Qabs (r - (3 # 4))
         <= (1 # 2) * (1 # 2) + 3 * Binary64.epsilon * ((3 # 4) + (1 # 2)).
Proof.
  assert (M : moderate (3 # 4) /\ moderate (1 # 2)).
  { unfold moderate. repeat split; apply Qle_bool_iff; vm_compute; reflexivity. }
  split; [vm_compute; reflexivity|]. split; [exact M|].
  destruct M as [M1 M2].
  apply (stepping_rounds_to_the_nearest_multiple (Finite 3) (Finite 4)
           (Finite 1) (Finite 1) "Limit"%string
           (lotSize 100 (1 # 2) (1 # 2) 100 1) (3 # 4) (1 # 2));
    [vm_compute; reflexivity | reflexivity | exact M1 | exact M2].
Defined.

(** A quantity that is the rounded product of the step and an integer up to
    [2^50] is divided and rounded back to that integer. *)
Lemma stepping_is_idempotent (k : Z) (s x : Q) :
  moderate s -> (1 <= k <= 2 ^ 50)%Z ->
  Binary64.mul (Finite (inject_Z k)) (Finite s) = Finite x ->
  Math.round (Binary64.div (Finite x) (Finite s)) = Finite (inject_Z k).
Proof.
  intros Ms [K1 K2] Ex.
  pose proof (two_power_pos (-255)) as P255.
  assert (Ps : 0 < s) by (destruct Ms; lra).
  destruct epsilon_bounds as [E0 E1].
  assert (Q1 : 1 <= inject_Z k).
  { change 1 with (inject_Z 1). rewrite <- Zle_Qle. exact K1. }
  assert (Q2 : inject_Z k <= 2 ^ 50).
  { rewrite <- two_power_inject by lia. rewrite <- Zle_Qle. exact K2. }
  assert (Bk : 2 ^ 0 <= inject_Z k <= 2 ^ 50) by (split; assumption).
  pose proof (between_mul _ _ _ _ (inject_Z k) s Bk Ms) as BR.
  rewrite mul64_Finite in Ex.
  destruct (round_between (0 + -255) (50 + 255) (Qred (inject_Z k * s))
              (inject_Z k * s))
    as (x' & Ex' & X1 & X2 & Bx); [apply Qred_correct | lia | lia | exact BR |].
  assert (x' = x) by congruence. subst x'.
  assert (Px : 0 < x).
  { pose proof (two_power_pos (0 + -255 - 1)). destruct Bx. lra. }
  pose proof (between_div _ _ _ _ x s Bx Ms) as BT.
  destruct (round_between (0 + -255 - 1 - 255) (50 + 255 + 1 - -255)
              (Qred (x / s)) (x / s))
    as (t & Et & T1 & T2 & _); [apply Qred_correct | lia | lia | exact BT |].
  rewrite (div64_Finite x s) by lra. rewrite Et, round_Finite.
  f_equal. f_equal. apply Qfloor_unique.
  - (* k <= t + 1/2 *)
    assert (Ke : inject_Z k * Binary64.epsilon <= 1 # 8).
    { assert (E : 1 # 8 == 2 ^ 50 * Binary64.epsilon).
      { unfold Binary64.epsilon. rewrite <- two_power_plus. reflexivity. }
      rewrite E. apply Qmult_le_compat_r; lra. }
    revert Ke T1 T2 X1 X2 E0 E1. generalize Binary64.epsilon.
    intros e Ke T1 T2 X1 X2 E0 E1.
    assert (A1 : inject_Z k * (1 - e) <= x / s).
    { apply Qle_shift_div_l; [lra|].
      assert (E : inject_Z k * (1 - e) * s == inject_Z k * s * (1 - e)) by ring.
      rewrite E. exact X1. }
    assert (A2 : inject_Z k * (1 - e) * (1 - e) <= x / s * (1 - e)).
    { apply Qmult_le_compat_r; lra. }
    assert (A3 : inject_Z k * (1 - e) * (1 - e)
                 == inject_Z k - 2 * (inject_Z k * e) + inject_Z k * e * e) by ring.
    assert (A4 : 0 <= inject_Z k * e * e).
    { apply Qmult_le_0_compat; [apply Qmult_le_0_compat|]; lra. }
    lra.
  - (* t + 1/2 < k + 1 *)
    assert (Ke : inject_Z k * Binary64.epsilon <= 1 # 8).
    { assert (E : 1 # 8 == 2 ^ 50 * Binary64.epsilon).
      { unfold Binary64.epsilon. rewrite <- two_power_plus. reflexivity. }
      rewrite E. apply Qmult_le_compat_r; lra. }
    revert Ke T1 T2 X1 X2 E0 E1. generalize Binary64.epsilon.
    intros e Ke T1 T2 X1 X2 E0 E1.
    assert (A1 : x / s <= inject_Z k * (1 + e)).
    { apply Qle_shift_div_r; [lra|].
      assert (E : inject_Z k * (1 + e) * s == inject_Z k * s * (1 + e)) by ring.
      rewrite E. exact X2. }
    assert (A2 : x / s * (1 + e) <= inject_Z k * (1 + e) * (1 + e)).
    { apply Qmult_le_compat_r; lra. }
    assert (A3 : inject_Z k * (1 + e) * (1 + e)
                 == inject_Z k + 2 * (inject_Z k * e) + inject_Z k * e * e) by ring.
    assert (A4 : inject_Z k * e * e <= (1 # 8) * e).
    { apply Qmult_le_compat_r; lra. }
    lra.
Qed.

(** X14.  A quantity on the grid goes through the sizing unchanged: when
    the raw quantity is itself the rounded product of the step and an
    integer between 1 and [2^50], lies within [minOrderQty, maxOrderQty]
    (and is at most [maxMktOrderQty] for a Market order), and its computed
    notional is not below [minNotionalValue], the final quantity is the raw
    quantity. *)
Theorem sizing_keeps_an_admissible_quantity
    (tradeValue tradingEquity counterEquity : number)
    (price maxq minq stp maxmkt minnot x : Q) (orderType : string) (k : Z) :
  initialCounterQty
    (Binary64.sizeCounterOrder tradeValue tradingEquity counterEquity
       (Finite price) orderType (lotSize maxq minq stp maxmkt minnot))
  = Finite x ->
  moderate stp -> (1 <= k <= 2 ^ 50)%Z ->
  Binary64.mul (Finite (inject_Z k)) (Finite stp) = Finite x ->
  minq <= x -> x <= maxq ->
  (orderType = "Market"%string -> x <= maxmkt) ->
  lt (Binary64.mul (Finite x) (Finite price)) (Finite minnot) = false ->
  exists q,
    finalCounterQty
      (Binary64.sizeCounterOrder tradeValue tradingEquity counterEquity
         (Finite price) orderType (lotSize maxq minq stp maxmkt minnot))
    = Finite q
    /\ q == x.
Proof.
  intros Hx Ms Hk Eg Hlo Hhi Hmk Hn.
  unfold Binary64.sizeCounterOrder, sizeCounterOrderWith, lotSize in *.
  cbn [initialCounterQty finalCounterQty maxQty minQty step maxMarketQty
       minNotional] in *.
  rewrite Hx.
  rewrite (stepping_is_idempotent k stp x Ms Hk Eg), Eg.
  destruct (clamp_spec minq maxq x) as (b & -> & Hb & Hbc); [lra|].
  assert (Eb : b == x).
  { destruct Hbc as [F|[(F & G)|(F & G)]]; lra. }
  destruct (market_cap_spec orderType b maxmkt) as (m & -> & Hm).
  assert (Em : m == x).
  { destruct Hm as [F|(F & G & T)]; [lra|]. specialize (Hmk T). lra. }
  rewrite (mul64_compat m x price Em), Hn.
  destruct (clamp_spec minq maxq m) as (q & -> & Hq & Hqc); [lra|].
  exists q. split; [reflexivity|].
  destruct Hqc as [F|[(F & G)|(F & G)]]; lra.
Qed.

Lemma sizing_keeps_an_admissible_quantity_witness :
  initialCounterQty
    (Binary64.sizeCounterOrder (Finite 3) (Finite 4) (Finite 1) (Finite 1)
       "Limit" (lotSize 100 (1 # 4) (1 # 4) 100 (1 # 2)))
  = Finite (3 # 4)
  /\ moderate (1 # 4) /\ (1 <= 3 <= 2 ^ 50)%Z
  /\ Binary64.mul (Finite (inject_Z 3)) (Finite (1 # 4)) = Finite (3 # 4)
  /\ lt (Binary64.mul (Finite (3 # 4)) (Finite 1)) (Finite (1 # 2)) = false
  /\ exists q,
      finalCounterQty
        (Binary64.sizeCounterOrder (Finite 3) (Finite 4) (Finite 1) (Finite 1)
           "Limit" (lotSize 100 (1 # 4) (1 # 4) 100 (1 # 2)))
      = Finite q
      /\ q == 3 # 4.
Proof.
  assert (M : moderate (1 # 4)).
  { unfold moderate. split; apply Qle_bool_iff; vm_compute; reflexivity. }
  assert (K : (1 <= 3 <= 2 ^ 50)%Z) by lia.
  split; [vm_compute; reflexivity|]. split; [exact M|]. split; [exact K|].
  split; [vm_compute; reflexivity|]. split; [vm_compute; reflexivity|].
  apply (sizing_keeps_an_admissible_quantity (Finite 3) (Finite 4) (Finite 1)
           1 100 (1 # 4) (1 # 4) 100 (1 # 2) (3 # 4) "Limit" 3);
    [vm_compute; reflexivity | exact M | exact K | vm_compute; reflexivity
    | lra | lra | intros; lra | vm_compute; reflexivity].
Defined.
